(** * attiny_daemon: the I2C register protocol of [daemon/attiny_i2c.py]

    A shallow embedding of class [ATTiny]: the bit-serial checksum
    ([addCrc], [calcCRC]), the little-endian value codec ([int.to_bytes],
    [int.from_bytes]) and the retrying register transactions
    ([set_8bit_value], [set_16bit_value], [get_8bit_value],
    [get_16bit_value], [get_version], [get_uptime]).

    Python integers are unbounded, so they are [Z]; the bit operations are
    those of [Z] (two's complement, as in Python).  A Python list of
    integers is a [list Z].  Exceptions are an explicit [result]; the bus
    and its sessions are a state threaded through a small state-and-error
    monad that also records the trace of bus events. *)

From Stdlib Require Import ZArith List Bool Lia.
From Stdlib Require QArith_base.
Import ListNotations.
Local Open Scope Z_scope.

(** ** Exceptions and results *)

(** The exceptions the modelled code can meet.  [OSError] stands for any
    error raised by the bus library. *)
Inductive exn : Type :=
| OSError
| IndexError
| OverflowError
| ValueError
| UnboundLocalError.

Inductive result (A : Type) : Type :=
| Ret (a : A)
| Raise (e : exn).
Arguments Ret {A} a.
Arguments Raise {A} e.

(** ** Checksum engine *)

Module Crc.

(** [_POLYNOME = 0x31] *)
Definition POLYNOME : Z := 0x31.

(** One pass of the loop body of [addCrc]: the accumulator is NOT masked
    here, it keeps growing to the left; the input is shifted as well. *)
Definition addCrc_step (st : Z * Z) : Z * Z :=
  let '(crc, n) := st in
  let crc' :=
    if Z.eqb (Z.land (Z.lxor n crc) 0x80) 0
    then Z.shiftl crc 1
    else Z.lxor (Z.shiftl crc 1) POLYNOME in
  (crc', Z.shiftl n 1).

(** [for bitnumber in range(0,8)] *)
Fixpoint addCrc_loop (k : nat) (st : Z * Z) : Z * Z :=
  match k with
  | O => st
  | S k' => addCrc_loop k' (addCrc_step st)
  end.

(** [addCrc(self, crc, n)]: eight steps, then [crc & 0xFF]. *)
Definition addCrc (crc n : Z) : Z :=
  Z.land (fst (addCrc_loop 8 (crc, n))) 0xFF.

(** [for elem in range(0, len): crc = addCrc(crc, read[elem])];
    [elem] counts upwards from [i]; [read[elem]] raises [IndexError] past
    the end of the list. *)
Fixpoint calcCRC_loop (read : list Z) (i : nat) (k : nat) (crc : Z) : result Z :=
  match k with
  | O => Ret crc
  | S k' =>
      match nth_error read i with
      | Some b => calcCRC_loop read (S i) k' (addCrc crc b)
      | None => Raise IndexError
      end
  end.

(** [calcCRC(self, register, read, len)]; [range(0, len)] is empty for a
    non-positive [len]. *)
Definition calcCRC (register : Z) (read : list Z) (len : Z) : result Z :=
  calcCRC_loop read 0 (Z.to_nat len) (addCrc 0 register).

(** *** The bit-serial CRC-8 as the specification words it

    Accumulator starts at 0; the register address is folded first, then each
    payload byte; a bit step compares the accumulator's top bit with the
    input's top bit, shifts the accumulator left, XORs the polynomial when
    the two bits differ, and reduces the accumulator to 8 bits; the input is
    shifted left without being reduced. *)

Definition spec_bit_step (st : Z * Z) : Z * Z :=
  let '(acc, inp) := st in
  let shifted := Z.shiftl acc 1 in
  let acc' :=
    if xorb (Z.testbit acc 7) (Z.testbit inp 7)
    then Z.lxor shifted 0x31
    else shifted in
  (Z.land acc' 0xFF, Z.shiftl inp 1).

Definition spec_checksum (seed data : Z) : Z :=
  fst (Nat.iter 8 spec_bit_step (seed, data)).

Definition spec_checksum_over (register_address : Z) (payload : list Z) : Z :=
  fold_left spec_checksum payload (spec_checksum 0 register_address).

End Crc.

(** ** Value codec: [int.to_bytes] and [int.from_bytes], little-endian *)

Module Codec.

Definition is_byte (b : Z) : bool := (0 <=? b) && (b <? 256).

(** The [len] low-order bytes of [u], least significant first. *)
Fixpoint le_bytes (len : nat) (u : Z) : list Z :=
  match len with
  | O => []
  | S k => (u mod 256) :: le_bytes k (u / 256)
  end.

(** The number a little-endian list of digits in base 256 stands for. *)
Fixpoint le_unsigned (bs : list Z) : Z :=
  match bs with
  | [] => 0
  | b :: rest => b + 256 * le_unsigned rest
  end.

(** [value.to_bytes(len, byteorder='little', signed=signed)]: raises
    [OverflowError] when [value] does not fit. *)
Definition to_bytes (value : Z) (len : nat) (signed : bool) : result (list Z) :=
  let w := 8 * Z.of_nat len in
  let fits :=
    if signed
    then (if w =? 0 then value =? 0
          else (- 2 ^ (w - 1) <=? value) && (value <? 2 ^ (w - 1)))
    else (0 <=? value) && (value <? 2 ^ w) in
  if fits then Ret (le_bytes len (value mod 2 ^ w)) else Raise OverflowError.

(** [int.from_bytes(bs, byteorder='little', signed=signed)] on a list of
    integers: raises [ValueError] when an element is not in [range(0, 256)]. *)
Definition from_bytes (bs : list Z) (signed : bool) : result Z :=
  if forallb is_byte bs then
    let u := le_unsigned bs in
    let w := 8 * Z.of_nat (length bs) in
    Ret (if signed && (0 <? w) && (2 ^ (w - 1) <=? u) then u - 2 ^ w else u)
  else Raise ValueError.

(** [xs[i]] for a non-negative index. *)
Definition index {A : Type} (xs : list A) (i : nat) : result A :=
  match nth_error xs i with
  | Some x => Ret x
  | None => Raise IndexError
  end.

End Codec.

(** ** The bus: events, sessions and the transport capability *)

(** What the engine does to the bus, in order.  A session is the object
    returned by [smbus.SMBus(...)]; sessions are numbered as they are
    created. *)
Inductive event : Type :=
| EvOpen (session : nat)
| EvOpenFailed
| EvSleep
| EvWrite (session : nat) (register : Z) (data : list Z) (res : result unit)
| EvRead (session : nat) (register : Z) (count : Z) (res : result (list Z))
| EvClose (session : nat).

(** The [smbus] library and the peripheral behind it: any deterministic
    machine over a state [D].  Every operation may raise. *)
Record transport (D : Type) : Type := {
  t_open  : Z -> D -> result unit * D;
  t_write : Z -> Z -> list Z -> D -> result unit * D;
  t_read  : Z -> Z -> Z -> D -> result (list Z) * D
}.
Arguments t_open {D} _ _ _.
Arguments t_write {D} _ _ _ _ _.
Arguments t_read {D} _ _ _ _ _.

Record world (D : Type) : Type := {
  dev : D;
  next_session : nat;
  trace : list event
}.
Arguments dev {D} _.
Arguments next_session {D} _.
Arguments trace {D} _.

(** The sessions a trace leaves open: opened and not closed since. *)
Fixpoint open_sessions_from (acc : list nat) (evs : list event) : list nat :=
  match evs with
  | [] => acc
  | EvOpen s :: rest => open_sessions_from (acc ++ [s]) rest
  | EvClose s :: rest =>
      open_sessions_from (filter (fun x => negb (Nat.eqb x s)) acc) rest
  | _ :: rest => open_sessions_from acc rest
  end.

Definition open_sessions (evs : list event) : list nat :=
  open_sessions_from [] evs.

(** The largest number of sessions open at the same time along a trace. *)
Fixpoint max_open_from (acc : list nat) (evs : list event) : nat :=
  match evs with
  | [] => length acc
  | e :: rest =>
      Nat.max (length acc)
        (max_open_from (open_sessions_from acc [e]) rest)
  end.

Definition max_open (evs : list event) : nat := max_open_from [] evs.

(** ** A state-and-error monad over the world *)

Definition M (D A : Type) : Type := world D -> result A * world D.

Definition ret {D A} (a : A) : M D A := fun w => (Ret a, w).

Definition raise {D A} (e : exn) : M D A := fun w => (Raise e, w).

Definition bind {D A B} (m : M D A) (k : A -> M D B) : M D B :=
  fun w =>
    match m w with
    | (Ret a, w') => k a w'
    | (Raise e, w') => (Raise e, w')
    end.

(** A pure computation that may raise. *)
Definition lift {D A} (r : result A) : M D A := fun w => (r, w).

(** [try: m  except Exception as e: h e] *)
Definition try_except {D A} (m : M D A) (h : exn -> M D A) : M D A :=
  fun w =>
    match m w with
    | (Ret a, w') => (Ret a, w')
    | (Raise e, w') => h e w'
    end.

Declare Scope py_scope.
Delimit Scope py_scope with py.
Notation "x <- m ;; k" := (bind m (fun x => k))
  (at level 61, m at next level, right associativity) : py_scope.
Notation "m ;; k" := (bind m (fun _ => k))
  (at level 61, right associativity) : py_scope.

(** [for x in range(n): body], where the body either leaves the function
    with [return v] ([Some v]) or falls through to the next pass ([None]). *)
Fixpoint for_range {D A} (n : nat) (body : M D (option A)) : M D (option A) :=
  match n with
  | O => ret None
  | S k =>
      bind body (fun r =>
        match r with
        | Some v => ret (Some v)
        | None => for_range k body
        end)
  end.

Definition log {D} (e : event) (w : world D) : world D :=
  {| dev := dev w; next_session := next_session w; trace := trace w ++ [e] |}.

(** ** The device handle and the register transactions *)

(** [ATTiny.__init__]: the handle keeps the bus number, the peripheral
    address and the retry count.  The delay [_time_const] only feeds
    [time.sleep]; this handle stands for a delay [time.sleep] accepts, one
    that is not negative.  [TimedATTiny] below carries the delay itself. *)
Record ATTiny : Type := {
  bus_number : Z;
  address : Z;
  num_retries : Z
}.

Definition REG_BAT_VOLTAGE : Z := 0x11.
Definition REG_TIMEOUT : Z := 0x21.
Definition REG_VERSION : Z := 0x80.
Definition REG_UPTIME : Z := 0x85.

Section Engine.

Context {D : Type}.
Variable T : transport D.
Variable self : ATTiny.

Import Crc Codec.
Local Open Scope py_scope.

(** [bus = smbus.SMBus(self._bus_number)] *)
Definition SMBus (bus : Z) : M D nat :=
  fun w =>
    match t_open T bus (dev w) with
    | (Ret _, d) =>
        (Ret (next_session w),
         {| dev := d;
            next_session := S (next_session w);
            trace := trace w ++ [EvOpen (next_session w)] |})
    | (Raise e, d) =>
        (Raise e,
         {| dev := d;
            next_session := next_session w;
            trace := trace w ++ [EvOpenFailed] |})
    end.

(** [time.sleep(self._time_const)] at a delay that is not negative: the
    pause is recorded as [EvSleep].  [Timed.sleep] below reads the delay and
    raises [ValueError] for a negative one. *)
Definition sleep : M D unit := fun w => (Ret tt, log EvSleep w).

(** [bus.write_i2c_block_data(addr, register, data)] *)
Definition write_i2c_block_data (bus : nat) (addr register : Z) (data : list Z)
  : M D unit :=
  fun w =>
    let '(r, d) := t_write T addr register data (dev w) in
    (r, {| dev := d;
           next_session := next_session w;
           trace := trace w ++ [EvWrite bus register data r] |}).

(** [bus.read_i2c_block_data(addr, register, count)] *)
Definition read_i2c_block_data (bus : nat) (addr register count : Z)
  : M D (list Z) :=
  fun w =>
    let '(r, d) := t_read T addr register count (dev w) in
    (r, {| dev := d;
           next_session := next_session w;
           trace := trace w ++ [EvRead bus register count r] |}).

(** [bus.close()] *)
Definition close (bus : nat) : M D unit :=
  fun w => (Ret tt, log (EvClose bus) w).

(** [logging.warning("... after " + str(x) + " retries.")]: the loop
    variable [x] is unbound when the loop ran no pass. *)
Definition warn_retries (n : Z) : M D unit :=
  if n <=? 0 then raise UnboundLocalError else ret tt.

(** One pass of the loop of [get_8bit_value]. *)
Definition get_8bit_attempt (register : Z) : M D (option Z) :=
  bus <- SMBus (bus_number self) ;;
  sleep ;;
  try_except
    (read <- read_i2c_block_data bus (address self) register 2 ;;
     val <- lift (index read 0) ;;
     close bus ;;
     c <- lift (index read 1) ;;
     crc <- lift (calcCRC register read 1) ;;
     if c =? crc then ret (Some val) else ret None)
    (fun _ => ret None).

(** [get_8bit_value(self, register)] *)
Definition get_8bit_value (register : Z) : M D Z :=
  r <- for_range (Z.to_nat (num_retries self)) (get_8bit_attempt register) ;;
  match r with
  | Some val => ret val
  | None => warn_retries (num_retries self) ;; ret 0xFFFF
  end.

(** One pass of the loop of [get_16bit_value]. *)
Definition get_16bit_attempt (register : Z) : M D (option Z) :=
  bus <- SMBus (bus_number self) ;;
  sleep ;;
  try_except
    (read <- read_i2c_block_data bus (address self) register 3 ;;
     val <- lift (from_bytes (firstn 2 read) true) ;;
     close bus ;;
     c <- lift (index read 2) ;;
     crc <- lift (calcCRC register read 2) ;;
     if c =? crc then ret (Some val) else ret None)
    (fun _ => ret None).

(** [get_16bit_value(self, register)] *)
Definition get_16bit_value (register : Z) : M D Z :=
  r <- for_range (Z.to_nat (num_retries self)) (get_16bit_attempt register) ;;
  match r with
  | Some val => ret val
  | None => warn_retries (num_retries self) ;; ret 0xFFFFFFFF
  end.

(** One pass of the loop of [get_version]. *)
Definition get_version_attempt : M D (option (Z * Z * Z)) :=
  bus <- SMBus (bus_number self) ;;
  sleep ;;
  try_except
    (read <- read_i2c_block_data bus (address self) REG_VERSION 5 ;;
     close bus ;;
     c <- lift (index read 4) ;;
     crc <- lift (calcCRC REG_VERSION read 4) ;;
     if c =? crc then
       major <- lift (index read 2) ;;
       minor <- lift (index read 1) ;;
       patch <- lift (index read 0) ;;
       ret (Some (major, minor, patch))
     else ret None)
    (fun _ => ret None).

(** [get_version(self)] *)
Definition get_version : M D (Z * Z * Z) :=
  r <- for_range (Z.to_nat (num_retries self)) get_version_attempt ;;
  match r with
  | Some v => ret v
  | None => warn_retries (num_retries self) ;; ret (0xFFFF, 0xFFFF, 0xFFFF)
  end.

(** One pass of the loop of [get_uptime]. *)
Definition get_uptime_attempt : M D (option Z) :=
  bus <- SMBus (bus_number self) ;;
  sleep ;;
  try_except
    (read <- read_i2c_block_data bus (address self) REG_UPTIME 5 ;;
     close bus ;;
     c <- lift (index read 4) ;;
     crc <- lift (calcCRC REG_UPTIME read 4) ;;
     if c =? crc then
       uptime <- lift (from_bytes (firstn 3 read) false) ;;
       ret (Some uptime)
     else ret None)
    (fun _ => ret None).

(** [get_uptime(self)] *)
Definition get_uptime : M D Z :=
  r <- for_range (Z.to_nat (num_retries self)) get_uptime_attempt ;;
  match r with
  | Some v => ret v
  | None => warn_retries (num_retries self) ;; ret 0xFFFFFFFFFFFF
  end.

(** [arg_list] of [set_8bit_value]: the value as given, then the checksum
    of two [addCrc] folds. *)
Definition frame_8bit (register value : Z) : list Z :=
  [value; addCrc (addCrc 0 register) value].

(** One pass of the loop of [set_8bit_value]. *)
Definition set_8bit_attempt (register value : Z) (arg_list : list Z)
  : M D (option bool) :=
  bus <- SMBus (bus_number self) ;;
  sleep ;;
  try_except
    (write_i2c_block_data bus (address self) register arg_list ;;
     close bus ;;
     got <- get_8bit_value register ;;
     if got =? value then ret (Some true) else ret None)
    (fun _ => ret None).

(** [set_8bit_value(self, register, value)] *)
Definition set_8bit_value (register value : Z) : M D bool :=
  let arg_list := frame_8bit register value in
  r <- for_range (Z.to_nat (num_retries self))
         (set_8bit_attempt register value arg_list) ;;
  match r with
  | Some b => ret b
  | None => warn_retries (num_retries self) ;; ret false
  end.

(** The first three statements of [set_16bit_value]: encode, checksum,
    build [arg_list]. *)
Definition frame_16bit (register value : Z) : result (list Z) :=
  match to_bytes value 2 true with
  | Raise e => Raise e
  | Ret vals =>
      match calcCRC register vals 2 with
      | Raise e => Raise e
      | Ret crc =>
          match index vals 0, index vals 1 with
          | Ret v0, Ret v1 => Ret [v0; v1; crc]
          | Raise e, _ => Raise e
          | _, Raise e => Raise e
          end
      end
  end.

(** One pass of the loop of [set_16bit_value]. *)
Definition set_16bit_attempt (register value : Z) (arg_list : list Z)
  : M D (option bool) :=
  bus <- SMBus (bus_number self) ;;
  sleep ;;
  try_except
    (write_i2c_block_data bus (address self) register arg_list ;;
     close bus ;;
     got <- get_16bit_value register ;;
     if got =? value then ret (Some true) else ret None)
    (fun _ => ret None).

(** [set_16bit_value(self, register, value)] *)
Definition set_16bit_value (register value : Z) : M D bool :=
  arg_list <- lift (frame_16bit register value) ;;
  r <- for_range (Z.to_nat (num_retries self))
         (set_16bit_attempt register value arg_list) ;;
  match r with
  | Some b => ret b
  | None => warn_retries (num_retries self) ;; ret false
  end.

(** The common shape of the four read passes: open, sleep, then under
    [try] a block read of [count] bytes, a computation [pre] before
    [bus.close()] and a computation [post] after it. *)
Definition read_attempt {A B : Type} (register count : Z)
    (pre : list Z -> result B) (post : list Z -> B -> result (option A))
  : M D (option A) :=
  bus <- SMBus (bus_number self) ;;
  sleep ;;
  try_except
    (read <- read_i2c_block_data bus (address self) register count ;;
     b <- lift (pre read) ;;
     close bus ;;
     lift (post read b))
    (fun _ => ret None).

(** The common shape of the two write passes, over the read-back [get]. *)
Definition write_attempt (get : Z -> M D Z) (register value : Z)
    (arg_list : list Z) : M D (option bool) :=
  bus <- SMBus (bus_number self) ;;
  sleep ;;
  try_except
    (write_i2c_block_data bus (address self) register arg_list ;;
     close bus ;;
     got <- get register ;;
     if got =? value then ret (Some true) else ret None)
    (fun _ => ret None).

End Engine.

(** [chain R k w w']: [k] consecutive passes, each related by [R], lead from
    [w] to [w']. *)
Inductive chain {W : Type} (R : W -> W -> Prop) : nat -> W -> W -> Prop :=
| chain_nil (w : W) : chain R O w w
| chain_cons (k : nat) (w w1 w2 : W) :
    R w w1 -> chain R k w1 w2 -> chain R (S k) w w2.

(** The frames of the block writes of a trace, with their registers. *)
Fixpoint writes_of (evs : list event) : list (Z * list Z) :=
  match evs with
  | [] => []
  | EvWrite _ register data _ :: rest => (register, data) :: writes_of rest
  | _ :: rest => writes_of rest
  end.

(** The results of the block reads of a trace. *)
Fixpoint reads_of (evs : list event) : list (result (list Z)) :=
  match evs with
  | [] => []
  | EvRead _ _ _ r :: rest => r :: reads_of rest
  | _ :: rest => reads_of rest
  end.

(** A fresh world around a device state: no session yet, empty trace. *)
Definition init_world {D} (d : D) : world D :=
  {| dev := d; next_session := O; trace := [] |}.

(** ** Transports used as test doubles *)

(** Every open succeeds; every write gives [wr], every read gives [rd]. *)
Definition const_transport (wr : result unit) (rd : result (list Z))
  : transport unit :=
  {| t_open := fun _ d => (Ret tt, d);
     t_write := fun _ _ _ d => (wr, d);
     t_read := fun _ _ _ d => (rd, d) |}.

(** A register file that keeps the last frame written to each register, each
    element cut to a byte as the bus does, and plays its first [count] bytes
    back on a read. *)
Definition regfile : Type := list (Z * list Z).

Fixpoint regfile_get (register : Z) (rf : regfile) : option (list Z) :=
  match rf with
  | [] => None
  | (r, frame) :: rest =>
      if r =? register then Some frame else regfile_get register rest
  end.

Definition regfile_transport : transport regfile :=
  {| t_open := fun _ d => (Ret tt, d);
     t_write := fun _ register data d =>
       (Ret tt, (register, map (fun v => v mod 256) data) :: d);
     t_read := fun _ register count d =>
       match regfile_get register d with
       | Some frame => (Ret (firstn (Z.to_nat count) frame), d)
       | None => (Raise OSError, d)
       end |}.

Definition handle (retries : Z) : ATTiny :=
  {| bus_number := 1; address := 0x37; num_retries := retries |}.

(** ** What a pass of a retry loop did, as relations between worlds *)

(** Sequencing of pure computations that may raise. *)
Definition and_then {A B : Type} (r : result A) (k : A -> result B) : result B :=
  match r with
  | Ret a => k a
  | Raise e => Raise e
  end.

Section Passes.

Context {D : Type}.
Variable T : transport D.
Variable self : ATTiny.

Import Crc Codec.

(** The world once a session is open and the delay has passed, the device
    being in state [d] after the further events [evs]. *)
Definition after_open (w : world D) (d : D) (evs : list event) : world D :=
  {| dev := d;
     next_session := S (next_session w);
     trace := trace w ++ EvOpen (next_session w) :: EvSleep :: evs |}.

(** [smbus.SMBus(...)] raised [e]: the pass, and the call, end there. *)
Definition open_failed (e : exn) (w w' : world D) : Prop :=
  exists d,
    t_open T (bus_number self) (dev w) = (Raise e, d) /\
    w' = {| dev := d; next_session := next_session w;
            trace := trace w ++ [EvOpenFailed] |}.

(** A read pass returned [v]: the block read gave [read], nothing raised,
    the session was closed, and [post] accepted. *)
Definition read_accepted {A B : Type} (register count : Z)
    (pre : list Z -> result B) (post : list Z -> B -> result (option A))
    (v : A) (w w' : world D) : Prop :=
  exists u d1 read d2 b,
    t_open T (bus_number self) (dev w) = (Ret u, d1) /\
    t_read T (address self) register count d1 = (Ret read, d2) /\
    pre read = Ret b /\
    post read b = Ret (Some v) /\
    w' = after_open w d2
           [EvRead (next_session w) register count (Ret read);
            EvClose (next_session w)].

(** A read pass fell through to the next one: the read raised, or [pre]
    raised (the session is then not closed), or [post] did not accept. *)
Definition read_rejected {A B : Type} (register count : Z)
    (pre : list Z -> result B) (post : list Z -> B -> result (option A))
    (w w' : world D) : Prop :=
  exists u d1 r d2 tail,
    t_open T (bus_number self) (dev w) = (Ret u, d1) /\
    t_read T (address self) register count d1 = (r, d2) /\
    w' = after_open w d2 (EvRead (next_session w) register count r :: tail) /\
    match r with
    | Raise _ => tail = []
    | Ret read =>
        match pre read with
        | Raise _ => tail = []
        | Ret b =>
            tail = [EvClose (next_session w)] /\
            forall v, post read b <> Ret (Some v)
        end
    end.

(** A write pass put [arg_list] on the bus and closed its session. *)
Definition write_sent (register : Z) (arg_list : list Z) (w w1 : world D)
  : Prop :=
  exists u d1 d2,
    t_open T (bus_number self) (dev w) = (Ret u, d1) /\
    t_write T (address self) register arg_list d1 = (Ret tt, d2) /\
    w1 = after_open w d2
           [EvWrite (next_session w) register arg_list (Ret tt);
            EvClose (next_session w)].

(** A write pass returned [True]: the frame was sent and the read-back
    returned [value]. *)
Definition write_accepted (get : Z -> M D Z) (register value : Z)
    (arg_list : list Z) (w w' : world D) : Prop :=
  exists w1,
    write_sent register arg_list w w1 /\
    get register w1 = (Ret value, w').

(** A write pass fell through: the block write raised, or the read-back
    raised or returned something else than [value]. *)
Definition write_rejected (get : Z -> M D Z) (register value : Z)
    (arg_list : list Z) (w w' : world D) : Prop :=
  (exists u d1 e d2,
      t_open T (bus_number self) (dev w) = (Ret u, d1) /\
      t_write T (address self) register arg_list d1 = (Raise e, d2) /\
      w' = after_open w d2
             [EvWrite (next_session w) register arg_list (Raise e)]) \/
  (exists w1 r,
      write_sent register arg_list w w1 /\
      get register w1 = (r, w') /\
      r <> Ret value).

(** The common shape of the two write functions once [arg_list] is built:
    a retry loop over [write_attempt]. *)
Definition write_loop (get : Z -> M D Z) (register value : Z)
    (arg_list : list Z) : M D bool :=
  bind (for_range (Z.to_nat (num_retries self))
          (write_attempt T self get register value arg_list))
    (fun r => match r with
              | Some b => ret b
              | None => bind (warn_retries (num_retries self))
                          (fun _ => ret false)
              end).

(** [pre] and [post] of the four read passes. *)
Definition pre_8bit (read : list Z) : result Z := index read 0.

Definition post_8bit (register : Z) (read : list Z) (val : Z)
  : result (option Z) :=
  and_then (index read 1) (fun c =>
  and_then (calcCRC register read 1) (fun crc =>
  if c =? crc then Ret (Some val) else Ret None)).

Definition pre_16bit (read : list Z) : result Z :=
  from_bytes (firstn 2 read) true.

Definition post_16bit (register : Z) (read : list Z) (val : Z)
  : result (option Z) :=
  and_then (index read 2) (fun c =>
  and_then (calcCRC register read 2) (fun crc =>
  if c =? crc then Ret (Some val) else Ret None)).

Definition pre_none (read : list Z) : result unit := Ret tt.

Definition post_version (read : list Z) (_ : unit)
  : result (option (Z * Z * Z)) :=
  and_then (index read 4) (fun c =>
  and_then (calcCRC REG_VERSION read 4) (fun crc =>
  if c =? crc then
    and_then (index read 2) (fun major =>
    and_then (index read 1) (fun minor =>
    and_then (index read 0) (fun patch =>
    Ret (Some (major, minor, patch)))))
  else Ret None)).

Definition post_uptime (read : list Z) (_ : unit) : result (option Z) :=
  and_then (index read 4) (fun c =>
  and_then (calcCRC REG_UPTIME read 4) (fun crc =>
  if c =? crc then
    and_then (from_bytes (firstn 3 read) false) (fun uptime =>
    Ret (Some uptime))
  else Ret None)).

End Passes.

(** The events a world gained since an earlier one. *)
Definition gained {D : Type} (w w' : world D) (evs : list event) : Prop :=
  trace w' = trace w ++ evs.

(** ** The delay before each transfer

    The definitions above are the register transactions at a delay
    [time.sleep] accepts.  Here the handle carries [_time_const] too, and
    [time.sleep(self._time_const)], which stands between
    [smbus.SMBus(...)] and the [try], raises [ValueError] for a negative
    delay.  The delay is a finite number, a rational. *)

(** [ATTiny.__init__] with its four fields. *)
Record TimedATTiny : Type := {
  untimed : ATTiny;
  time_const : QArith_base.Q
}.

Module Timed.

Section Engine.

Context {D : Type}.
Variable T : transport D.
Variable self : TimedATTiny.

Import Crc Codec.
Local Open Scope py_scope.

(** [time.sleep(self._time_const)] *)
Definition sleep : M D unit :=
  if QArith_base.Qle_bool (QArith_base.Qmake 0 1) (time_const self)
  then sleep
  else raise ValueError.

(** One pass of the loop of [get_8bit_value]. *)
Definition get_8bit_attempt (register : Z) : M D (option Z) :=
  bus <- SMBus T (bus_number (untimed self)) ;;
  sleep ;;
  try_except
    (read <- read_i2c_block_data T bus (address (untimed self)) register 2 ;;
     val <- lift (index read 0) ;;
     close bus ;;
     c <- lift (index read 1) ;;
     crc <- lift (calcCRC register read 1) ;;
     if c =? crc then ret (Some val) else ret None)
    (fun _ => ret None).

(** [get_8bit_value(self, register)] *)
Definition get_8bit_value (register : Z) : M D Z :=
  r <- for_range (Z.to_nat (num_retries (untimed self)))
         (get_8bit_attempt register) ;;
  match r with
  | Some val => ret val
  | None => warn_retries (num_retries (untimed self)) ;; ret 0xFFFF
  end.

(** One pass of the loop of [get_16bit_value]. *)
Definition get_16bit_attempt (register : Z) : M D (option Z) :=
  bus <- SMBus T (bus_number (untimed self)) ;;
  sleep ;;
  try_except
    (read <- read_i2c_block_data T bus (address (untimed self)) register 3 ;;
     val <- lift (from_bytes (firstn 2 read) true) ;;
     close bus ;;
     c <- lift (index read 2) ;;
     crc <- lift (calcCRC register read 2) ;;
     if c =? crc then ret (Some val) else ret None)
    (fun _ => ret None).

(** [get_16bit_value(self, register)] *)
Definition get_16bit_value (register : Z) : M D Z :=
  r <- for_range (Z.to_nat (num_retries (untimed self)))
         (get_16bit_attempt register) ;;
  match r with
  | Some val => ret val
  | None => warn_retries (num_retries (untimed self)) ;; ret 0xFFFFFFFF
  end.

(** One pass of the loop of [get_version]. *)
Definition get_version_attempt : M D (option (Z * Z * Z)) :=
  bus <- SMBus T (bus_number (untimed self)) ;;
  sleep ;;
  try_except
    (read <- read_i2c_block_data T bus (address (untimed self)) REG_VERSION 5 ;;
     close bus ;;
     c <- lift (index read 4) ;;
     crc <- lift (calcCRC REG_VERSION read 4) ;;
     if c =? crc then
       major <- lift (index read 2) ;;
       minor <- lift (index read 1) ;;
       patch <- lift (index read 0) ;;
       ret (Some (major, minor, patch))
     else ret None)
    (fun _ => ret None).

(** [get_version(self)] *)
Definition get_version : M D (Z * Z * Z) :=
  r <- for_range (Z.to_nat (num_retries (untimed self))) get_version_attempt ;;
  match r with
  | Some v => ret v
  | None => warn_retries (num_retries (untimed self)) ;;
            ret (0xFFFF, 0xFFFF, 0xFFFF)
  end.

(** One pass of the loop of [get_uptime]. *)
Definition get_uptime_attempt : M D (option Z) :=
  bus <- SMBus T (bus_number (untimed self)) ;;
  sleep ;;
  try_except
    (read <- read_i2c_block_data T bus (address (untimed self)) REG_UPTIME 5 ;;
     close bus ;;
     c <- lift (index read 4) ;;
     crc <- lift (calcCRC REG_UPTIME read 4) ;;
     if c =? crc then
       uptime <- lift (from_bytes (firstn 3 read) false) ;;
       ret (Some uptime)
     else ret None)
    (fun _ => ret None).

(** [get_uptime(self)] *)
Definition get_uptime : M D Z :=
  r <- for_range (Z.to_nat (num_retries (untimed self))) get_uptime_attempt ;;
  match r with
  | Some v => ret v
  | None => warn_retries (num_retries (untimed self)) ;; ret 0xFFFFFFFFFFFF
  end.

(** One pass of the loop of [set_8bit_value]. *)
Definition set_8bit_attempt (register value : Z) (arg_list : list Z)
  : M D (option bool) :=
  bus <- SMBus T (bus_number (untimed self)) ;;
  sleep ;;
  try_except
    (write_i2c_block_data T bus (address (untimed self)) register arg_list ;;
     close bus ;;
     got <- get_8bit_value register ;;
     if got =? value then ret (Some true) else ret None)
    (fun _ => ret None).

(** [set_8bit_value(self, register, value)] *)
Definition set_8bit_value (register value : Z) : M D bool :=
  let arg_list := frame_8bit register value in
  r <- for_range (Z.to_nat (num_retries (untimed self)))
         (set_8bit_attempt register value arg_list) ;;
  match r with
  | Some b => ret b
  | None => warn_retries (num_retries (untimed self)) ;; ret false
  end.

(** One pass of the loop of [set_16bit_value]. *)
Definition set_16bit_attempt (register value : Z) (arg_list : list Z)
  : M D (option bool) :=
  bus <- SMBus T (bus_number (untimed self)) ;;
  sleep ;;
  try_except
    (write_i2c_block_data T bus (address (untimed self)) register arg_list ;;
     close bus ;;
     got <- get_16bit_value register ;;
     if got =? value then ret (Some true) else ret None)
    (fun _ => ret None).

(** [set_16bit_value(self, register, value)] *)
Definition set_16bit_value (register value : Z) : M D bool :=
  arg_list <- lift (frame_16bit register value) ;;
  r <- for_range (Z.to_nat (num_retries (untimed self)))
         (set_16bit_attempt register value arg_list) ;;
  match r with
  | Some b => ret b
  | None => warn_retries (num_retries (untimed self)) ;; ret false
  end.

End Engine.

End Timed.

(** A handle with the delay [delay] and [retries] retries. *)
Definition timed_handle (delay : QArith_base.Q) (retries : Z) : TimedATTiny :=
  {| untimed := handle retries; time_const := delay |}.

(** ** Definitions for the further properties *)

(** The 256 byte values, and the check, by enumeration, that two different
    bytes folded into the seed 0 give different checksums. *)
Definition all_bytes : list Z := map Z.of_nat (seq 0 256).

Definition addCrc_injective_on_bytes : bool :=
  forallb (fun x =>
    forallb (fun y => implb (Crc.addCrc 0 x =? Crc.addCrc 0 y) (x =? y))
      all_bytes) all_bytes.

(** Reads raise [OSError] until [k] of them were made; from then on they
    return [frame].  The state counts the reads. *)
Definition flaky_transport (k : nat) (frame : list Z) : transport nat :=
  {| t_open := fun _ d => (Ret tt, d);
     t_write := fun _ _ _ d => (Ret tt, d);
     t_read := fun _ _ _ d =>
       if (d <? k)%nat then (Raise OSError, S d) else (Ret frame, S d) |}.

(** The bus cannot be opened: [smbus.SMBus(...)] raises [e]. *)
Definition closed_transport (e : exn) : transport unit :=
  {| t_open := fun _ d => (Raise e, d);
     t_write := fun _ _ _ d => (Ret tt, d);
     t_read := fun _ _ _ d => (Raise OSError, d) |}.

(** The events of a call leave no session open and never show two open at
    once. *)
Definition sessions_balanced (evs : list event) : Prop :=
  open_sessions evs = [] /\ (max_open evs <= 1)%nat.

(** * Proofs *)

Lemma Ret_inj {A : Type} (a b : A) : Ret a = Ret b -> a = b.
Proof.
  intros H. congruence.
Qed.

(** ** Bit-level facts used by the checksum proofs *)

Lemma land_255_mod (x : Z) : Z.land x 0xFF = x mod 256.
Proof.
  change 0xFF with (Z.ones 8). rewrite Z.land_ones by lia. reflexivity.
Qed.

Lemma land_255_range (x : Z) : 0 <= Z.land x 0xFF < 256.
Proof.
  rewrite land_255_mod. apply Z.mod_pos_bound. lia.
Qed.

Lemma land_255_small (x : Z) : 0 <= x < 256 -> Z.land x 0xFF = x.
Proof.
  intros H. rewrite land_255_mod. apply Z.mod_small. exact H.
Qed.

Lemma shiftl1_land_255 (c : Z) :
  Z.land (Z.shiftl c 1) 0xFF = Z.land (Z.shiftl (Z.land c 0xFF) 1) 0xFF.
Proof.
  rewrite !land_255_mod, !Z.shiftl_mul_pow2 by lia.
  change (2 ^ 1) with 2.
  rewrite (Z.mul_mod_idemp_l c 2 256) by lia. reflexivity.
Qed.

Lemma land_lxor_distr (a b c : Z) :
  Z.land (Z.lxor a b) c = Z.lxor (Z.land a c) (Z.land b c).
Proof.
  apply Z.bits_inj'. intros i _.
  rewrite Z.land_spec, !Z.lxor_spec, !Z.land_spec.
  destruct (Z.testbit a i), (Z.testbit b i), (Z.testbit c i); reflexivity.
Qed.

Lemma testbit7_land_255 (c : Z) : Z.testbit (Z.land c 0xFF) 7 = Z.testbit c 7.
Proof.
  rewrite Z.land_spec. change (Z.testbit 0xFF 7) with true.
  apply andb_true_r.
Qed.

Lemma land_128_testbit (x : Z) :
  Z.eqb (Z.land x 0x80) 0 = negb (Z.testbit x 7).
Proof.
  assert (E : Z.land x 0x80 = if Z.testbit x 7 then 0x80 else 0).
  { apply Z.bits_inj'. intros i Hi.
    rewrite Z.land_spec. change 0x80 with (2 ^ 7).
    rewrite Z.pow2_bits_eqb by lia.
    destruct (Z.eqb_spec 7 i) as [<- | Hne].
    - rewrite andb_true_r. destruct (Z.testbit x 7).
      + rewrite Z.pow2_bits_eqb by lia. reflexivity.
      + rewrite Z.bits_0. reflexivity.
    - rewrite andb_false_r. destruct (Z.testbit x 7).
      + rewrite Z.pow2_bits_eqb by lia. symmetry. apply Z.eqb_neq. exact Hne.
      + rewrite Z.bits_0. reflexivity. }
  rewrite E. destruct (Z.testbit x 7); reflexivity.
Qed.

Section CrcFacts.

Import Crc.

(** The unmasked loop body of [addCrc] and the masked bit step agree on the
    low eight bits of the accumulator. *)
Lemma addCrc_step_spec (c n : Z) :
  spec_bit_step (Z.land c 0xFF, n) =
  (Z.land (fst (addCrc_step (c, n))) 0xFF, snd (addCrc_step (c, n))).
Proof.
  unfold spec_bit_step, addCrc_step, POLYNOME.
  rewrite land_128_testbit, Z.lxor_spec, testbit7_land_255.
  rewrite (xorb_comm (Z.testbit n 7)).
  destruct (xorb (Z.testbit c 7) (Z.testbit n 7)); cbn [negb fst snd].
  - f_equal.
    rewrite !(land_lxor_distr _ _ 0xFF).
    rewrite <- shiftl1_land_255. reflexivity.
  - f_equal. symmetry. apply shiftl1_land_255.
Qed.

Lemma addCrc_loop_spec (k : nat) : forall c n,
  Nat.iter k spec_bit_step (Z.land c 0xFF, n) =
  (Z.land (fst (addCrc_loop k (c, n))) 0xFF, snd (addCrc_loop k (c, n))).
Proof.
  induction k as [| k IH]; intros c n.
  - reflexivity.
  - rewrite Nat.iter_succ_r, addCrc_step_spec.
    cbn [addCrc_loop].
    destruct (addCrc_step (c, n)) as [c1 n1]. cbn [fst snd].
    apply IH.
Qed.

Lemma addCrc_spec (c n : Z) : addCrc c n = spec_checksum (Z.land c 0xFF) n.
Proof.
  unfold addCrc, spec_checksum. rewrite addCrc_loop_spec. reflexivity.
Qed.

Lemma addCrc_range (c n : Z) : 0 <= addCrc c n < 256.
Proof.
  unfold addCrc. apply land_255_range.
Qed.

Lemma addCrc_masked (c n : Z) : Z.land (addCrc c n) 0xFF = addCrc c n.
Proof.
  apply land_255_small, addCrc_range.
Qed.

(** The loop of [calcCRC] over a whole suffix is a left fold of [addCrc]. *)
Lemma calcCRC_loop_fold (pre p : list Z) : forall crc,
  calcCRC_loop (pre ++ p) (length pre) (length p) crc =
  Ret (fold_left addCrc p crc).
Proof.
  revert pre. induction p as [| b p IH]; intros pre crc.
  - reflexivity.
  - cbn [length calcCRC_loop fold_left].
    rewrite nth_error_app2, Nat.sub_diag by lia. cbn [nth_error].
    specialize (IH (pre ++ [b]) (addCrc crc b)).
    rewrite <- app_assoc, length_app, Nat.add_1_r in IH. exact IH.
Qed.

Lemma fold_addCrc_spec (p : list Z) : forall crc,
  Z.land crc 0xFF = crc ->
  fold_left addCrc p crc = fold_left spec_checksum p crc.
Proof.
  induction p as [| b p IH]; intros crc H.
  - reflexivity.
  - cbn [fold_left]. rewrite <- H at 2. rewrite <- addCrc_spec.
    apply IH, addCrc_masked.
Qed.

Lemma fold_addCrc_range (p : list Z) : forall crc,
  0 <= crc < 256 -> 0 <= fold_left addCrc p crc < 256.
Proof.
  induction p as [| b p IH]; intros crc H.
  - exact H.
  - cbn [fold_left]. apply IH, addCrc_range.
Qed.

Lemma calcCRC_fold (a : Z) (p : list Z) :
  calcCRC a p (Z.of_nat (length p)) = Ret (fold_left addCrc p (addCrc 0 a)).
Proof.
  unfold calcCRC. rewrite Nat2Z.id. apply (calcCRC_loop_fold [] p).
Qed.

(** [calcCRC] over a whole list is the specification's checksum. *)
Lemma calcCRC_whole (a : Z) (p : list Z) :
  calcCRC a p (Z.of_nat (length p)) = Ret (spec_checksum_over a p).
Proof.
  rewrite calcCRC_fold. f_equal. unfold spec_checksum_over.
  rewrite fold_addCrc_spec by apply addCrc_masked.
  rewrite addCrc_spec. reflexivity.
Qed.

Lemma spec_checksum_over_range (a : Z) (p : list Z) :
  0 <= spec_checksum_over a p < 256.
Proof.
  pose proof (calcCRC_whole a p) as H. rewrite calcCRC_fold in H.
  apply Ret_inj in H. rewrite <- H.
  apply fold_addCrc_range, addCrc_range.
Qed.

(** C1. For every register address [a] and every finite sequence [p],
    [calcCRC(a, p, len(p))] returns the bit-serial CRC-8 of the
    specification: accumulator 0, the address folded first and then the
    payload in order, eight MSB-first bit steps per byte, each step shifting
    the accumulator left and XORing 0x31 exactly when the accumulator's top
    bit and the input's top bit differ, the accumulator reduced to eight
    bits, the input shifted without being reduced; the result is one byte. *)
Theorem calcCRC_is_spec_crc8 (a : Z) (p : list Z) :
  calcCRC a p (Z.of_nat (length p)) = Ret (spec_checksum_over a p) /\
  0 <= spec_checksum_over a p < 256.
Proof.
  split; [apply calcCRC_whole | apply spec_checksum_over_range].
Qed.

End CrcFacts.

(** ** Codec facts *)

Section CodecFacts.

Import Crc Codec.

Lemma to_bytes_16_signed (v : Z) :
  -32768 <= v <= 32767 ->
  to_bytes v 2 true = Ret [v mod 65536 mod 256; v mod 65536 / 256 mod 256].
Proof.
  intros H. unfold to_bytes.
  change (8 * Z.of_nat 2) with 16. change (16 =? 0) with false.
  change (2 ^ (16 - 1)) with 32768. change (2 ^ 16) with 65536.
  replace (- (32768) <=? v) with true by (symmetry; apply Z.leb_le; lia).
  replace (v <? 32768) with true by (symmetry; apply Z.ltb_lt; lia).
  reflexivity.
Qed.

Lemma to_bytes_16_overflow (v : Z) :
  ~ (-32768 <= v <= 32767) -> to_bytes v 2 true = Raise OverflowError.
Proof.
  intros H. unfold to_bytes.
  change (8 * Z.of_nat 2) with 16. change (16 =? 0) with false.
  change (2 ^ (16 - 1)) with 32768.
  destruct (Z.leb_spec (- (32768)) v); [| reflexivity].
  destruct (Z.ltb_spec v 32768); [lia | reflexivity].
Qed.

Lemma mod_256_is_byte (u : Z) : is_byte (u mod 256) = true.
Proof.
  unfold is_byte. pose proof (Z.mod_pos_bound u 256 ltac:(lia)).
  apply andb_true_intro. split; [apply Z.leb_le | apply Z.ltb_lt]; lia.
Qed.

Lemma from_bytes_16_signed (v : Z) :
  -32768 <= v <= 32767 ->
  from_bytes [v mod 65536 mod 256; v mod 65536 / 256 mod 256] true = Ret v.
Proof.
  intros H. unfold from_bytes.
  cbn [forallb]. rewrite !mod_256_is_byte. cbn [andb length le_unsigned].
  change (8 * Z.of_nat 2) with 16. change (0 <? 16) with true.
  change (2 ^ (16 - 1)) with 32768. change (2 ^ 16) with 65536.
  cbn [andb]. f_equal.
  destruct (Z.leb_spec 32768
              (v mod 65536 mod 256 + 256 * (v mod 65536 / 256 mod 256 + 256 * 0)));
    Z.to_euclidean_division_equations; lia.
Qed.

(** The range of what [int.from_bytes] yields from two bytes, signed. *)
Lemma from_bytes_2_signed_range (bs : list Z) (v : Z) :
  length bs = 2%nat -> from_bytes bs true = Ret v -> -32768 <= v <= 32767.
Proof.
  destruct bs as [| b0 [| b1 [| b2 rest]]]; try discriminate. intros _.
  unfold from_bytes. cbn [forallb length le_unsigned].
  unfold is_byte.
  destruct (Z.leb_spec 0 b0), (Z.ltb_spec b0 256),
           (Z.leb_spec 0 b1), (Z.ltb_spec b1 256); cbn [andb]; try discriminate.
  change (8 * Z.of_nat 2) with 16. change (0 <? 16) with true.
  change (2 ^ (16 - 1)) with 32768. change (2 ^ 16) with 65536.
  destruct (Z.leb_spec 32768 (b0 + 256 * (b1 + 256 * 0)));
    cbn [andb]; intros E; apply Ret_inj in E; lia.
Qed.

(** The range of what [int.from_bytes] yields from three bytes, unsigned. *)
Lemma from_bytes_3_unsigned_range (bs : list Z) (v : Z) :
  length bs = 3%nat -> from_bytes bs false = Ret v -> 0 <= v <= 2 ^ 24 - 1.
Proof.
  destruct bs as [| b0 [| b1 [| b2 [| b3 rest]]]]; try discriminate. intros _.
  unfold from_bytes. cbn [forallb length le_unsigned].
  unfold is_byte.
  destruct (Z.leb_spec 0 b0), (Z.ltb_spec b0 256),
           (Z.leb_spec 0 b1), (Z.ltb_spec b1 256),
           (Z.leb_spec 0 b2), (Z.ltb_spec b2 256); cbn [andb]; try discriminate.
  change (2 ^ 24 - 1) with 16777215.
  cbn [andb]. intros E; apply Ret_inj in E; lia.
Qed.

End CodecFacts.

(** ** Passes and loops *)

Ltac unfold_monad :=
  unfold bind, ret, raise, lift, try_except, SMBus, sleep, close,
    write_i2c_block_data, read_i2c_block_data, log; cbn [dev next_session trace].

Ltac norm_trace :=
  unfold after_open; cbn [dev next_session trace];
  repeat rewrite <- app_assoc; cbn [app].

Section EngineFacts.

Context {D : Type}.
Variable T : transport D.
Variable self : ATTiny.

Import Crc Codec.

Lemma writes_of_app (a b : list event) :
  writes_of (a ++ b) = writes_of a ++ writes_of b.
Proof.
  induction a as [| e a IH]; [reflexivity |].
  destruct e; cbn [app writes_of]; rewrite IH; reflexivity.
Qed.

Lemma reads_of_app (a b : list event) :
  reads_of (a ++ b) = reads_of a ++ reads_of b.
Proof.
  induction a as [| e a IH]; [reflexivity |].
  destruct e; cbn [app reads_of]; rewrite IH; reflexivity.
Qed.

Lemma gained_refl (w : world D) : gained w w [].
Proof.
  unfold gained. rewrite app_nil_r. reflexivity.
Qed.

Lemma gained_trans (w w1 w2 : world D) (e1 e2 : list event) :
  gained w w1 e1 -> gained w1 w2 e2 -> gained w w2 (e1 ++ e2).
Proof.
  unfold gained. intros H1 H2. rewrite H2, H1, app_assoc. reflexivity.
Qed.

Lemma read_attempt_cases {A B : Type} (register count : Z)
    (pre : list Z -> result B) (post : list Z -> B -> result (option A))
    (w : world D) :
  match read_attempt T self register count pre post w with
  | (Ret (Some v), w') => read_accepted T self register count pre post v w w'
  | (Ret None, w') => read_rejected T self register count pre post w w'
  | (Raise e, w') => open_failed T self e w w'
  end.
Proof.
  unfold read_attempt. unfold_monad.
  destruct (t_open T (bus_number self) (dev w)) as [[u | e] d1] eqn:Ho;
    cbn [dev next_session trace].
  2:{ exists d1. split; [exact Ho | reflexivity]. }
  destruct (t_read T (address self) register count d1) as [[read | e] d2] eqn:Hr;
    cbn [dev next_session trace].
  2:{ exists u, d1, (Raise e), d2, []. repeat split; try assumption.
      norm_trace. reflexivity. }
  destruct (pre read) as [b | e] eqn:Hp.
  2:{ exists u, d1, (Ret read), d2, []. repeat split; try assumption.
      - norm_trace. reflexivity.
      - rewrite Hp. reflexivity. }
  cbn [dev next_session trace].
  destruct (post read b) as [[v |] | e] eqn:Hq.
  - exists u, d1, read, d2, b. repeat split; try assumption.
    norm_trace. reflexivity.
  - exists u, d1, (Ret read), d2, [EvClose (next_session w)].
    repeat split; try assumption.
    + norm_trace. reflexivity.
    + rewrite Hp. split; [reflexivity | congruence].
  - exists u, d1, (Ret read), d2, [EvClose (next_session w)].
    repeat split; try assumption.
    + norm_trace. reflexivity.
    + rewrite Hp. split; [reflexivity | congruence].
Qed.

Lemma write_attempt_cases (get : Z -> M D Z) (register value : Z)
    (arg_list : list Z) (w : world D) :
  match write_attempt T self get register value arg_list w with
  | (Ret (Some b), w') =>
      b = true /\ write_accepted T self get register value arg_list w w'
  | (Ret None, w') => write_rejected T self get register value arg_list w w'
  | (Raise e, w') => open_failed T self e w w'
  end.
Proof.
  unfold write_attempt. unfold_monad.
  destruct (t_open T (bus_number self) (dev w)) as [[u | e] d1] eqn:Ho;
    cbn [dev next_session trace].
  2:{ exists d1. split; [exact Ho | reflexivity]. }
  destruct (t_write T (address self) register arg_list d1) as [[[] | e] d2] eqn:Hw;
    cbn [dev next_session trace].
  2:{ left. exists u, d1, e, d2. repeat split; try assumption.
      norm_trace. reflexivity. }
  match goal with
  | |- context [get register ?w1] =>
      assert (Hs : write_sent T self register arg_list w w1)
  end.
  { exists u, d1, d2. repeat split; try assumption. norm_trace. reflexivity. }
  match goal with
  | |- context [get register ?w1] =>
      destruct (get register w1) as [[got | e] w'] eqn:Hg
  end.
  - destruct (Z.eqb_spec got value) as [-> | Hne].
    + split; [reflexivity |]. eexists. split; [exact Hs | exact Hg].
    + right. eexists. exists (Ret got). repeat split; try eassumption. congruence.
  - right. eexists. exists (Raise e). repeat split; try eassumption. congruence.
Qed.


(** The retry loop: a run of falling-through passes, then either a pass
    that returns, or the end of the range, or a pass that raises. *)
Lemma for_range_chain {A : Type} (body : M D (option A))
    (Acc : A -> world D -> world D -> Prop)
    (Rej : world D -> world D -> Prop)
    (Err : exn -> world D -> world D -> Prop) :
  (forall w,
      match body w with
      | (Ret (Some v), w') => Acc v w w'
      | (Ret None, w') => Rej w w'
      | (Raise e, w') => Err e w w'
      end) ->
  forall n w,
    match for_range n body w with
    | (Ret (Some v), w') =>
        exists k w1, (k < n)%nat /\ chain Rej k w w1 /\ Acc v w1 w'
    | (Ret None, w') => chain Rej n w w'
    | (Raise e, w') =>
        exists k w1, (k < n)%nat /\ chain Rej k w w1 /\ Err e w1 w'
    end.
Proof.
  intros Hbody. induction n as [| n IH]; intros w.
  - cbn. constructor.
  - cbn [for_range]. unfold bind.
    specialize (Hbody w).
    destruct (body w) as [[[v |] | e] w1].
    + cbn. exists O, w. repeat split; [lia | constructor | exact Hbody].
    + specialize (IH w1).
      destruct (for_range n body w1) as [[[v |] | e] w2].
      * destruct IH as (k & w3 & Hk & Hc & Ha).
        exists (S k), w3. repeat split; [lia | | exact Ha].
        econstructor; eassumption.
      * econstructor; eassumption.
      * destruct IH as (k & w3 & Hk & Hc & He).
        exists (S k), w3. repeat split; [lia | | exact He].
        econstructor; eassumption.
    + exists O, w. repeat split; [lia | constructor | exact Hbody].
Qed.

(** What a run of passes adds to the trace, pass by pass. *)
Lemma chain_gained (R : world D -> world D -> Prop) (P : list event -> Prop) :
  (forall w w', R w w' -> exists evs, gained w w' evs /\ P evs) ->
  forall k w w', chain R k w w' ->
    exists evss, gained w w' (concat evss) /\ Forall P evss /\ length evss = k.
Proof.
  intros HR k w w' Hc. induction Hc as [w | k w w1 w2 Hr Hc IH].
  - exists []. repeat split; [apply gained_refl | constructor].
  - destruct (HR _ _ Hr) as (evs & Hg & Hp).
    destruct IH as (evss & Hg' & Hf & Hl).
    exists (evs :: evss). cbn [concat length]. repeat split.
    + eapply gained_trans; eassumption.
    + constructor; assumption.
    + rewrite Hl. reflexivity.
Qed.

Lemma writes_of_concat (evss : list (list event)) :
  Forall (fun evs => writes_of evs = []) evss -> writes_of (concat evss) = [].
Proof.
  induction 1 as [| evs evss H _ IH]; [reflexivity |].
  cbn [concat]. rewrite writes_of_app, H, IH. reflexivity.
Qed.

Lemma reads_of_concat_length (evss : list (list event)) :
  Forall (fun evs => length (reads_of evs) = 1%nat) evss ->
  length (reads_of (concat evss)) = length evss.
Proof.
  induction 1 as [| evs evss H _ IH]; [reflexivity |].
  cbn [concat length]. rewrite reads_of_app, length_app, H, IH. reflexivity.
Qed.

(** A falling-through read pass performs one block read and no write. *)
Lemma read_rejected_gained {A B : Type} (register count : Z)
    (pre : list Z -> result B) (post : list Z -> B -> result (option A))
    (w w' : world D) :
  read_rejected T self register count pre post w w' ->
  exists evs, gained w w' evs /\
    (writes_of evs = [] /\ length (reads_of evs) = 1%nat).
Proof.
  intros (u & d1 & r & d2 & tail & _ & _ & -> & Ht).
  eexists. split; [reflexivity |].
  assert (Htail : tail = [] \/ tail = [EvClose (next_session w)]).
  { destruct r as [read | e]; [| left; exact Ht].
    destruct (pre read); [right; apply Ht | left; exact Ht]. }
  destruct Htail as [-> | ->]; split; reflexivity.
Qed.

Lemma read_accepted_gained {A B : Type} (register count : Z)
    (pre : list Z -> result B) (post : list Z -> B -> result (option A))
    (v : A) (w w' : world D) :
  read_accepted T self register count pre post v w w' ->
  exists read b,
    gained w w' [EvOpen (next_session w); EvSleep;
                 EvRead (next_session w) register count (Ret read);
                 EvClose (next_session w)] /\
    pre read = Ret b /\ post read b = Ret (Some v).
Proof.
  intros (u & d1 & read & d2 & b & _ & _ & Hp & Hq & ->).
  exists read, b. repeat split; assumption.
Qed.

Lemma open_failed_gained (e : exn) (w w' : world D) :
  open_failed T self e w w' -> gained w w' [EvOpenFailed].
Proof.
  intros (d & _ & ->). reflexivity.
Qed.

(** The four read passes are instances of [read_attempt]. *)
Lemma get_8bit_attempt_shape (register : Z) (w : world D) :
  get_8bit_attempt T self register w =
  read_attempt T self register 2 pre_8bit (post_8bit register) w.
Proof.
  unfold get_8bit_attempt, read_attempt, pre_8bit, post_8bit, and_then.
  unfold_monad.
  destruct (t_open T (bus_number self) (dev w)) as [[u | e] d1];
    cbn [dev next_session trace]; [| reflexivity].
  destruct (t_read T (address self) register 2 d1) as [[read | e] d2];
    cbn [dev next_session trace]; [| reflexivity].
  destruct (index read 0); [| reflexivity].
  destruct (index read 1); [| reflexivity].
  destruct (calcCRC register read 1); [| reflexivity].
  destruct (_ =? _); reflexivity.
Qed.

Lemma get_16bit_attempt_shape (register : Z) (w : world D) :
  get_16bit_attempt T self register w =
  read_attempt T self register 3 pre_16bit (post_16bit register) w.
Proof.
  unfold get_16bit_attempt, read_attempt, pre_16bit, post_16bit, and_then.
  unfold_monad.
  destruct (t_open T (bus_number self) (dev w)) as [[u | e] d1];
    cbn [dev next_session trace]; [| reflexivity].
  destruct (t_read T (address self) register 3 d1) as [[read | e] d2];
    cbn [dev next_session trace]; [| reflexivity].
  destruct (from_bytes (firstn 2 read) true); [| reflexivity].
  destruct (index read 2); [| reflexivity].
  destruct (calcCRC register read 2); [| reflexivity].
  destruct (_ =? _); reflexivity.
Qed.

Lemma get_version_attempt_shape (w : world D) :
  get_version_attempt T self w =
  read_attempt T self REG_VERSION 5 pre_none post_version w.
Proof.
  unfold get_version_attempt, read_attempt, pre_none, post_version, and_then.
  unfold_monad.
  destruct (t_open T (bus_number self) (dev w)) as [[u | e] d1];
    cbn [dev next_session trace]; [| reflexivity].
  destruct (t_read T (address self) REG_VERSION 5 d1) as [[read | e] d2];
    cbn [dev next_session trace]; [| reflexivity].
  destruct (index read 4); [| reflexivity].
  destruct (calcCRC REG_VERSION read 4); [| reflexivity].
  destruct (_ =? _); [| reflexivity].
  destruct (index read 2); [| reflexivity].
  destruct (index read 1); [| reflexivity].
  destruct (index read 0); reflexivity.
Qed.

Lemma get_uptime_attempt_shape (w : world D) :
  get_uptime_attempt T self w =
  read_attempt T self REG_UPTIME 5 pre_none post_uptime w.
Proof.
  unfold get_uptime_attempt, read_attempt, pre_none, post_uptime, and_then.
  unfold_monad.
  destruct (t_open T (bus_number self) (dev w)) as [[u | e] d1];
    cbn [dev next_session trace]; [| reflexivity].
  destruct (t_read T (address self) REG_UPTIME 5 d1) as [[read | e] d2];
    cbn [dev next_session trace]; [| reflexivity].
  destruct (index read 4); [| reflexivity].
  destruct (calcCRC REG_UPTIME read 4); [| reflexivity].
  destruct (_ =? _); [| reflexivity].
  destruct (from_bytes (firstn 3 read) false); reflexivity.
Qed.

Lemma set_8bit_attempt_shape (register value : Z) (arg_list : list Z)
    (w : world D) :
  set_8bit_attempt T self register value arg_list w =
  write_attempt T self (get_8bit_value T self) register value arg_list w.
Proof.
  reflexivity.
Qed.

Lemma set_16bit_attempt_shape (register value : Z) (arg_list : list Z)
    (w : world D) :
  set_16bit_attempt T self register value arg_list w =
  write_attempt T self (get_16bit_value T self) register value arg_list w.
Proof.
  reflexivity.
Qed.

(** A function made of a retry loop, a warning and a failure marker:
    what its result says about the passes. *)
Lemma retry_cases {A : Type} (body : M D (option A)) (marker : A)
    (Acc : A -> world D -> world D -> Prop)
    (Rej : world D -> world D -> Prop)
    (Err : exn -> world D -> world D -> Prop) :
  (forall w,
      match body w with
      | (Ret (Some v), w') => Acc v w w'
      | (Ret None, w') => Rej w w'
      | (Raise e, w') => Err e w w'
      end) ->
  forall w,
    let n := Z.to_nat (num_retries self) in
    match bind (for_range n body)
            (fun r => match r with
                      | Some v => ret v
                      | None => bind (warn_retries (num_retries self))
                                  (fun _ => ret marker)
                      end) w with
    | (Ret v, w') =>
        (exists k w1, (k < n)%nat /\ chain Rej k w w1 /\ Acc v w1 w' /\
           for_range n body w = (Ret (Some v), w')) \/
        (v = marker /\ 1 <= num_retries self /\ chain Rej n w w' /\
           for_range n body w = (Ret None, w'))
    | (Raise e, w') =>
        (e = UnboundLocalError /\ num_retries self <= 0 /\ w' = w) \/
        (exists k w1, (k < n)%nat /\ chain Rej k w w1 /\ Err e w1 w')
    end.
Proof.
  intros Hbody w n.
  pose proof (for_range_chain body Acc Rej Err Hbody n w) as H.
  unfold bind at 1.
  destruct (for_range n body w) as [[[v |] | e] w'] eqn:E.
  - cbn. left. destruct H as (k & w1 & Hk & Hc & Ha).
    exists k, w1. repeat split; assumption.
  - unfold warn_retries, bind, ret, raise.
    destruct (Z.leb_spec (num_retries self) 0) as [Hle | Hlt].
    + left. repeat split; [exact Hle |].
      subst n. replace (Z.to_nat (num_retries self)) with O in H by lia.
      inversion H. reflexivity.
    + right. repeat split; [lia | exact H].
  - right. exact H.
Qed.

(** A run of falling-through read passes: as many block reads, no write. *)
Lemma chain_read_rejected_gained {A B : Type} (register count : Z)
    (pre : list Z -> result B) (post : list Z -> B -> result (option A))
    (k : nat) (w w' : world D) :
  chain (read_rejected T self register count pre post) k w w' ->
  exists evs, gained w w' evs /\
    writes_of evs = [] /\ length (reads_of evs) = k.
Proof.
  intros Hc.
  destruct (chain_gained _ _ (read_rejected_gained register count pre post)
              k w w' Hc) as (evss & Hg & Hf & Hl).
  exists (concat evss). split; [exact Hg |]. split.
  - apply writes_of_concat. eapply Forall_impl; [| exact Hf].
    intros evs [H _]. exact H.
  - rewrite reads_of_concat_length; [exact Hl |].
    eapply Forall_impl; [| exact Hf]. intros evs [_ H]. exact H.
Qed.

(** A function made of a retry loop over a read pass: the shape of its
    result. *)
Lemma retry_read_cases {A B : Type} (register count : Z)
    (pre : list Z -> result B) (post : list Z -> B -> result (option A))
    (body : M D (option A)) (marker : A) :
  (forall w, body w = read_attempt T self register count pre post w) ->
  forall w,
    let n := Z.to_nat (num_retries self) in
    match bind (for_range n body)
            (fun r => match r with
                      | Some v => ret v
                      | None => bind (warn_retries (num_retries self))
                                  (fun _ => ret marker)
                      end) w with
    | (Ret v, w') =>
        (exists k w1, (k < n)%nat /\
           chain (read_rejected T self register count pre post) k w w1 /\
           read_accepted T self register count pre post v w1 w' /\
           for_range n body w = (Ret (Some v), w')) \/
        (v = marker /\ 1 <= num_retries self /\
           chain (read_rejected T self register count pre post) n w w' /\
           for_range n body w = (Ret None, w'))
    | (Raise e, w') =>
        (e = UnboundLocalError /\ num_retries self <= 0 /\ w' = w) \/
        (exists k w1, (k < n)%nat /\
           chain (read_rejected T self register count pre post) k w w1 /\
           open_failed T self e w1 w')
    end.
Proof.
  intros Hshape. apply retry_cases.
  intros w. rewrite Hshape. apply read_attempt_cases.
Qed.

(** Whatever a read function returns, it wrote nothing to the bus. *)
Lemma retry_read_no_writes {A B : Type} (register count : Z)
    (pre : list Z -> result B) (post : list Z -> B -> result (option A))
    (body : M D (option A)) (marker : A) :
  (forall w, body w = read_attempt T self register count pre post w) ->
  forall w r w',
    bind (for_range (Z.to_nat (num_retries self)) body)
      (fun r => match r with
                | Some v => ret v
                | None => bind (warn_retries (num_retries self))
                            (fun _ => ret marker)
                end) w = (r, w') ->
    exists evs, gained w w' evs /\ writes_of evs = [].
Proof.
  intros Hshape w r w' E.
  pose proof (retry_read_cases register count pre post body marker Hshape w) as H.
  cbv zeta in H. rewrite E in H.
  destruct r as [v | e].
  - destruct H as [(k & w1 & _ & Hc & Ha & _) | (_ & _ & Hc & _)].
    + destruct (chain_read_rejected_gained _ _ _ _ _ _ _ Hc) as (e1 & G1 & W1 & _).
      destruct (read_accepted_gained _ _ _ _ _ _ _ Ha) as (read & b & G2 & _).
      eexists. split; [eapply gained_trans; eassumption |].
      rewrite writes_of_app, W1. reflexivity.
    + destruct (chain_read_rejected_gained _ _ _ _ _ _ _ Hc) as (e1 & G1 & W1 & _).
      exists e1. split; assumption.
  - destruct H as [(_ & _ & ->) | (k & w1 & _ & Hc & He)].
    + exists []. split; [apply gained_refl | reflexivity].
    + destruct (chain_read_rejected_gained _ _ _ _ _ _ _ Hc) as (e1 & G1 & W1 & _).
      pose proof (open_failed_gained _ _ _ He) as G2.
      eexists. split; [eapply gained_trans; eassumption |].
      rewrite writes_of_app, W1. reflexivity.
Qed.

Lemma get_8bit_value_no_writes (register : Z) (w : world D) r w' :
  get_8bit_value T self register w = (r, w') ->
  exists evs, gained w w' evs /\ writes_of evs = [].
Proof.
  apply (retry_read_no_writes register 2 pre_8bit (post_8bit register)).
  apply get_8bit_attempt_shape.
Qed.

Lemma get_16bit_value_no_writes (register : Z) (w : world D) r w' :
  get_16bit_value T self register w = (r, w') ->
  exists evs, gained w w' evs /\ writes_of evs = [].
Proof.
  apply (retry_read_no_writes register 3 pre_16bit (post_16bit register)).
  apply get_16bit_attempt_shape.
Qed.

(** ** Write passes *)

Lemma write_sent_gained (register : Z) (arg_list : list Z) (w w1 : world D) :
  write_sent T self register arg_list w w1 ->
  gained w w1 [EvOpen (next_session w); EvSleep;
               EvWrite (next_session w) register arg_list (Ret tt);
               EvClose (next_session w)].
Proof.
  intros (u & d1 & d2 & _ & _ & ->). reflexivity.
Qed.

Section WriteLoop.

Variable get : Z -> M D Z.
Hypothesis get_no_writes : forall register w r w',
  get register w = (r, w') ->
  exists evs, gained w w' evs /\ writes_of evs = [].

Variables register value : Z.
Variable arg_list : list Z.

(** Every frame a write pass puts on the bus is [arg_list], sent to
    [register]. *)
Lemma write_rejected_gained (w w' : world D) :
  write_rejected T self get register value arg_list w w' ->
  exists evs, gained w w' evs /\
    Forall (eq (register, arg_list)) (writes_of evs).
Proof.
  intros [(u & d1 & e & d2 & _ & _ & ->) | (w1 & r & Hs & Hg & _)].
  - eexists. split; [reflexivity |]. cbn. repeat constructor.
  - pose proof (write_sent_gained _ _ _ _ Hs) as G1.
    destruct (get_no_writes _ _ _ _ Hg) as (e2 & G2 & W2).
    eexists. split; [eapply gained_trans; eassumption |].
    rewrite writes_of_app, W2. cbn. repeat constructor.
Qed.

Lemma write_accepted_gained (w w' : world D) :
  write_accepted T self get register value arg_list w w' ->
  exists evs, gained w w' evs /\
    Forall (eq (register, arg_list)) (writes_of evs).
Proof.
  intros (w1 & Hs & Hg).
  pose proof (write_sent_gained _ _ _ _ Hs) as G1.
  destruct (get_no_writes _ _ _ _ Hg) as (e2 & G2 & W2).
  eexists. split; [eapply gained_trans; eassumption |].
  rewrite writes_of_app, W2. cbn. repeat constructor.
Qed.

Lemma chain_write_rejected_gained (k : nat) (w w' : world D) :
  chain (write_rejected T self get register value arg_list) k w w' ->
  exists evs, gained w w' evs /\
    Forall (eq (register, arg_list)) (writes_of evs).
Proof.
  intros Hc. induction Hc as [w | k w w1 w2 Hr Hc IH].
  - exists []. split; [apply gained_refl | constructor].
  - destruct (write_rejected_gained _ _ Hr) as (e1 & G1 & F1).
    destruct IH as (e2 & G2 & F2).
    exists (e1 ++ e2). split; [eapply gained_trans; eassumption |].
    rewrite writes_of_app. apply Forall_app. split; assumption.
Qed.

Lemma write_loop_cases (w : world D) :
  let n := Z.to_nat (num_retries self) in
  match write_loop T self get register value arg_list w with
  | (Ret b, w') =>
      (exists k w1, (k < n)%nat /\
         chain (write_rejected T self get register value arg_list) k w w1 /\
         (b = true /\
          write_accepted T self get register value arg_list w1 w')) \/
      (b = false /\ 1 <= num_retries self /\
         chain (write_rejected T self get register value arg_list) n w w')
  | (Raise e, w') =>
      (e = UnboundLocalError /\ num_retries self <= 0 /\ w' = w) \/
      (exists k w1, (k < n)%nat /\
         chain (write_rejected T self get register value arg_list) k w w1 /\
         open_failed T self e w1 w')
  end.
Proof.
  pose proof (retry_cases
    (write_attempt T self get register value arg_list) false
    (fun b w w' => b = true /\
       write_accepted T self get register value arg_list w w')
    (write_rejected T self get register value arg_list)
    (open_failed T self)
    (write_attempt_cases get register value arg_list) w) as H.
  cbv zeta in *. unfold write_loop.
  destruct (bind _ _ w) as [[b | e] w'].
  - destruct H as [(k & w1 & Hk & Hc & Ha & _) | (Hb & Hn & Hc & _)].
    + left. exists k, w1. repeat split; try assumption; apply Ha.
    + right. repeat split; assumption.
  - exact H.
Qed.

(** Every frame the write function puts on the bus is [arg_list]. *)
Lemma write_loop_frames (w : world D) r w' :
  write_loop T self get register value arg_list w = (r, w') ->
  exists evs, gained w w' evs /\
    Forall (eq (register, arg_list)) (writes_of evs).
Proof.
  intros E. pose proof (write_loop_cases w) as H.
  cbv zeta in H. rewrite E in H.
  destruct r as [b | e].
  - destruct H as [(k & w1 & _ & Hc & _ & Ha) | (_ & _ & Hc)].
    + destruct (chain_write_rejected_gained _ _ _ Hc) as (e1 & G1 & F1).
      destruct (write_accepted_gained _ _ Ha) as (e2 & G2 & F2).
      exists (e1 ++ e2). split; [eapply gained_trans; eassumption |].
      rewrite writes_of_app. apply Forall_app. split; assumption.
    + apply (chain_write_rejected_gained _ _ _ Hc).
  - destruct H as [(_ & _ & ->) | (k & w1 & _ & Hc & He)].
    + exists []. split; [apply gained_refl | constructor].
    + destruct (chain_write_rejected_gained _ _ _ Hc) as (e1 & G1 & F1).
      pose proof (open_failed_gained _ _ _ He) as G2.
      exists (e1 ++ [EvOpenFailed]).
      split; [eapply gained_trans; eassumption |].
      rewrite writes_of_app. apply Forall_app. split; [assumption | constructor].
Qed.

(** The write function returns [True] only from a pass that sent the frame,
    closed its session and then read [value] back. *)
Lemma write_loop_true (w w' : world D) :
  write_loop T self get register value arg_list w = (Ret true, w') ->
  exists before w0 w1,
    gained w w0 before /\
    Forall (eq (register, arg_list)) (writes_of before) /\
    write_sent T self register arg_list w0 w1 /\
    get register w1 = (Ret value, w').
Proof.
  intros E. pose proof (write_loop_cases w) as H.
  cbv zeta in H. rewrite E in H.
  destruct H as [(k & w0 & _ & Hc & _ & (w1 & Hs & Hg)) | (Hb & _)];
    [| discriminate].
  destruct (chain_write_rejected_gained _ _ _ Hc) as (e1 & G1 & F1).
  exists e1, w0, w1. repeat split; assumption.
Qed.

End WriteLoop.

(** ** The read and write functions as loops over their passes *)

Lemma set_8bit_value_shape (register value : Z) (w : world D) :
  set_8bit_value T self register value w =
  write_loop T self (get_8bit_value T self) register value
    (frame_8bit register value) w.
Proof.
  reflexivity.
Qed.

Lemma set_16bit_value_shape (register value : Z) (w : world D) :
  set_16bit_value T self register value w =
  match frame_16bit register value with
  | Ret arg_list =>
      write_loop T self (get_16bit_value T self) register value arg_list w
  | Raise e => (Raise e, w)
  end.
Proof.
  unfold set_16bit_value, bind at 1, lift.
  destruct (frame_16bit register value); reflexivity.
Qed.

Lemma skipn_nth_error {A : Type} (l : list A) : forall i b,
  nth_error l i = Some b -> skipn i l = b :: skipn (S i) l.
Proof.
  induction l as [| a l IH]; intros [| i] b H; try discriminate.
  - cbn in H. injection H as ->. reflexivity.
  - cbn in H. apply IH in H. exact H.
Qed.

(** [calcCRC] with length [k] reads the first [k] elements, and these
    only. *)
Lemma calcCRC_loop_prefix (read : list Z) : forall k i crc c,
  calcCRC_loop read i k crc = Ret c ->
  length (firstn k (skipn i read)) = k /\
  c = fold_left addCrc (firstn k (skipn i read)) crc.
Proof.
  induction k as [| k IH]; intros i crc c H.
  - cbn in H. apply Ret_inj in H. subst c. split; reflexivity.
  - cbn [calcCRC_loop] in H.
    destruct (nth_error read i) as [b |] eqn:E; [| discriminate].
    rewrite (skipn_nth_error _ _ _ E). cbn [firstn length fold_left].
    destruct (IH _ _ _ H) as [Hl Hc]. split; [f_equal; exact Hl | exact Hc].
Qed.

Lemma calcCRC_prefix (register : Z) (read : list Z) (k : nat) (c : Z) :
  calcCRC register read (Z.of_nat k) = Ret c ->
  length (firstn k read) = k /\
  c = spec_checksum_over register (firstn k read).
Proof.
  unfold calcCRC. rewrite Nat2Z.id. intros H.
  destruct (calcCRC_loop_prefix _ _ _ _ _ H) as [Hl Hc].
  cbn [skipn] in Hl, Hc. split; [exact Hl |].
  rewrite Hc. unfold spec_checksum_over.
  rewrite fold_addCrc_spec by apply addCrc_masked.
  rewrite addCrc_spec. reflexivity.
Qed.

(** What it takes for the 8-bit pass to accept a frame. *)
Lemma post_8bit_accepts (register : Z) (read : list Z) (b v : Z) :
  pre_8bit read = Ret b ->
  post_8bit register read b = Ret (Some v) ->
  nth_error read 0 = Some v /\
  exists c, nth_error read 1 = Some c /\ calcCRC register read 1 = Ret c.
Proof.
  unfold pre_8bit, post_8bit, and_then, index.
  destruct (nth_error read 0) as [b0 |]; [| discriminate].
  intros Hb. apply Ret_inj in Hb. subst b0.
  destruct (nth_error read 1) as [c |]; [| discriminate].
  destruct (calcCRC register read 1) as [crc | e]; [| discriminate].
  destruct (Z.eqb_spec c crc) as [-> | Hne]; [| discriminate].
  intros H. apply Ret_inj in H. injection H as ->.
  split; [reflexivity |]. exists crc. split; reflexivity.
Qed.

(** What it takes for the 16-bit pass to accept a frame. *)
Lemma post_16bit_accepts (register : Z) (read : list Z) (b v : Z) :
  pre_16bit read = Ret b ->
  post_16bit register read b = Ret (Some v) ->
  from_bytes (firstn 2 read) true = Ret v /\
  exists c, nth_error read 2 = Some c /\ calcCRC register read 2 = Ret c.
Proof.
  unfold pre_16bit, post_16bit, and_then, index.
  intros Hb.
  destruct (nth_error read 2) as [c |]; [| discriminate].
  destruct (calcCRC register read 2) as [crc | e]; [| discriminate].
  destruct (Z.eqb_spec c crc) as [-> | Hne]; [| discriminate].
  intros H. apply Ret_inj in H. injection H as ->.
  split; [exact Hb |]. exists crc. split; reflexivity.
Qed.

(** What it takes for the uptime pass to accept a frame. *)
Lemma post_uptime_accepts (read : list Z) (b : unit) (v : Z) :
  post_uptime read b = Ret (Some v) ->
  from_bytes (firstn 3 read) false = Ret v /\
  exists c, nth_error read 4 = Some c /\ calcCRC REG_UPTIME read 4 = Ret c.
Proof.
  unfold post_uptime, and_then, index.
  destruct (nth_error read 4) as [c |]; [| discriminate].
  destruct (calcCRC REG_UPTIME read 4) as [crc | e]; [| discriminate].
  destruct (Z.eqb_spec c crc) as [-> | Hne]; [| discriminate].
  destruct (from_bytes (firstn 3 read) false) as [u | e]; [| discriminate].
  intros H. apply Ret_inj in H. injection H as ->.
  split; [reflexivity |]. exists crc. split; reflexivity.
Qed.

Lemma is_byte_range (b : Z) : is_byte b = true -> 0 <= b <= 255.
Proof.
  unfold is_byte. intros H. apply andb_prop in H. destruct H as [H1 H2].
  apply Z.leb_le in H1. apply Z.ltb_lt in H2. lia.
Qed.

(** What it takes for the version pass to accept a frame. *)
Lemma post_version_accepts (read : list Z) (b : unit) (v : Z * Z * Z) :
  post_version read b = Ret (Some v) ->
  (exists major minor patch,
     v = (major, minor, patch) /\
     nth_error read 2 = Some major /\
     nth_error read 1 = Some minor /\
     nth_error read 0 = Some patch) /\
  exists c, nth_error read 4 = Some c /\ calcCRC REG_VERSION read 4 = Ret c.
Proof.
  unfold post_version, and_then, index.
  destruct (nth_error read 4) as [c |]; [| discriminate].
  destruct (calcCRC REG_VERSION read 4) as [crc | e]; [| discriminate].
  destruct (Z.eqb_spec c crc) as [-> | Hne]; [| discriminate].
  destruct (nth_error read 2) as [major |]; [| discriminate].
  destruct (nth_error read 1) as [minor |]; [| discriminate].
  destruct (nth_error read 0) as [patch |]; [| discriminate].
  intros H. apply Ret_inj in H. injection H as <-.
  split.
  - exists major, minor, patch. repeat split; reflexivity.
  - exists crc. split; reflexivity.
Qed.

(** The frame of [set_8bit_value] ends in the checksum [calcCRC] gives for
    the one-byte payload. *)
Lemma frame_8bit_calcCRC (register value : Z) :
  calcCRC register [value] 1 = Ret (addCrc (addCrc 0 register) value) /\
  frame_8bit register value = [value; addCrc (addCrc 0 register) value].
Proof.
  split; reflexivity.
Qed.

(** The frame of [set_16bit_value], when the value can be encoded. *)
Lemma frame_16bit_inv (register value : Z) (arg_list : list Z) :
  frame_16bit register value = Ret arg_list ->
  -32768 <= value <= 32767 /\
  exists lo hi crc,
    to_bytes value 2 true = Ret [lo; hi] /\
    calcCRC register [lo; hi] 2 = Ret crc /\
    arg_list = [lo; hi; crc].
Proof.
  unfold frame_16bit. intros H.
  assert (Hr : -32768 <= value <= 32767).
  { destruct (Z_le_dec (-32768) value) as [H1 |];
      [destruct (Z_le_dec value 32767) as [H2 |] |]; [lia | |];
      rewrite to_bytes_16_overflow in H by lia; discriminate. }
  split; [exact Hr |].
  rewrite (to_bytes_16_signed _ Hr) in *.
  set (lo := value mod 65536 mod 256) in *.
  set (hi := value mod 65536 / 256 mod 256) in *.
  change (calcCRC register [lo; hi] 2)
    with (Ret (A:=Z) (addCrc (addCrc (addCrc 0 register) lo) hi)) in *.
  cbn in H. apply Ret_inj in H. subst arg_list.
  exists lo, hi, (addCrc (addCrc (addCrc 0 register) lo) hi).
  repeat split; reflexivity.
Qed.

End EngineFacts.

(** * The claims *)

Section Frames.

Context {D : Type}.
Variable T : transport D.
Variable self : ATTiny.

Import Crc Codec.

(** C2. Every frame a register write puts on the bus is the encoded payload
    followed by the checksum over the register address and that payload:
    [set_8bit_value] only ever sends [[value, calcCRC(register, [value], 1)]]
    and [set_16bit_value] only ever sends
    [[lo, hi, calcCRC(register, [lo, hi], 2)]] for the two little-endian bytes
    of the value.  A read pass (8-bit, 16-bit, version, uptime) returns a
    decoded value, instead of going on to the next pass, only if the trailing
    byte of the frame it read equals the checksum over the register address
    and the received payload. *)
Theorem bus_frames_carry_checksum (register value : Z) (w w' : world D) :
  (forall r, set_8bit_value T self register value w = (r, w') ->
     exists evs crc,
       gained w w' evs /\
       calcCRC register [value] 1 = Ret crc /\
       Forall (eq (register, [value; crc])) (writes_of evs)) /\
  (forall r, set_16bit_value T self register value w = (r, w') ->
     exists evs,
       gained w w' evs /\
       Forall (fun frame => exists lo hi crc,
                 to_bytes value 2 true = Ret [lo; hi] /\
                 calcCRC register [lo; hi] 2 = Ret crc /\
                 frame = (register, [lo; hi; crc])) (writes_of evs)) /\
  (forall v, get_8bit_attempt T self register w = (Ret (Some v), w') ->
     exists read c,
       gained w w' [EvOpen (next_session w); EvSleep;
                    EvRead (next_session w) register 2 (Ret read);
                    EvClose (next_session w)] /\
       nth_error read 0 = Some v /\
       nth_error read 1 = Some c /\
       calcCRC register read 1 = Ret c /\
       c = spec_checksum_over register (firstn 1 read)) /\
  (forall v, get_16bit_attempt T self register w = (Ret (Some v), w') ->
     exists read c,
       gained w w' [EvOpen (next_session w); EvSleep;
                    EvRead (next_session w) register 3 (Ret read);
                    EvClose (next_session w)] /\
       from_bytes (firstn 2 read) true = Ret v /\
       nth_error read 2 = Some c /\
       calcCRC register read 2 = Ret c /\
       c = spec_checksum_over register (firstn 2 read)) /\
  (forall v, get_version_attempt T self w = (Ret (Some v), w') ->
     exists read c,
       gained w w' [EvOpen (next_session w); EvSleep;
                    EvRead (next_session w) REG_VERSION 5 (Ret read);
                    EvClose (next_session w)] /\
       nth_error read 4 = Some c /\
       calcCRC REG_VERSION read 4 = Ret c /\
       c = spec_checksum_over REG_VERSION (firstn 4 read)) /\
  (forall v, get_uptime_attempt T self w = (Ret (Some v), w') ->
     exists read c,
       gained w w' [EvOpen (next_session w); EvSleep;
                    EvRead (next_session w) REG_UPTIME 5 (Ret read);
                    EvClose (next_session w)] /\
       nth_error read 4 = Some c /\
       calcCRC REG_UPTIME read 4 = Ret c /\
       c = spec_checksum_over REG_UPTIME (firstn 4 read)).
Proof.
  repeat apply conj.
  - intros r E. rewrite set_8bit_value_shape in E.
    destruct (write_loop_frames T self _ (get_8bit_value_no_writes T self)
                _ _ _ _ _ _ E) as (evs & G & F).
    exists evs, (addCrc (addCrc 0 register) value).
    repeat split; assumption.
  - intros r E. rewrite set_16bit_value_shape in E.
    destruct (frame_16bit register value) as [arg_list | e] eqn:Ef.
    + destruct (write_loop_frames T self _ (get_16bit_value_no_writes T self)
                  _ _ _ _ _ _ E) as (evs & G & F).
      exists evs. split; [exact G |].
      destruct (frame_16bit_inv _ _ _ Ef) as (_ & lo & hi & crc & Hb & Hc & ->).
      eapply Forall_impl; [| exact F].
      intros frame <-. exists lo, hi, crc. repeat split; assumption.
    + injection E as _ <-. exists []. split; [apply gained_refl | constructor].
  - intros v E. rewrite get_8bit_attempt_shape in E.
    pose proof (read_attempt_cases T self register 2 pre_8bit
                  (post_8bit register) w) as H.
    rewrite E in H.
    destruct (read_accepted_gained T self _ _ _ _ _ _ _ H)
      as (read & b & G & Hp & Hq).
    destruct (post_8bit_accepts _ _ _ _ Hp Hq) as (H0 & c & H1 & Hc).
    exists read, c. repeat split; try assumption.
    apply (calcCRC_prefix register read 1 c Hc).
  - intros v E. rewrite get_16bit_attempt_shape in E.
    pose proof (read_attempt_cases T self register 3 pre_16bit
                  (post_16bit register) w) as H.
    rewrite E in H.
    destruct (read_accepted_gained T self _ _ _ _ _ _ _ H)
      as (read & b & G & Hp & Hq).
    destruct (post_16bit_accepts _ _ _ _ Hp Hq) as (H0 & c & H1 & Hc).
    exists read, c. repeat split; try assumption.
    apply (calcCRC_prefix register read 2 c Hc).
  - intros v E. rewrite get_version_attempt_shape in E.
    pose proof (read_attempt_cases T self REG_VERSION 5 pre_none
                  post_version w) as H.
    rewrite E in H.
    destruct (read_accepted_gained T self _ _ _ _ _ _ _ H)
      as (read & b & G & _ & Hq).
    destruct (post_version_accepts _ _ _ Hq) as (_ & c & H4 & Hc).
    exists read, c. repeat split; try assumption.
    apply (calcCRC_prefix REG_VERSION read 4 c Hc).
  - intros v E. rewrite get_uptime_attempt_shape in E.
    pose proof (read_attempt_cases T self REG_UPTIME 5 pre_none
                  post_uptime w) as H.
    rewrite E in H.
    destruct (read_accepted_gained T self _ _ _ _ _ _ _ H)
      as (read & b & G & _ & Hq).
    destruct (post_uptime_accepts _ _ _ Hq) as (_ & c & H4 & Hc).
    exists read, c. repeat split; try assumption.
    apply (calcCRC_prefix REG_UPTIME read 4 c Hc).
Qed.

End Frames.

(** The frames of two writes to an empty register file, and of the four
    read passes on a register file that holds a frame for the timeout, the
    restart voltage, the version and the uptime register. *)
Lemma bus_frames_carry_checksum_witness :
  let w0 := init_world ([] : regfile) in
  let w1 := init_world [(REG_TIMEOUT, [30; 116]); (0x31, [46; 251; 66]);
                        (REG_VERSION, [3; 2; 1; 0; 87]);
                        (REG_UPTIME, [1; 2; 3; 0; 69])] in
  (exists evs crc,
      gained w0
        (snd (set_8bit_value regfile_transport (handle 3) REG_TIMEOUT 30 w0))
        evs /\
      Crc.calcCRC REG_TIMEOUT [30] 1 = Ret crc /\
      Forall (eq (REG_TIMEOUT, [30; crc])) (writes_of evs)) /\
  (exists evs,
      gained w0
        (snd (set_16bit_value regfile_transport (handle 3) 0x31 (-1234) w0))
        evs /\
      Forall (fun frame => exists lo hi crc,
                Codec.to_bytes (-1234) 2 true = Ret [lo; hi] /\
                Crc.calcCRC 0x31 [lo; hi] 2 = Ret crc /\
                frame = (0x31, [lo; hi; crc])) (writes_of evs)) /\
  (exists read c,
      gained w1
        (snd (get_8bit_attempt regfile_transport (handle 3) REG_TIMEOUT w1))
        [EvOpen 0; EvSleep; EvRead 0 REG_TIMEOUT 2 (Ret read); EvClose 0] /\
      nth_error read 0 = Some 30 /\
      nth_error read 1 = Some c /\
      Crc.calcCRC REG_TIMEOUT read 1 = Ret c /\
      c = Crc.spec_checksum_over REG_TIMEOUT (firstn 1 read)) /\
  (exists read c,
      gained w1
        (snd (get_16bit_attempt regfile_transport (handle 3) 0x31 w1))
        [EvOpen 0; EvSleep; EvRead 0 0x31 3 (Ret read); EvClose 0] /\
      Codec.from_bytes (firstn 2 read) true = Ret (-1234) /\
      nth_error read 2 = Some c /\
      Crc.calcCRC 0x31 read 2 = Ret c /\
      c = Crc.spec_checksum_over 0x31 (firstn 2 read)) /\
  (exists read c,
      gained w1
        (snd (get_version_attempt regfile_transport (handle 3) w1))
        [EvOpen 0; EvSleep; EvRead 0 REG_VERSION 5 (Ret read); EvClose 0] /\
      nth_error read 4 = Some c /\
      Crc.calcCRC REG_VERSION read 4 = Ret c /\
      c = Crc.spec_checksum_over REG_VERSION (firstn 4 read)) /\
  (exists read c,
      gained w1
        (snd (get_uptime_attempt regfile_transport (handle 3) w1))
        [EvOpen 0; EvSleep; EvRead 0 REG_UPTIME 5 (Ret read); EvClose 0] /\
      nth_error read 4 = Some c /\
      Crc.calcCRC REG_UPTIME read 4 = Ret c /\
      c = Crc.spec_checksum_over REG_UPTIME (firstn 4 read)).
Proof.
  intros w0 w1.
  pose proof (fun r v w w' =>
    bus_frames_carry_checksum regfile_transport (handle 3) r v w w') as H.
  repeat apply conj.
  - apply (proj1 (H REG_TIMEOUT 30 w0 _) (Ret true)).
    reflexivity.
  - apply (proj1 (proj2 (H 0x31 (-1234) w0 _)) (Ret true)).
    reflexivity.
  - apply (proj1 (proj2 (proj2 (H REG_TIMEOUT 0 w1 _))) 30).
    reflexivity.
  - apply (proj1 (proj2 (proj2 (proj2 (H 0x31 0 w1 _)))) (-1234)).
    reflexivity.
  - apply (proj1 (proj2 (proj2 (proj2 (proj2 (H 0 0 w1 _))))) (1, 2, 3)).
    reflexivity.
  - apply (proj2 (proj2 (proj2 (proj2 (proj2 (H 0 0 w1 _))))) 197121).
    reflexivity.
Defined.

Section RangeCheck.

Context {D : Type}.
Variable T : transport D.
Variable self : ATTiny.

Import Crc Codec.

(** A write pass that got its session starts by sending the frame. *)
Lemma write_pass_starts (get : Z -> M D Z)
    (get_gains : forall register w r w',
        get register w = (r, w') ->
        exists evs, gained w w' evs /\ writes_of evs = [])
    (register value : Z) (arg_list : list Z) (w w' : world D) :
  write_rejected T self get register value arg_list w w' \/
  write_accepted T self get register value arg_list w w' ->
  exists r rest,
    gained w w' (EvOpen (next_session w) :: EvSleep ::
                 EvWrite (next_session w) register arg_list r :: rest).
Proof.
  intros [[(u & d1 & e & d2 & _ & _ & ->) | (w1 & r & Hs & Hg & _)]
         | (w1 & Hs & Hg)].
  - exists (Raise e), []. reflexivity.
  - destruct (get_gains _ _ _ _ Hg) as (e2 & G2 & _).
    exists (Ret tt), (EvClose (next_session w) :: e2).
    apply (gained_trans _ _ _ _ _ (write_sent_gained T self _ _ _ _ Hs) G2).
  - destruct (get_gains _ _ _ _ Hg) as (e2 & G2 & _).
    exists (Ret tt), (EvClose (next_session w) :: e2).
    apply (gained_trans _ _ _ _ _ (write_sent_gained T self _ _ _ _ Hs) G2).
Qed.

(** With at least one retry and a session that opens, the write loop puts
    its frame on the bus, whatever the value is. *)
Lemma write_loop_starts (get : Z -> M D Z)
    (get_gains : forall register w r w',
        get register w = (r, w') ->
        exists evs, gained w w' evs /\ writes_of evs = [])
    (register value : Z) (arg_list : list Z) (w : world D) u d1 :
  1 <= num_retries self ->
  t_open T (bus_number self) (dev w) = (Ret u, d1) ->
  exists r rest,
    gained w (snd (write_loop T self get register value arg_list w))
      (EvOpen (next_session w) :: EvSleep ::
       EvWrite (next_session w) register arg_list r :: rest).
Proof.
  intros Hn Ho.
  pose proof (write_loop_cases T self get register value arg_list w) as H.
  cbv zeta in H.
  destruct (write_loop T self get register value arg_list w) as [res w'].
  cbn [snd].
  assert (Hfirst : forall k w1,
    chain (write_rejected T self get register value arg_list) (S k) w w1 ->
    exists r rest wa,
      gained w wa (EvOpen (next_session w) :: EvSleep ::
                   EvWrite (next_session w) register arg_list r :: rest) /\
      chain (write_rejected T self get register value arg_list) k wa w1).
  { intros k w1 Hc. inversion Hc as [| k' wa wb wc Hr Hc']. subst.
    destruct (write_pass_starts get get_gains _ _ _ _ _ (or_introl Hr))
      as (r & rest & G).
    exists r, rest, wb. split; assumption. }
  assert (Hext : forall r rest wa evs,
    gained w wa (EvOpen (next_session w) :: EvSleep ::
                 EvWrite (next_session w) register arg_list r :: rest) ->
    gained wa w' evs ->
    exists r rest,
      gained w w' (EvOpen (next_session w) :: EvSleep ::
                   EvWrite (next_session w) register arg_list r :: rest)).
  { intros r rest wa evs G1 G2. exists r, (rest ++ evs).
    apply (gained_trans _ _ _ _ _ G1 G2). }
  destruct res as [b | e].
  - destruct H as [(k & w1 & _ & Hc & _ & Ha) | (_ & _ & Hc)].
    + destruct (write_accepted_gained T self get get_gains _ _ _ _ _ Ha)
        as (e2 & G2 & _).
      destruct k as [| k].
      * inversion Hc. subst.
        apply (write_pass_starts get get_gains _ _ _ _ _ (or_intror Ha)).
      * destruct (Hfirst _ _ Hc) as (r & rest & wa & G1 & Hc').
        destruct (chain_write_rejected_gained T self get get_gains
                    _ _ _ _ _ _ Hc') as (e1 & G1' & _).
        eapply Hext; [exact G1 |].
        apply (gained_trans _ _ _ _ _ G1' G2).
    + destruct (Z.to_nat (num_retries self)) as [| k] eqn:En; [lia |].
      destruct (Hfirst _ _ Hc) as (r & rest & wa & G1 & Hc').
      destruct (chain_write_rejected_gained T self get get_gains
                  _ _ _ _ _ _ Hc') as (e1 & G1' & _).
      eapply Hext; eassumption.
  - destruct H as [(_ & Hle & _) | (k & w1 & _ & Hc & He)]; [lia |].
    pose proof (open_failed_gained T self _ _ _ He) as G2.
    destruct k as [| k].
    + inversion Hc. subst. destruct He as (d & Hd & _). congruence.
    + destruct (Hfirst _ _ Hc) as (r & rest & wa & G1 & Hc').
      destruct (chain_write_rejected_gained T self get get_gains
                  _ _ _ _ _ _ Hc') as (e1 & G1' & _).
      eapply Hext; [exact G1 |].
      apply (gained_trans _ _ _ _ _ G1' G2).
Qed.

(** The range check of the writes.  A value outside [-32768, 32767] makes
    [set_16bit_value] fail at once with [OverflowError]: the world is
    untouched, so no session was opened, no write was tried and nothing was
    retried.  [set_8bit_value] has no such check: with at least one retry and
    a session that opens, it sends [[value, checksum]] for any integer
    [value]. *)
Lemma write_range_check_16bit_only (register value : Z) (w : world D) :
  (~ (-32768 <= value <= 32767) ->
   set_16bit_value T self register value w = (Raise OverflowError, w)) /\
  (forall u d1,
     1 <= num_retries self ->
     t_open T (bus_number self) (dev w) = (Ret u, d1) ->
     exists r rest,
       gained w (snd (set_8bit_value T self register value w))
         (EvOpen (next_session w) :: EvSleep ::
          EvWrite (next_session w) register
            [value; addCrc (addCrc 0 register) value] r :: rest)).
Proof.
  split.
  - intros H. rewrite set_16bit_value_shape. unfold frame_16bit.
    rewrite (to_bytes_16_overflow _ H). reflexivity.
  - intros u d1 Hn Ho. rewrite set_8bit_value_shape.
    apply (write_loop_starts _ (get_8bit_value_no_writes T self)
             register value (frame_8bit register value) w u d1 Hn Ho).
Qed.

End RangeCheck.

(** C3 does not hold on the code: [set_8bit_value] lacks the range check
    that [set_16bit_value] gets from its encoding.  The value 300 is outside
    [0, 255], yet [set_8bit_value(0x21, 300)] raises nothing: it opens
    sessions, sends the frame [[300, 211]] in each of its two passes, reads
    back 44 (the low byte the bus kept) and returns [False] once the retries
    are used up. *)
Theorem set_8bit_value_out_of_range_reaches_bus :
  let run := set_8bit_value regfile_transport (handle 2) REG_TIMEOUT 300
               (init_world []) in
  ~ (0 <= 300 <= 255) /\
  fst run = Ret false /\
  trace (snd run) =
    [EvOpen 0; EvSleep; EvWrite 0 REG_TIMEOUT [300; 211] (Ret tt); EvClose 0;
     EvOpen 1; EvSleep; EvRead 1 REG_TIMEOUT 2 (Ret [44; 211]); EvClose 1;
     EvOpen 2; EvSleep; EvWrite 2 REG_TIMEOUT [300; 211] (Ret tt); EvClose 2;
     EvOpen 3; EvSleep; EvRead 3 REG_TIMEOUT 2 (Ret [44; 211]); EvClose 3] /\
  ~ (exists e, run = (Raise e, init_world [])).
Proof.
  cbv zeta. repeat apply conj.
  - lia.
  - reflexivity.
  - reflexivity.
  - intros [e H]. vm_compute in H. discriminate H.
Qed.

Lemma write_range_check_16bit_only_witness :
  set_16bit_value regfile_transport (handle 2) REG_TIMEOUT 40000
    (init_world []) = (Raise OverflowError, init_world []) /\
  exists r rest,
    gained (init_world [])
      (snd (set_8bit_value regfile_transport (handle 2) REG_TIMEOUT 300
              (init_world [])))
      (EvOpen 0 :: EvSleep :: EvWrite 0 REG_TIMEOUT [300; 211] r :: rest).
Proof.
  split.
  - apply (proj1 (write_range_check_16bit_only regfile_transport (handle 2)
                    REG_TIMEOUT 40000 (init_world []))).
    lia.
  - apply (proj2 (write_range_check_16bit_only regfile_transport (handle 2)
                    REG_TIMEOUT 300 (init_world [])) tt []).
    + cbn. lia.
    + reflexivity.
Defined.

(** C4 does not hold on the code: [bus.close()] is the statement after the
    block transfer inside [try], so a transfer that raises skips it.  With
    a bus whose reads raise, [get_16bit_value] with two retries opens
    session 1 while session 0 is still open, and returns the failure marker
    with both sessions open; with a bus whose writes raise, the same happens
    in [set_8bit_value]. *)
Theorem sessions_not_closed_on_transport_error :
  let r16 := get_16bit_value (const_transport (Ret tt) (Raise OSError))
               (handle 2) REG_BAT_VOLTAGE (init_world tt) in
  let w8 := set_8bit_value (const_transport (Raise OSError) (Ret [0; 0]))
              (handle 2) REG_TIMEOUT 30 (init_world tt) in
  (fst r16 = Ret 0xFFFFFFFF /\
   trace (snd r16) =
     [EvOpen 0; EvSleep; EvRead 0 REG_BAT_VOLTAGE 3 (Raise OSError);
      EvOpen 1; EvSleep; EvRead 1 REG_BAT_VOLTAGE 3 (Raise OSError)] /\
   max_open (trace (snd r16)) = 2%nat /\
   open_sessions (trace (snd r16)) = [0%nat; 1%nat]) /\
  (fst w8 = Ret false /\
   trace (snd w8) =
     [EvOpen 0; EvSleep; EvWrite 0 REG_TIMEOUT [30; 116] (Raise OSError);
      EvOpen 1; EvSleep; EvWrite 1 REG_TIMEOUT [30; 116] (Raise OSError)] /\
   max_open (trace (snd w8)) = 2%nat /\
   open_sessions (trace (snd w8)) = [0%nat; 1%nat]).
Proof.
  cbv zeta. repeat apply conj; reflexivity.
Qed.

Section WriteVerify.

Context {D : Type}.
Variable T : transport D.
Variable self : ATTiny.

Import Crc Codec.

(** A read function returned [v] and [v] is not its failure marker: the
    last pass accepted a frame, the passes before it wrote nothing. *)
Lemma retry_read_value {A B : Type} (register count : Z)
    (pre : list Z -> result B) (post : list Z -> B -> result (option A))
    (body : M D (option A)) (marker v : A) (w w' : world D) :
  (forall w, body w = read_attempt T self register count pre post w) ->
  bind (for_range (Z.to_nat (num_retries self)) body)
    (fun r => match r with
              | Some v => ret v
              | None => bind (warn_retries (num_retries self))
                          (fun _ => ret marker)
              end) w = (Ret v, w') ->
  v <> marker ->
  exists mid s read b,
    gained w w' (mid ++ [EvOpen s; EvSleep;
                         EvRead s register count (Ret read); EvClose s]) /\
    writes_of mid = [] /\
    pre read = Ret b /\ post read b = Ret (Some v).
Proof.
  intros Hshape E Hv.
  pose proof (retry_read_cases T self register count pre post body marker
                Hshape w) as H.
  cbv zeta in H. rewrite E in H.
  destruct H as [(k & w1 & _ & Hc & Ha & _) | (Hm & _)]; [| contradiction].
  destruct (chain_read_rejected_gained T self _ _ _ _ _ _ _ Hc)
    as (mid & G1 & W1 & _).
  destruct (read_accepted_gained T self _ _ _ _ _ _ _ Ha)
    as (read & b & G2 & Hp & Hq).
  exists mid, (next_session w1), read, b.
  repeat split; try assumption.
  apply (gained_trans _ _ _ _ _ G1 G2).
Qed.

(** The read-back of the writes.  A write returns [True] only from a pass
    that sent the frame, closed its session and whose read-back of the same
    register then returned a result equal to the value.  For [set_16bit_value], and for
    [set_8bit_value] with a value other than 0xFFFF, that result was decoded
    from a frame read after the write and accepted by its checksum.  With a
    bus that takes the frame [[30, 116]] for register 0x21 and plays it back,
    [set_8bit_value(0x21, 30)] returns [True] in its first pass: one block
    write, one block read. *)
Lemma write_true_only_after_readback (register value : Z) (w w' : world D) :
  (set_8bit_value T self register value w = (Ret true, w') ->
   exists before s w1,
     gained w w1
       (before ++
        [EvOpen s; EvSleep;
         EvWrite s register [value; addCrc (addCrc 0 register) value] (Ret tt);
         EvClose s]) /\
     get_8bit_value T self register w1 = (Ret value, w') /\
     (value <> 0xFFFF ->
      exists mid s' read c,
        gained w1 w'
          (mid ++
           [EvOpen s'; EvSleep; EvRead s' register 2 (Ret read); EvClose s']) /\
        writes_of mid = [] /\
        nth_error read 0 = Some value /\
        nth_error read 1 = Some c /\
        calcCRC register read 1 = Ret c)) /\
  (set_16bit_value T self register value w = (Ret true, w') ->
   exists before s w1 lo hi crc,
     to_bytes value 2 true = Ret [lo; hi] /\
     calcCRC register [lo; hi] 2 = Ret crc /\
     gained w w1
       (before ++
        [EvOpen s; EvSleep; EvWrite s register [lo; hi; crc] (Ret tt);
         EvClose s]) /\
     get_16bit_value T self register w1 = (Ret value, w') /\
     exists mid s' read c,
       gained w1 w'
         (mid ++
          [EvOpen s'; EvSleep; EvRead s' register 3 (Ret read); EvClose s']) /\
       writes_of mid = [] /\
       from_bytes (firstn 2 read) true = Ret value /\
       nth_error read 2 = Some c /\
       calcCRC register read 2 = Ret c) /\
  (forall u1 d1 d2 u2 d3 d4,
     register = REG_TIMEOUT -> value = 30 ->
     1 <= num_retries self ->
     t_open T (bus_number self) (dev w) = (Ret u1, d1) ->
     t_write T (address self) REG_TIMEOUT [30; 116] d1 = (Ret tt, d2) ->
     t_open T (bus_number self) d2 = (Ret u2, d3) ->
     t_read T (address self) REG_TIMEOUT 2 d3 = (Ret [30; 116], d4) ->
     set_8bit_value T self register value w =
       (Ret true,
        {| dev := d4;
           next_session := S (S (next_session w));
           trace := trace w ++
             [EvOpen (next_session w); EvSleep;
              EvWrite (next_session w) REG_TIMEOUT [30; 116] (Ret tt);
              EvClose (next_session w);
              EvOpen (S (next_session w)); EvSleep;
              EvRead (S (next_session w)) REG_TIMEOUT 2 (Ret [30; 116]);
              EvClose (S (next_session w))] |})).
Proof.
  repeat apply conj.
  - intros E. rewrite set_8bit_value_shape in E.
    destruct (write_loop_true T self _ (get_8bit_value_no_writes T self)
                _ _ _ _ _ E) as (before & w0 & w1 & G0 & _ & Hs & Hg).
    pose proof (write_sent_gained T self _ _ _ _ Hs) as G1.
    exists before, (next_session w0), w1.
    repeat apply conj.
    + apply (gained_trans _ _ _ _ _ G0 G1).
    + exact Hg.
    + intros Hv. unfold get_8bit_value in Hg.
      destruct (retry_read_value register 2 pre_8bit (post_8bit register)
                  _ _ _ _ _ (get_8bit_attempt_shape T self register) Hg Hv)
        as (mid & s' & read & b & G2 & W2 & Hp & Hq).
      destruct (post_8bit_accepts _ _ _ _ Hp Hq) as (H0 & c & H1 & Hc).
      exists mid, s', read, c. repeat split; assumption.
  - intros E. rewrite set_16bit_value_shape in E.
    destruct (frame_16bit register value) as [arg_list | e] eqn:Ef;
      [| discriminate].
    destruct (frame_16bit_inv _ _ _ Ef) as (Hr & lo & hi & crc & Hb & Hc & ->).
    destruct (write_loop_true T self _ (get_16bit_value_no_writes T self)
                _ _ _ _ _ E) as (before & w0 & w1 & G0 & _ & Hs & Hg).
    pose proof (write_sent_gained T self _ _ _ _ Hs) as G1.
    exists before, (next_session w0), w1, lo, hi, crc.
    repeat apply conj; try assumption.
    + apply (gained_trans _ _ _ _ _ G0 G1).
    + unfold get_16bit_value in Hg.
      assert (Hv : value <> 0xFFFFFFFF) by lia.
      destruct (retry_read_value register 3 pre_16bit (post_16bit register)
                  _ _ _ _ _ (get_16bit_attempt_shape T self register) Hg Hv)
        as (mid & s' & read & b & G2 & W2 & Hp & Hq).
      destruct (post_16bit_accepts _ _ _ _ Hp Hq) as (H0 & c & H1 & Hc').
      exists mid, s', read, c. repeat split; assumption.
  - intros u1 d1 d2 u2 d3 d4 -> -> Hn Ho1 Hw Ho2 Hr.
    unfold set_8bit_value, set_8bit_attempt, get_8bit_value, get_8bit_attempt.
    destruct (Z.to_nat (num_retries self)) as [| m] eqn:En; [lia |].
    cbn [for_range]. unfold_monad.
    rewrite Ho1. cbn [dev next_session trace].
    change (frame_8bit REG_TIMEOUT 30) with [30; 116].
    rewrite Hw. cbn [dev next_session trace].
    rewrite Ho2. cbn [dev next_session trace].
    rewrite Hr. cbn.
    repeat rewrite <- app_assoc. reflexivity.
Qed.

End WriteVerify.

(** C5 does not hold on the code: [set_8bit_value] reports [True] for a
    write that no read-back verified, at the value 0xFFFF, the failure marker
    of [get_8bit_value].  The bus takes the write and then answers every read
    with the frame [[0, 0]], whose checksum byte 0 is not the checksum 40 of
    register 0x21 with payload 0: no frame is accepted, the read-back returns
    the marker, the marker equals the value, and the write returns [True]. *)
Theorem set_8bit_value_true_on_failed_readback :
  let T := const_transport (Ret tt) (Ret [0; 0]) in
  let run := set_8bit_value T (handle 2) REG_TIMEOUT 0xFFFF (init_world tt) in
  fst run = Ret true /\
  trace (snd run) =
    [EvOpen 0; EvSleep; EvWrite 0 REG_TIMEOUT [0xFFFF; 132] (Ret tt);
     EvClose 0;
     EvOpen 1; EvSleep; EvRead 1 REG_TIMEOUT 2 (Ret [0; 0]); EvClose 1;
     EvOpen 2; EvSleep; EvRead 2 REG_TIMEOUT 2 (Ret [0; 0]); EvClose 2] /\
  Crc.calcCRC REG_TIMEOUT [0; 0] 1 = Ret 40 /\
  ~ (exists read,
       In (Ret read) (reads_of (trace (snd run))) /\
       nth_error read 0 = Some 0xFFFF).
Proof.
  cbv zeta. repeat apply conj.
  - reflexivity.
  - reflexivity.
  - reflexivity.
  - intros (read & Hin & H0). cbn in Hin.
    destruct Hin as [E | [E | []]]; apply Ret_inj in E; subst read;
      discriminate H0.
Qed.

Lemma write_true_only_after_readback_witness :
  let w0 := init_world ([] : regfile) in
  let r8 := set_8bit_value regfile_transport (handle 3) REG_TIMEOUT 30 w0 in
  let r16 := set_16bit_value regfile_transport (handle 3) 0x31 (-1234) w0 in
  (exists before s w1,
     gained w0 w1
       (before ++
        [EvOpen s; EvSleep;
         EvWrite s REG_TIMEOUT
           [30; Crc.addCrc (Crc.addCrc 0 REG_TIMEOUT) 30] (Ret tt);
         EvClose s]) /\
     get_8bit_value regfile_transport (handle 3) REG_TIMEOUT w1 =
       (Ret 30, snd r8) /\
     (30 <> 0xFFFF ->
      exists mid s' read c,
        gained w1 (snd r8)
          (mid ++
           [EvOpen s'; EvSleep; EvRead s' REG_TIMEOUT 2 (Ret read);
            EvClose s']) /\
        writes_of mid = [] /\
        nth_error read 0 = Some 30 /\
        nth_error read 1 = Some c /\
        Crc.calcCRC REG_TIMEOUT read 1 = Ret c)) /\
  (exists before s w1 lo hi crc,
     Codec.to_bytes (-1234) 2 true = Ret [lo; hi] /\
     Crc.calcCRC 0x31 [lo; hi] 2 = Ret crc /\
     gained w0 w1
       (before ++
        [EvOpen s; EvSleep; EvWrite s 0x31 [lo; hi; crc] (Ret tt);
         EvClose s]) /\
     get_16bit_value regfile_transport (handle 3) 0x31 w1 =
       (Ret (-1234), snd r16) /\
     exists mid s' read c,
       gained w1 (snd r16)
         (mid ++
          [EvOpen s'; EvSleep; EvRead s' 0x31 3 (Ret read); EvClose s']) /\
       writes_of mid = [] /\
       Codec.from_bytes (firstn 2 read) true = Ret (-1234) /\
       nth_error read 2 = Some c /\
       Crc.calcCRC 0x31 read 2 = Ret c) /\
  fst r8 = Ret true.
Proof.
  intros w0 r8 r16. repeat apply conj.
  - apply (proj1 (write_true_only_after_readback regfile_transport (handle 3)
                    REG_TIMEOUT 30 w0 _)).
    reflexivity.
  - apply (proj1 (proj2 (write_true_only_after_readback regfile_transport
                    (handle 3) 0x31 (-1234) w0 _))).
    reflexivity.
  - unfold r8.
    rewrite (proj2 (proj2 (write_true_only_after_readback regfile_transport
               (handle 3) REG_TIMEOUT 30 w0 w0))
               tt [] [(REG_TIMEOUT, [30; 116])] tt
               [(REG_TIMEOUT, [30; 116])] [(REG_TIMEOUT, [30; 116])]);
      try reflexivity.
    cbn. lia.
Defined.

Section RetryExhaustion.

Context {D : Type}.
Variable T : transport D.
Variable self : ATTiny.

Import Crc Codec.

(** C6. If every block read returns a frame whose checksum byte is not the
    checksum over the register address and the received payload, then
    [get_8bit_value] performs exactly [num_retries] block reads and then
    returns the failure marker 0xFFFF. *)
Theorem get_8bit_value_retry_exhaustion (register : Z) (w : world D) :
  1 <= num_retries self ->
  (forall d, exists u d', t_open T (bus_number self) d = (Ret u, d')) ->
  (forall d, exists b c d',
      t_read T (address self) register 2 d = (Ret [b; c], d') /\
      calcCRC register [b] 1 <> Ret c) ->
  exists w' evs,
    get_8bit_value T self register w = (Ret 0xFFFF, w') /\
    gained w w' evs /\
    length (reads_of evs) = Z.to_nat (num_retries self) /\
    writes_of evs = [].
Proof.
  intros Hn Hopen Hread.
  pose proof (retry_read_cases T self register 2 pre_8bit (post_8bit register)
                (get_8bit_attempt T self register) 0xFFFF
                (get_8bit_attempt_shape T self register) w) as H.
  cbv zeta in H.
  change (bind _ _ w) with (get_8bit_value T self register w) in H.
  destruct (get_8bit_value T self register w) as [[v | e] w'].
  - destruct H as [(k & w1 & _ & _ & Ha & _) | (-> & _ & Hc & _)].
    + exfalso.
      destruct Ha as (u & d1 & read & d2 & b0 & _ & Hr & Hp & Hq & _).
      destruct (Hread d1) as (b & c & d' & Hr' & Hbad).
      rewrite Hr' in Hr. injection Hr as <- _.
      destruct (post_8bit_accepts _ _ _ _ Hp Hq) as (_ & c0 & H1 & Hc).
      cbn in H1. injection H1 as <-.
      apply Hbad. exact Hc.
    + destruct (chain_read_rejected_gained T self _ _ _ _ _ _ _ Hc)
        as (evs & G & W & R).
      exists w', evs. repeat split; assumption.
  - exfalso.
    destruct H as [(_ & Hle & _) | (k & w1 & _ & _ & (d & Hd & _))]; [lia |].
    destruct (Hopen (dev w1)) as (u & d' & Ho). congruence.
Qed.

End RetryExhaustion.

Lemma get_8bit_value_retry_exhaustion_witness :
  exists w' evs,
    get_8bit_value (const_transport (Ret tt) (Ret [0; 0])) (handle 3)
      REG_TIMEOUT (init_world tt) = (Ret 0xFFFF, w') /\
    gained (init_world tt) w' evs /\
    length (reads_of evs) = 3%nat /\
    writes_of evs = [].
Proof.
  apply (get_8bit_value_retry_exhaustion
           (const_transport (Ret tt) (Ret [0; 0])) (handle 3)
           REG_TIMEOUT (init_world tt)).
  - cbn. lia.
  - intros d. exists tt, d. reflexivity.
  - intros d. exists 0, 0, d. split; [reflexivity | discriminate].
Defined.

Section CodecRoundTrip.

Import Crc Codec.

(** C7. The value codec round-trips.  For every [v] in [-32768, 32767] the
    two little-endian bytes [int.to_bytes] gives, which [set_16bit_value]
    puts in its frame, decode back to [v] with [int.from_bytes], and the
    16-bit read pass accepts that frame and decodes [v] from it.  For every
    [v] in [0, 255] the 8-bit frame carries [v] itself as its payload byte,
    and the 8-bit read pass accepts that frame and decodes [v] from it. *)
Theorem codec_round_trip (register v : Z) :
  (-32768 <= v <= 32767 ->
   exists lo hi crc,
     to_bytes v 2 true = Ret [lo; hi] /\
     from_bytes [lo; hi] true = Ret v /\
     frame_16bit register v = Ret [lo; hi; crc] /\
     pre_16bit [lo; hi; crc] = Ret v /\
     post_16bit register [lo; hi; crc] v = Ret (Some v)) /\
  (0 <= v <= 255 ->
   exists crc,
     frame_8bit register v = [v; crc] /\
     pre_8bit [v; crc] = Ret v /\
     post_8bit register [v; crc] v = Ret (Some v)).
Proof.
  split.
  - intros Hr.
    set (lo := v mod 65536 mod 256).
    set (hi := v mod 65536 / 256 mod 256).
    exists lo, hi, (addCrc (addCrc (addCrc 0 register) lo) hi).
    assert (Hto : to_bytes v 2 true = Ret [lo; hi])
      by apply (to_bytes_16_signed v Hr).
    assert (Hfrom : from_bytes [lo; hi] true = Ret v)
      by apply (from_bytes_16_signed v Hr).
    repeat apply conj.
    + exact Hto.
    + exact Hfrom.
    + unfold frame_16bit. rewrite Hto. reflexivity.
    + exact Hfrom.
    + unfold post_16bit, and_then.
      change (index [lo; hi; addCrc (addCrc (addCrc 0 register) lo) hi] 2)
        with (Ret (addCrc (addCrc (addCrc 0 register) lo) hi)).
      change (calcCRC register
                [lo; hi; addCrc (addCrc (addCrc 0 register) lo) hi] 2)
        with (Ret (addCrc (addCrc (addCrc 0 register) lo) hi)).
      cbv beta iota. rewrite Z.eqb_refl. reflexivity.
  - intros _. exists (addCrc (addCrc 0 register) v).
    repeat apply conj.
    + reflexivity.
    + reflexivity.
    + unfold post_8bit, and_then.
      change (index [v; addCrc (addCrc 0 register) v] 1)
        with (Ret (addCrc (addCrc 0 register) v)).
      change (calcCRC register [v; addCrc (addCrc 0 register) v] 1)
        with (Ret (addCrc (addCrc 0 register) v)).
      cbv beta iota. rewrite Z.eqb_refl. reflexivity.
Qed.

End CodecRoundTrip.

Lemma codec_round_trip_witness :
  (exists lo hi crc,
     Codec.to_bytes (-1234) 2 true = Ret [lo; hi] /\
     Codec.from_bytes [lo; hi] true = Ret (-1234) /\
     frame_16bit 0x31 (-1234) = Ret [lo; hi; crc] /\
     pre_16bit [lo; hi; crc] = Ret (-1234) /\
     post_16bit 0x31 [lo; hi; crc] (-1234) = Ret (Some (-1234))) /\
  (exists crc,
     frame_8bit REG_TIMEOUT 30 = [30; crc] /\
     pre_8bit [30; crc] = Ret 30 /\
     post_8bit REG_TIMEOUT [30; crc] 30 = Ret (Some 30)).
Proof.
  split.
  - apply (proj1 (codec_round_trip 0x31 (-1234))). lia.
  - apply (proj2 (codec_round_trip REG_TIMEOUT 30)). lia.
Defined.

Section FailureMarkers.

Context {D : Type}.
Variable T : transport D.
Variable self : ATTiny.

Import Crc Codec.

(** C8. The failure marker of each read function lies outside the values
    the function can decode: [get_8bit_value] returns either a byte of an
    accepted frame, in [0, 255] on a bus that delivers bytes, or 0xFFFF when
    the loop ran out of passes; [get_16bit_value] returns either a value in
    [-32768, 32767] decoded from an accepted frame or 0xFFFFFFFF;
    [get_uptime] returns either a value in [0, 2^24 - 1] decoded from an
    accepted frame or 0xFFFFFFFFFFFF.  So the marker is returned exactly when
    no pass accepted a frame. *)
Theorem failure_marker_is_no_reading (register v : Z) (w w' : world D) :
  let n := Z.to_nat (num_retries self) in
  ((forall d l d',
       t_read T (address self) register 2 d = (Ret l, d') ->
       forallb is_byte l = true) ->
   get_8bit_value T self register w = (Ret v, w') ->
   (0 <= v <= 255 /\ v <> 0xFFFF /\
    for_range n (get_8bit_attempt T self register) w = (Ret (Some v), w')) \/
   (v = 0xFFFF /\
    for_range n (get_8bit_attempt T self register) w = (Ret None, w'))) /\
  (get_16bit_value T self register w = (Ret v, w') ->
   (-32768 <= v <= 32767 /\ v <> 0xFFFFFFFF /\
    for_range n (get_16bit_attempt T self register) w = (Ret (Some v), w')) \/
   (v = 0xFFFFFFFF /\
    for_range n (get_16bit_attempt T self register) w = (Ret None, w'))) /\
  (get_uptime T self w = (Ret v, w') ->
   (0 <= v <= 2 ^ 24 - 1 /\ v <> 0xFFFFFFFFFFFF /\
    for_range n (get_uptime_attempt T self) w = (Ret (Some v), w')) \/
   (v = 0xFFFFFFFFFFFF /\
    for_range n (get_uptime_attempt T self) w = (Ret None, w'))).
Proof.
  cbv zeta. repeat apply conj.
  - intros Hbytes E. unfold get_8bit_value in E.
    pose proof (retry_read_cases T self register 2 pre_8bit
                  (post_8bit register) _ 0xFFFF
                  (get_8bit_attempt_shape T self register) w) as H.
    cbv zeta in H. rewrite E in H.
    destruct H as [(k & w1 & _ & _ & Ha & Hf) | (-> & _ & _ & Hf)];
      [left | right; split; [reflexivity | exact Hf]].
    destruct Ha as (u & d1 & read & d2 & b & _ & Hr & Hp & Hq & _).
    destruct (post_8bit_accepts _ _ _ _ Hp Hq) as (H0 & _).
    pose proof (Hbytes _ _ _ Hr) as Hb.
    rewrite forallb_forall in Hb.
    pose proof (is_byte_range v (Hb v (nth_error_In read 0 H0))) as Hv.
    repeat split; try lia. exact Hf.
  - intros E. unfold get_16bit_value in E.
    pose proof (retry_read_cases T self register 3 pre_16bit
                  (post_16bit register) _ 0xFFFFFFFF
                  (get_16bit_attempt_shape T self register) w) as H.
    cbv zeta in H. rewrite E in H.
    destruct H as [(k & w1 & _ & _ & Ha & Hf) | (-> & _ & _ & Hf)];
      [left | right; split; [reflexivity | exact Hf]].
    destruct Ha as (u & d1 & read & d2 & b & _ & _ & Hp & Hq & _).
    destruct (post_16bit_accepts _ _ _ _ Hp Hq) as (H0 & c & H2 & _).
    destruct read as [| b0 [| b1 [| b2 rest]]]; try discriminate H2.
    pose proof (from_bytes_2_signed_range [b0; b1] v eq_refl H0) as Hv.
    repeat split; try lia. exact Hf.
  - intros E. unfold get_uptime in E.
    pose proof (retry_read_cases T self REG_UPTIME 5 pre_none
                  post_uptime _ 0xFFFFFFFFFFFF
                  (get_uptime_attempt_shape T self) w) as H.
    cbv zeta in H. rewrite E in H.
    destruct H as [(k & w1 & _ & _ & Ha & Hf) | (-> & _ & _ & Hf)];
      [left | right; split; [reflexivity | exact Hf]].
    destruct Ha as (u & d1 & read & d2 & b & _ & _ & _ & Hq & _).
    destruct (post_uptime_accepts _ _ _ Hq) as (H0 & c & H4 & _).
    destruct read as [| b0 [| b1 [| b2 [| b3 rest]]]]; try discriminate H4.
    pose proof (from_bytes_3_unsigned_range [b0; b1; b2] v eq_refl H0) as Hv.
    change (2 ^ 24 - 1) with 16777215 in *.
    repeat split; try lia. exact Hf.
Qed.

End FailureMarkers.

Lemma failure_marker_is_no_reading_witness :
  (let T := const_transport (Ret tt) (Ret [30; 116]) in
   let w := init_world tt in
   (0 <= 30 <= 255 /\ 30 <> 0xFFFF /\
    for_range 3 (get_8bit_attempt T (handle 3) REG_TIMEOUT) w =
      (Ret (Some 30), snd (get_8bit_value T (handle 3) REG_TIMEOUT w))) \/
   (30 = 0xFFFF /\
    for_range 3 (get_8bit_attempt T (handle 3) REG_TIMEOUT) w =
      (Ret None, snd (get_8bit_value T (handle 3) REG_TIMEOUT w)))) /\
  (let T := const_transport (Ret tt) (Ret [0x34; 0x12; 0]) in
   let w := init_world tt in
   (-32768 <= 0xFFFFFFFF <= 32767 /\ 0xFFFFFFFF <> 0xFFFFFFFF /\
    for_range 3 (get_16bit_attempt T (handle 3) REG_BAT_VOLTAGE) w =
      (Ret (Some 0xFFFFFFFF),
       snd (get_16bit_value T (handle 3) REG_BAT_VOLTAGE w))) \/
   (0xFFFFFFFF = 0xFFFFFFFF /\
    for_range 3 (get_16bit_attempt T (handle 3) REG_BAT_VOLTAGE) w =
      (Ret None, snd (get_16bit_value T (handle 3) REG_BAT_VOLTAGE w)))) /\
  (let T := const_transport (Ret tt) (Ret [1; 2; 3; 0; 69]) in
   let w := init_world tt in
   (0 <= 197121 <= 2 ^ 24 - 1 /\ 197121 <> 0xFFFFFFFFFFFF /\
    for_range 3 (get_uptime_attempt T (handle 3)) w =
      (Ret (Some 197121), snd (get_uptime T (handle 3) w))) \/
   (197121 = 0xFFFFFFFFFFFF /\
    for_range 3 (get_uptime_attempt T (handle 3)) w =
      (Ret None, snd (get_uptime T (handle 3) w)))).
Proof.
  repeat apply conj.
  - apply (proj1 (failure_marker_is_no_reading
                    (const_transport (Ret tt) (Ret [30; 116])) (handle 3)
                    REG_TIMEOUT 30 (init_world tt) _)).
    + intros d l d' H. injection H as <- _. reflexivity.
    + reflexivity.
  - apply (proj1 (proj2 (failure_marker_is_no_reading
                    (const_transport (Ret tt) (Ret [0x34; 0x12; 0])) (handle 3)
                    REG_BAT_VOLTAGE 0xFFFFFFFF (init_world tt) _))).
    reflexivity.
  - apply (proj2 (proj2 (failure_marker_is_no_reading
                    (const_transport (Ret tt) (Ret [1; 2; 3; 0; 69])) (handle 3)
                    0 197121 (init_world tt) _))).
    reflexivity.
Defined.

Section Scenarios.

Context {D : Type}.
Variable T : transport D.
Variable self : ATTiny.

Import Crc Codec.

(** C9. When the block read of register 0x11 returns [[0x34, 0x12]]
    followed by [calcCRC(0x11, [0x34, 0x12], 2)], [get_16bit_value(0x11)]
    returns 0x1234 = 4660 from that pass: one session, one block read, the
    session closed. *)
Theorem get_16bit_value_battery_voltage (w : world D) (u : unit) (d1 d2 : D)
    (crc : Z) :
  1 <= num_retries self ->
  t_open T (bus_number self) (dev w) = (Ret u, d1) ->
  calcCRC REG_BAT_VOLTAGE [0x34; 0x12] 2 = Ret crc ->
  t_read T (address self) REG_BAT_VOLTAGE 3 d1 = (Ret [0x34; 0x12; crc], d2) ->
  get_16bit_value T self REG_BAT_VOLTAGE w =
    (Ret 4660,
     {| dev := d2;
        next_session := S (next_session w);
        trace := trace w ++
          [EvOpen (next_session w); EvSleep;
           EvRead (next_session w) REG_BAT_VOLTAGE 3 (Ret [0x34; 0x12; crc]);
           EvClose (next_session w)] |}) /\
  4660 = 0x1234.
Proof.
  intros Hn Ho Hc Hr. split; [| reflexivity].
  vm_compute in Hc. apply Ret_inj in Hc. subst crc.
  unfold get_16bit_value, get_16bit_attempt.
  destruct (Z.to_nat (num_retries self)) as [| m] eqn:En; [lia |].
  cbn [for_range]. unfold_monad.
  rewrite Ho. cbn [dev next_session trace].
  rewrite Hr. cbn.
  repeat rewrite <- app_assoc. reflexivity.
Qed.

(** C10. When the block read of the version register returns
    [[b0, b1, b2, b3, c]], the pass of [get_version] accepts the frame exactly
    when [c] is the checksum over 0x80 and all four bytes [b0, b1, b2, b3],
    and [get_version] then returns [(major, minor, patch) = (b2, b1, b0)]:
    the patch byte comes first on the wire and [b3] only enters the
    checksum. *)
Theorem get_version_patch_first (w : world D) (u : unit) (d1 d2 : D)
    (b0 b1 b2 b3 c : Z) :
  1 <= num_retries self ->
  t_open T (bus_number self) (dev w) = (Ret u, d1) ->
  t_read T (address self) REG_VERSION 5 d1 = (Ret [b0; b1; b2; b3; c], d2) ->
  let w1 :=
    {| dev := d2;
       next_session := S (next_session w);
       trace := trace w ++
         [EvOpen (next_session w); EvSleep;
          EvRead (next_session w) REG_VERSION 5 (Ret [b0; b1; b2; b3; c]);
          EvClose (next_session w)] |} in
  (c = spec_checksum_over 0x80 [b0; b1; b2; b3] ->
   get_version_attempt T self w = (Ret (Some (b2, b1, b0)), w1) /\
   get_version T self w = (Ret (b2, b1, b0), w1)) /\
  (c <> spec_checksum_over 0x80 [b0; b1; b2; b3] ->
   get_version_attempt T self w = (Ret None, w1)).
Proof.
  intros Hn Ho Hr w1.
  assert (Hcrc : calcCRC REG_VERSION [b0; b1; b2; b3; c] 4 =
                 Ret (spec_checksum_over 0x80 [b0; b1; b2; b3])).
  { change (calcCRC REG_VERSION [b0; b1; b2; b3; c] 4)
      with (calcCRC 0x80 [b0; b1; b2; b3]
              (Z.of_nat (length [b0; b1; b2; b3]))).
    apply calcCRC_whole. }
  assert (Hpass : get_version_attempt T self w =
                  (if c =? spec_checksum_over 0x80 [b0; b1; b2; b3]
                   then Ret (Some (b2, b1, b0)) else Ret None, w1)).
  { unfold get_version_attempt. unfold_monad.
    rewrite Ho. cbn [dev next_session trace].
    rewrite Hr. cbn [dev next_session trace].
    change (index [b0; b1; b2; b3; c] 4) with (Ret c).
    cbv beta iota. rewrite Hcrc. cbv beta iota.
    subst w1. repeat rewrite <- app_assoc. cbn [app].
    destruct (c =? spec_checksum_over 0x80 [b0; b1; b2; b3]); reflexivity. }
  split.
  - intros Hc. rewrite <- Hc, Z.eqb_refl in Hpass. split; [exact Hpass |].
    unfold get_version.
    destruct (Z.to_nat (num_retries self)) as [| m] eqn:En; [lia |].
    cbn [for_range]. unfold bind at 1 2. rewrite Hpass. reflexivity.
  - intros Hc. apply Z.eqb_neq in Hc. rewrite Hc in Hpass. exact Hpass.
Qed.

End Scenarios.

Lemma get_16bit_value_battery_voltage_witness :
  get_16bit_value (const_transport (Ret tt) (Ret [0x34; 0x12; 242])) (handle 3)
    REG_BAT_VOLTAGE (init_world tt) =
    (Ret 4660,
     {| dev := tt;
        next_session := 1;
        trace := [EvOpen 0; EvSleep;
                  EvRead 0 REG_BAT_VOLTAGE 3 (Ret [0x34; 0x12; 242]);
                  EvClose 0] |}) /\
  4660 = 0x1234.
Proof.
  apply (get_16bit_value_battery_voltage
           (const_transport (Ret tt) (Ret [0x34; 0x12; 242])) (handle 3)
           (init_world tt) tt tt tt 242).
  - cbn. lia.
  - reflexivity.
  - reflexivity.
  - reflexivity.
Defined.

Lemma get_version_patch_first_witness :
  let T := const_transport (Ret tt) (Ret [3; 2; 1; 0; 87]) in
  let w1 :=
    {| dev := tt;
       next_session := 1;
       trace := [EvOpen 0; EvSleep;
                 EvRead 0 REG_VERSION 5 (Ret [3; 2; 1; 0; 87]);
                 EvClose 0] |} in
  get_version_attempt T (handle 3) (init_world tt) = (Ret (Some (1, 2, 3)), w1) /\
  get_version T (handle 3) (init_world tt) = (Ret (1, 2, 3), w1).
Proof.
  cbv zeta.
  apply (proj1 (get_version_patch_first
                  (const_transport (Ret tt) (Ret [3; 2; 1; 0; 87])) (handle 3)
                  (init_world tt) tt tt tt 3 2 1 0 87
                  ltac:(cbn; lia) eq_refl eq_refl)).
  reflexivity.
Defined.

(** * Further properties *)

(** ** The algebra of the checksum *)

Section CrcAlgebra.

Import Crc.

(** The bit step acts on the XOR of accumulator and input alone. *)
Lemma spec_bit_step_xor (st : Z * Z) :
  fst (spec_bit_step (Z.land (Z.lxor (fst st) (snd st)) 0xFF, 0)) =
  Z.land (Z.lxor (fst (spec_bit_step st)) (snd (spec_bit_step st))) 0xFF.
Proof.
  destruct st as [a n]. unfold spec_bit_step. cbn [fst snd].
  change (Z.testbit 0 7) with false. rewrite xorb_false_r.
  rewrite testbit7_land_255, Z.lxor_spec.
  rewrite (land_lxor_distr _ (Z.shiftl n 1) 0xFF).
  rewrite <- (Z.land_assoc _ 0xFF 0xFF). change (Z.land 0xFF 0xFF) with 0xFF.
  rewrite <- (land_lxor_distr _ (Z.shiftl n 1) 0xFF).
  destruct (xorb (Z.testbit a 7) (Z.testbit n 7)).
  - rewrite (land_lxor_distr (Z.shiftl _ 1) 0x31 0xFF).
    rewrite <- shiftl1_land_255.
    rewrite <- (land_lxor_distr (Z.shiftl _ 1) 0x31 0xFF).
    f_equal. rewrite Z.shiftl_lxor.
    rewrite (Z.lxor_assoc (Z.shiftl a 1) 49), (Z.lxor_comm 49).
    rewrite <- Z.lxor_assoc. reflexivity.
  - rewrite <- shiftl1_land_255. rewrite Z.shiftl_lxor. reflexivity.
Qed.

Lemma spec_bit_step_zero (d : Z) : snd (spec_bit_step (d, 0)) = 0.
Proof.
  reflexivity.
Qed.

Lemma spec_bit_iter_xor (k : nat) (st : Z * Z) :
  Nat.iter k spec_bit_step (Z.land (Z.lxor (fst st) (snd st)) 0xFF, 0) =
  (Z.land (Z.lxor (fst (Nat.iter k spec_bit_step st))
                  (snd (Nat.iter k spec_bit_step st))) 0xFF, 0).
Proof.
  induction k as [| k IH].
  - reflexivity.
  - rewrite !Nat.iter_succ, IH.
    rewrite (surjective_pairing (spec_bit_step (_, 0))).
    rewrite spec_bit_step_zero. f_equal.
    apply (spec_bit_step_xor (Nat.iter k spec_bit_step st)).
Qed.

Lemma spec_bit_iter_snd (k : nat) (a n : Z) :
  snd (Nat.iter k spec_bit_step (a, n)) = Z.shiftl n (Z.of_nat k).
Proof.
  induction k as [| k IH].
  - cbn [Nat.iter nat_rect snd]. change (Z.of_nat 0) with 0.
    rewrite Z.shiftl_0_r. reflexivity.
  - rewrite Nat.iter_succ.
    destruct (Nat.iter k spec_bit_step (a, n)) as [a' n'] eqn:E.
    cbn [snd] in IH. subst n'. unfold spec_bit_step. cbn [snd].
    rewrite Z.shiftl_shiftl by lia. f_equal. lia.
Qed.

Lemma spec_bit_iter_fst_masked (k : nat) (a n : Z) :
  Z.land (fst (Nat.iter (S k) spec_bit_step (a, n))) 0xFF =
  fst (Nat.iter (S k) spec_bit_step (a, n)).
Proof.
  rewrite Nat.iter_succ.
  destruct (Nat.iter k spec_bit_step (a, n)) as [a' n'].
  unfold spec_bit_step. cbn [fst].
  rewrite <- Z.land_assoc. reflexivity.
Qed.

(** The checksum of one byte depends on the XOR of seed and data only. *)
Lemma spec_checksum_xor (a n : Z) :
  spec_checksum a n = spec_checksum (Z.land (Z.lxor a n) 0xFF) 0.
Proof.
  unfold spec_checksum.
  pose proof (spec_bit_iter_xor 8 (a, n)) as H.
  cbn [fst snd] in H. rewrite H. cbn [fst].
  rewrite spec_bit_iter_snd.
  rewrite land_lxor_distr, spec_bit_iter_fst_masked.
  replace (Z.land (Z.shiftl n (Z.of_nat 8)) 0xFF) with 0.
  - rewrite Z.lxor_0_r. reflexivity.
  - rewrite land_255_mod, Z.shiftl_mul_pow2 by lia.
    change (2 ^ Z.of_nat 8) with 256. rewrite Z.mod_mul by lia. reflexivity.
Qed.

Lemma addCrc_xor (c n : Z) :
  addCrc c n = spec_checksum (Z.land (Z.lxor c n) 0xFF) 0.
Proof.
  rewrite addCrc_spec, spec_checksum_xor.
  rewrite (land_lxor_distr (Z.land c 0xFF) n 0xFF).
  rewrite <- (Z.land_assoc c 0xFF 0xFF). change (Z.land 0xFF 0xFF) with 0xFF.
  rewrite <- land_lxor_distr. reflexivity.
Qed.

Lemma addCrc_injective_on_bytes_ok : addCrc_injective_on_bytes = true.
Proof.
  vm_compute. reflexivity.
Qed.

Lemma in_all_bytes (x : Z) : 0 <= x < 256 -> In x all_bytes.
Proof.
  intros H. unfold all_bytes. apply in_map_iff.
  exists (Z.to_nat x). split; [lia |]. apply in_seq. lia.
Qed.

Lemma addCrc_0_injective (x y : Z) :
  0 <= x < 256 -> 0 <= y < 256 -> addCrc 0 x = addCrc 0 y -> x = y.
Proof.
  intros Hx Hy E.
  pose proof addCrc_injective_on_bytes_ok as H.
  unfold addCrc_injective_on_bytes in H.
  rewrite forallb_forall in H. specialize (H x (in_all_bytes x Hx)).
  rewrite forallb_forall in H. specialize (H y (in_all_bytes y Hy)).
  rewrite E, Z.eqb_refl in H. cbn in H. apply Z.eqb_eq. exact H.
Qed.

End CrcAlgebra.

Section CrcExtras.

Import Crc.

Lemma lxor_byte (a b : Z) :
  0 <= a < 256 -> 0 <= b < 256 -> 0 <= Z.lxor a b < 256.
Proof.
  intros Ha Hb.
  rewrite <- (land_255_small a Ha), <- (land_255_small b Hb).
  rewrite <- land_lxor_distr. apply land_255_range.
Qed.

Lemma lxor_cancel_r (a b n : Z) : Z.lxor a n = Z.lxor b n -> a = b.
Proof.
  intros H.
  rewrite <- (Z.lxor_0_r a), <- (Z.lxor_0_r b), <- (Z.lxor_nilpotent n).
  rewrite <- !Z.lxor_assoc, H. reflexivity.
Qed.

Lemma spec_checksum_0_injective (d d' : Z) :
  0 <= d < 256 -> 0 <= d' < 256 ->
  spec_checksum d 0 = spec_checksum d' 0 -> d = d'.
Proof.
  intros Hd Hd' E. apply addCrc_0_injective; try assumption.
  rewrite !addCrc_xor, !Z.lxor_0_l, !land_255_small by assumption. exact E.
Qed.

(** Two different seeds give two different checksums, whatever is folded. *)
Lemma addCrc_injective_seed (c c' n : Z) :
  0 <= c < 256 -> 0 <= c' < 256 -> addCrc c n = addCrc c' n -> c = c'.
Proof.
  intros Hc Hc' E. rewrite !addCrc_xor in E.
  apply spec_checksum_0_injective in E; try apply land_255_range.
  rewrite !land_lxor_distr in E. apply lxor_cancel_r in E.
  rewrite !land_255_small in E by assumption. exact E.
Qed.

(** Two different bytes folded into one seed give different checksums. *)
Lemma addCrc_injective_data (c n n' : Z) :
  0 <= n < 256 -> 0 <= n' < 256 -> addCrc c n = addCrc c n' -> n = n'.
Proof.
  intros Hn Hn' E. rewrite !addCrc_xor in E.
  apply spec_checksum_0_injective in E; try apply land_255_range.
  rewrite !land_lxor_distr in E.
  rewrite !(Z.lxor_comm (Z.land c 0xFF)) in E. apply lxor_cancel_r in E.
  rewrite !land_255_small in E by assumption. exact E.
Qed.

Lemma fold_addCrc_injective_seed (p : list Z) : forall c c',
  0 <= c < 256 -> 0 <= c' < 256 ->
  fold_left addCrc p c = fold_left addCrc p c' -> c = c'.
Proof.
  induction p as [| x p IH]; intros c c' Hc Hc' E.
  - exact E.
  - cbn [fold_left] in E.
    apply IH in E; try apply addCrc_range.
    apply (addCrc_injective_seed c c' x Hc Hc' E).
Qed.

(** X1. [addCrc] is a function of the XOR of its two arguments, and of
    their low eight bits only: [addCrc(crc, n)] equals [addCrc(0, crc ^ n)]
    and [addCrc(crc & 0xFF, n & 0xFF)], for all integers. *)
Theorem addCrc_xor_low_byte (crc n : Z) :
  addCrc crc n = addCrc 0 (Z.lxor crc n) /\
  addCrc crc n = addCrc (Z.land crc 0xFF) (Z.land n 0xFF).
Proof.
  split.
  - rewrite !addCrc_xor, Z.lxor_0_l. reflexivity.
  - rewrite !addCrc_xor. f_equal.
    rewrite <- land_lxor_distr, <- Z.land_assoc. reflexivity.
Qed.

(** X2. The checksum detects every error confined to one byte: two frames
    for the same register that differ in exactly one payload byte have
    different checksums, and so have two equal payloads sent to two
    different register addresses. *)
Theorem calcCRC_detects_single_byte_error (register register' b b' : Z)
    (pre post : list Z) :
  (0 <= b < 256 -> 0 <= b' < 256 -> b <> b' ->
   calcCRC register (pre ++ b :: post)
     (Z.of_nat (length (pre ++ b :: post))) <>
   calcCRC register (pre ++ b' :: post)
     (Z.of_nat (length (pre ++ b' :: post)))) /\
  (0 <= register < 256 -> 0 <= register' < 256 -> register <> register' ->
   calcCRC register post (Z.of_nat (length post)) <>
   calcCRC register' post (Z.of_nat (length post))).
Proof.
  split.
  - intros Hb Hb' Hne E. rewrite !calcCRC_fold in E. apply Ret_inj in E.
    rewrite !fold_left_app in E. cbn [fold_left] in E.
    apply fold_addCrc_injective_seed in E; try apply addCrc_range.
    apply Hne. apply (addCrc_injective_data _ b b' Hb Hb' E).
  - intros Hr Hr' Hne E. rewrite !calcCRC_fold in E. apply Ret_inj in E.
    apply fold_addCrc_injective_seed in E; try apply addCrc_range.
    apply Hne. apply (addCrc_injective_data 0 _ _ Hr Hr' E).
Qed.

Lemma calcCRC_loop_in_range (read : list Z) : forall k i crc,
  (i + k <= length read)%nat ->
  calcCRC_loop read i k crc =
  Ret (fold_left addCrc (firstn k (skipn i read)) crc).
Proof.
  induction k as [| k IH]; intros i crc H.
  - reflexivity.
  - cbn [calcCRC_loop].
    destruct (nth_error read i) as [b |] eqn:E.
    + rewrite (skipn_nth_error _ _ _ E). cbn [firstn fold_left].
      apply IH. lia.
    + apply nth_error_None in E. lia.
Qed.

Lemma calcCRC_loop_out_of_range (read : list Z) : forall k i crc,
  (length read < i + k)%nat -> (0 < k)%nat ->
  calcCRC_loop read i k crc = Raise IndexError.
Proof.
  induction k as [| k IH]; intros i crc H Hk; [lia |].
  cbn [calcCRC_loop].
  destruct (nth_error read i) as [b |] eqn:E; [| reflexivity].
  assert (Hi : (i < length read)%nat).
  { apply nth_error_Some. rewrite E. discriminate. }
  apply IH; lia.
Qed.

(** X3. [calcCRC(register, read, len)] returns the checksum of the register
    and of the first [len] elements of [read], whatever follows them, when
    [read] has at least [len] elements, and raises [IndexError] when it has
    fewer; a non-positive [len] gives the checksum of the register alone. *)
Theorem calcCRC_length_behaviour (register len : Z) (read : list Z) :
  ((Z.to_nat len <= length read)%nat ->
   calcCRC register read len =
   Ret (spec_checksum_over register (firstn (Z.to_nat len) read))) /\
  ((length read < Z.to_nat len)%nat ->
   calcCRC register read len = Raise IndexError) /\
  (len <= 0 -> calcCRC register read len = Ret (addCrc 0 register)).
Proof.
  unfold calcCRC. repeat apply conj.
  - intros H. rewrite calcCRC_loop_in_range by lia. cbn [skipn].
    f_equal. unfold spec_checksum_over.
    rewrite fold_addCrc_spec by apply addCrc_masked.
    rewrite addCrc_spec. reflexivity.
  - intros H. apply calcCRC_loop_out_of_range; lia.
  - intros H. replace (Z.to_nat len) with O by lia. reflexivity.
Qed.

End CrcExtras.

(** ** The codec, the other way round *)

Section CodecExtras.

Import Crc Codec.

Lemma is_byte_true (b : Z) : 0 <= b < 256 -> is_byte b = true.
Proof.
  intros H. unfold is_byte.
  apply andb_true_intro. split; [apply Z.leb_le | apply Z.ltb_lt]; lia.
Qed.

(** X4. Decoding then encoding is the identity too: any two bytes
    [[lo, hi]] decode, as a signed little-endian number, to
    [lo + 256 * hi], less 65536 when [hi >= 128]; that number lies in
    [-32768, 32767] and [to_bytes] gives [[lo, hi]] back. *)
Theorem decode_then_encode_16 (lo hi : Z) :
  0 <= lo < 256 -> 0 <= hi < 256 ->
  let v := lo + 256 * hi - (if 128 <=? hi then 65536 else 0) in
  from_bytes [lo; hi] true = Ret v /\
  -32768 <= v <= 32767 /\
  to_bytes v 2 true = Ret [lo; hi].
Proof.
  intros Hlo Hhi v.
  assert (Hv : -32768 <= v <= 32767).
  { subst v. destruct (Z.leb_spec 128 hi); lia. }
  split; [| split].
  - unfold from_bytes. cbn [forallb length le_unsigned].
    rewrite !is_byte_true by assumption. cbn [andb].
    change (8 * Z.of_nat 2) with 16. change (0 <? 16) with true.
    change (2 ^ (16 - 1)) with 32768. change (2 ^ 16) with 65536.
    cbn [andb]. f_equal. subst v.
    destruct (Z.leb_spec 32768 (lo + 256 * (hi + 256 * 0)));
      destruct (Z.leb_spec 128 hi); lia.
  - exact Hv.
  - rewrite (to_bytes_16_signed v Hv). f_equal.
    assert (E : v mod 65536 = lo + 256 * hi).
    { subst v. destruct (Z.leb_spec 128 hi).
      - symmetry. apply (Z.mod_unique _ _ (-1)); lia.
      - symmetry. apply (Z.mod_unique _ _ 0); lia. }
    rewrite E. f_equal; [| f_equal].
    + symmetry. apply (Z.mod_unique _ _ hi); lia.
    + assert (Hq : (lo + 256 * hi) / 256 = hi).
      { symmetry. apply (Z.div_unique _ _ _ lo); lia. }
      rewrite Hq. apply Z.mod_small. lia.
Qed.

End CodecExtras.

(** ** How the retry loops run *)

Section LoopRuns.

Context {D : Type}.
Variable T : transport D.
Variable self : ATTiny.

Import Crc Codec.

(** The loop skips the passes that fall through. *)
Lemma for_range_skip {A : Type} (body : M D (option A)) (k : nat)
    (w w1 : world D) :
  chain (fun w w' => body w = (Ret None, w')) k w w1 ->
  forall m, for_range (k + m) body w = for_range m body w1.
Proof.
  intros Hc. induction Hc as [w | k w wa wb Hr Hc IH]; intros m.
  - reflexivity.
  - cbn [Nat.add for_range]. unfold bind. rewrite Hr. apply IH.
Qed.

(** The loop ends with the first pass that does not fall through. *)
Lemma for_range_first {A : Type} (body : M D (option A)) (k n : nat)
    (w w1 : world D) :
  chain (fun w w' => body w = (Ret None, w')) k w w1 ->
  (k < n)%nat ->
  for_range n body w =
  match body w1 with
  | (Ret (Some v), w') => (Ret (Some v), w')
  | (Ret None, w') => for_range (n - S k) body w'
  | (Raise e, w') => (Raise e, w')
  end.
Proof.
  intros Hc Hk.
  replace n with (k + S (n - S k))%nat at 1 by lia.
  rewrite (for_range_skip body k w w1 Hc).
  cbn [for_range]. unfold bind.
  destruct (body w1) as [[[v |] | e] w']; reflexivity.
Qed.

(** A retry function returns the value of the first pass that returns
    one. *)
Lemma retry_first_value {A : Type} (body : M D (option A)) (marker v : A)
    (k : nat) (w w1 w' : world D) :
  chain (fun w w' => body w = (Ret None, w')) k w w1 ->
  body w1 = (Ret (Some v), w') ->
  (k < Z.to_nat (num_retries self))%nat ->
  bind (for_range (Z.to_nat (num_retries self)) body)
    (fun r => match r with
              | Some v => ret v
              | None => bind (warn_retries (num_retries self))
                          (fun _ => ret marker)
              end) w = (Ret v, w').
Proof.
  intros Hc Hb Hk. unfold bind at 1.
  rewrite (for_range_first body k _ w w1 Hc Hk), Hb. reflexivity.
Qed.

(** A retry function raises what the first raising pass raises. *)
Lemma retry_first_raise {A : Type} (body : M D (option A)) (marker : A)
    (e : exn) (k : nat) (w w1 w' : world D) :
  chain (fun w w' => body w = (Ret None, w')) k w w1 ->
  body w1 = (Raise e, w') ->
  (k < Z.to_nat (num_retries self))%nat ->
  bind (for_range (Z.to_nat (num_retries self)) body)
    (fun r => match r with
              | Some v => ret v
              | None => bind (warn_retries (num_retries self))
                          (fun _ => ret marker)
              end) w = (Raise e, w').
Proof.
  intros Hc Hb Hk. unfold bind at 1.
  rewrite (for_range_first body k _ w w1 Hc Hk), Hb. reflexivity.
Qed.

(** Without a pass, a retry function fails on its own warning. *)
Lemma retry_no_pass {A : Type} (body : M D (option A)) (marker : A)
    (w : world D) :
  num_retries self <= 0 ->
  bind (for_range (Z.to_nat (num_retries self)) body)
    (fun r => match r with
              | Some v => ret v
              | None => bind (warn_retries (num_retries self))
                          (fun _ => ret marker)
              end) w = (Raise UnboundLocalError, w).
Proof.
  intros H. replace (Z.to_nat (num_retries self)) with O by lia.
  unfold bind, for_range, ret, warn_retries, raise.
  destruct (Z.leb_spec (num_retries self) 0); [reflexivity | lia].
Qed.

(** X5. Retry recovery: when the first [k] passes of a read or write fall
    through (transport error, bad checksum, failed read-back) and pass
    [k + 1], still within [num_retries], returns a value, the function
    returns that value. *)
Theorem retry_recovery (register value : Z) (k : nat) (w w1 w' : world D) :
  (k < Z.to_nat (num_retries self))%nat ->
  (forall v,
     chain (fun w w' => get_8bit_attempt T self register w = (Ret None, w'))
       k w w1 ->
     get_8bit_attempt T self register w1 = (Ret (Some v), w') ->
     get_8bit_value T self register w = (Ret v, w')) /\
  (forall v,
     chain (fun w w' => get_16bit_attempt T self register w = (Ret None, w'))
       k w w1 ->
     get_16bit_attempt T self register w1 = (Ret (Some v), w') ->
     get_16bit_value T self register w = (Ret v, w')) /\
  (forall v,
     chain (fun w w' => get_version_attempt T self w = (Ret None, w'))
       k w w1 ->
     get_version_attempt T self w1 = (Ret (Some v), w') ->
     get_version T self w = (Ret v, w')) /\
  (forall v,
     chain (fun w w' => get_uptime_attempt T self w = (Ret None, w'))
       k w w1 ->
     get_uptime_attempt T self w1 = (Ret (Some v), w') ->
     get_uptime T self w = (Ret v, w')) /\
  (forall b,
     chain (fun w w' =>
              set_8bit_attempt T self register value
                (frame_8bit register value) w = (Ret None, w')) k w w1 ->
     set_8bit_attempt T self register value
       (frame_8bit register value) w1 = (Ret (Some b), w') ->
     set_8bit_value T self register value w = (Ret b, w')) /\
  (forall b arg_list,
     frame_16bit register value = Ret arg_list ->
     chain (fun w w' =>
              set_16bit_attempt T self register value arg_list w
              = (Ret None, w')) k w w1 ->
     set_16bit_attempt T self register value arg_list w1
     = (Ret (Some b), w') ->
     set_16bit_value T self register value w = (Ret b, w')).
Proof.
  intros Hk. repeat apply conj.
  - intros v Hc Hb. apply (retry_first_value _ _ _ k w w1 w' Hc Hb Hk).
  - intros v Hc Hb. apply (retry_first_value _ _ _ k w w1 w' Hc Hb Hk).
  - intros v Hc Hb. apply (retry_first_value _ _ _ k w w1 w' Hc Hb Hk).
  - intros v Hc Hb. apply (retry_first_value _ _ _ k w w1 w' Hc Hb Hk).
  - intros b Hc Hb. apply (retry_first_value _ _ _ k w w1 w' Hc Hb Hk).
  - intros b arg_list Hf Hc Hb. unfold set_16bit_value, bind at 1, lift.
    rewrite Hf. apply (retry_first_value _ _ _ k w w1 w' Hc Hb Hk).
Qed.

End LoopRuns.

(** ** Exceptions *)

Section Exceptions.

Context {D : Type}.
Variable T : transport D.
Variable self : ATTiny.

Import Crc Codec.

(** A read function raises only when it had no pass to run or when a
    session could not be opened. *)
Lemma retry_read_raises {A B : Type} (register count : Z)
    (pre : list Z -> result B) (post : list Z -> B -> result (option A))
    (body : M D (option A)) (marker : A) (w : world D) (e : exn) w' :
  (forall w, body w = read_attempt T self register count pre post w) ->
  bind (for_range (Z.to_nat (num_retries self)) body)
    (fun r => match r with
              | Some v => ret v
              | None => bind (warn_retries (num_retries self))
                          (fun _ => ret marker)
              end) w = (Raise e, w') ->
  (e = UnboundLocalError /\ num_retries self <= 0) \/
  (exists d d', t_open T (bus_number self) d = (Raise e, d')).
Proof.
  intros Hshape E.
  pose proof (retry_read_cases T self register count pre post body marker
                Hshape w) as H.
  cbv zeta in H. rewrite E in H.
  destruct H as [(-> & Hle & _) | (k & w1 & _ & _ & (d & Hd & _))].
  - left. split; [reflexivity | exact Hle].
  - right. exists (dev w1), d. exact Hd.
Qed.

Lemma write_loop_raises (get : Z -> M D Z) (register value : Z)
    (arg_list : list Z) (w : world D) (e : exn) w' :
  write_loop T self get register value arg_list w = (Raise e, w') ->
  (e = UnboundLocalError /\ num_retries self <= 0) \/
  (exists d d', t_open T (bus_number self) d = (Raise e, d')).
Proof.
  intros E.
  pose proof (write_loop_cases T self get register value arg_list w) as H.
  cbv zeta in H. rewrite E in H.
  destruct H as [(-> & Hle & _) | (k & w1 & _ & _ & (d & Hd & _))].
  - left. split; [reflexivity | exact Hle].
  - right. exists (dev w1), d. exact Hd.
Qed.

(** Without the delay: with at least one retry and a bus whose sessions
    open, the passes contain every exception of the block transfers and of
    the decoding. *)
Lemma untimed_no_exception (register value : Z) (w : world D) :
  1 <= num_retries self ->
  (forall d, exists u d', t_open T (bus_number self) d = (Ret u, d')) ->
  (forall e, fst (get_8bit_value T self register w) <> Raise e) /\
  (forall e, fst (get_16bit_value T self register w) <> Raise e) /\
  (forall e, fst (get_version T self w) <> Raise e) /\
  (forall e, fst (get_uptime T self w) <> Raise e) /\
  (forall e, fst (set_8bit_value T self register value w) <> Raise e) /\
  (-32768 <= value <= 32767 ->
   forall e, fst (set_16bit_value T self register value w) <> Raise e).
Proof.
  intros Hn Hopen.
  assert (Hno : forall e,
    ~ ((e = UnboundLocalError /\ num_retries self <= 0) \/
       (exists d d', t_open T (bus_number self) d = (Raise e, d')))).
  { intros e [[_ Hle] | (d & d' & Hd)]; [lia |].
    destruct (Hopen d) as (u & d'' & Ho). congruence. }
  repeat apply conj.
  - intros e E.
    destruct (get_8bit_value T self register w) as [r w'] eqn:Er.
    cbn [fst] in E. subst r. unfold get_8bit_value in Er.
    apply (Hno e). eapply retry_read_raises; [| exact Er].
    apply get_8bit_attempt_shape.
  - intros e E.
    destruct (get_16bit_value T self register w) as [r w'] eqn:Er.
    cbn [fst] in E. subst r. unfold get_16bit_value in Er.
    apply (Hno e). eapply retry_read_raises; [| exact Er].
    apply get_16bit_attempt_shape.
  - intros e E.
    destruct (get_version T self w) as [r w'] eqn:Er.
    cbn [fst] in E. subst r. unfold get_version in Er.
    apply (Hno e). eapply retry_read_raises; [| exact Er].
    apply get_version_attempt_shape.
  - intros e E.
    destruct (get_uptime T self w) as [r w'] eqn:Er.
    cbn [fst] in E. subst r. unfold get_uptime in Er.
    apply (Hno e). eapply retry_read_raises; [| exact Er].
    apply get_uptime_attempt_shape.
  - intros e E.
    destruct (set_8bit_value T self register value w) as [r w'] eqn:Er.
    cbn [fst] in E. subst r. rewrite set_8bit_value_shape in Er.
    apply (Hno e). eapply write_loop_raises. exact Er.
  - intros Hv e E.
    destruct (set_16bit_value T self register value w) as [r w'] eqn:Er.
    cbn [fst] in E. subst r. rewrite set_16bit_value_shape in Er.
    unfold frame_16bit in Er. rewrite (to_bytes_16_signed value Hv) in Er.
    cbn in Er. apply (Hno e). eapply write_loop_raises. exact Er.
Qed.

(** X7. A session that cannot be opened is not retried: the constructor
    [smbus.SMBus(...)] stands before the [try], so when it raises in the
    first pass every read and every write function raises that exception at
    once, with no transfer made and no failure marker returned. *)
Theorem open_failure_is_not_retried (register value : Z) (w : world D)
    (e : exn) (d : D) :
  1 <= num_retries self ->
  t_open T (bus_number self) (dev w) = (Raise e, d) ->
  let w' := {| dev := d; next_session := next_session w;
               trace := trace w ++ [EvOpenFailed] |} in
  get_8bit_value T self register w = (Raise e, w') /\
  get_16bit_value T self register w = (Raise e, w') /\
  get_version T self w = (Raise e, w') /\
  get_uptime T self w = (Raise e, w') /\
  set_8bit_value T self register value w = (Raise e, w') /\
  (-32768 <= value <= 32767 ->
   set_16bit_value T self register value w = (Raise e, w')).
Proof.
  intros Hn Ho w'.
  assert (Hk : (0 < Z.to_nat (num_retries self))%nat) by lia.
  repeat apply conj.
  - apply (retry_first_raise self _ _ e O w w w' (chain_nil _ w)); [| exact Hk].
    unfold get_8bit_attempt, bind at 1, SMBus. rewrite Ho. reflexivity.
  - apply (retry_first_raise self _ _ e O w w w' (chain_nil _ w)); [| exact Hk].
    unfold get_16bit_attempt, bind at 1, SMBus. rewrite Ho. reflexivity.
  - apply (retry_first_raise self _ _ e O w w w' (chain_nil _ w)); [| exact Hk].
    unfold get_version_attempt, bind at 1, SMBus. rewrite Ho. reflexivity.
  - apply (retry_first_raise self _ _ e O w w w' (chain_nil _ w)); [| exact Hk].
    unfold get_uptime_attempt, bind at 1, SMBus. rewrite Ho. reflexivity.
  - apply (retry_first_raise self _ _ e O w w w' (chain_nil _ w)); [| exact Hk].
    unfold set_8bit_attempt, bind at 1, SMBus. rewrite Ho. reflexivity.
  - intros Hv. unfold set_16bit_value, bind at 1, lift.
    unfold frame_16bit. rewrite (to_bytes_16_signed value Hv). cbn [index nth_error].
    cbv beta iota.
    apply (retry_first_raise self _ _ e O w w w' (chain_nil _ w)); [| exact Hk].
    unfold set_16bit_attempt, bind at 1, SMBus. rewrite Ho. reflexivity.
Qed.

(** X8. With [num_retries <= 0] no pass runs and the warning after the loop
    reads the loop variable [x] that was never bound: every read and write
    function raises [UnboundLocalError] without touching the bus;
    [set_16bit_value] raises [OverflowError] instead when it cannot encode
    the value. *)
Theorem no_retries_raise_unbound_local (register value : Z) (w : world D) :
  num_retries self <= 0 ->
  get_8bit_value T self register w = (Raise UnboundLocalError, w) /\
  get_16bit_value T self register w = (Raise UnboundLocalError, w) /\
  get_version T self w = (Raise UnboundLocalError, w) /\
  get_uptime T self w = (Raise UnboundLocalError, w) /\
  set_8bit_value T self register value w = (Raise UnboundLocalError, w) /\
  set_16bit_value T self register value w =
    (Raise (if (-32768 <=? value) && (value <=? 32767)
            then UnboundLocalError else OverflowError), w).
Proof.
  intros Hn. repeat apply conj; try apply (retry_no_pass self _ _ w Hn).
  unfold set_16bit_value, bind at 1, lift, frame_16bit.
  destruct (Z.leb_spec (-32768) value) as [H1 | H1];
    [destruct (Z.leb_spec value 32767) as [H2 | H2] |]; cbn [andb].
  - rewrite (to_bytes_16_signed value (conj H1 H2)). cbn [index nth_error].
    cbv beta iota. apply (retry_no_pass self _ _ w Hn).
  - rewrite to_bytes_16_overflow by lia. reflexivity.
  - rewrite to_bytes_16_overflow by lia. reflexivity.
Qed.

End Exceptions.

(** ** Bus traffic *)

Section Counting.

Context {D : Type}.
Variable T : transport D.
Variable self : ATTiny.

Import Crc Codec.

(** A read function makes at most [num_retries] block reads, and no
    write. *)
Lemma retry_read_bounded {A B : Type} (register count : Z)
    (pre : list Z -> result B) (post : list Z -> B -> result (option A))
    (body : M D (option A)) (marker : A) :
  (forall w, body w = read_attempt T self register count pre post w) ->
  forall w r w',
    bind (for_range (Z.to_nat (num_retries self)) body)
      (fun r => match r with
                | Some v => ret v
                | None => bind (warn_retries (num_retries self))
                            (fun _ => ret marker)
                end) w = (r, w') ->
    exists evs, gained w w' evs /\ writes_of evs = [] /\
      (length (reads_of evs) <= Z.to_nat (num_retries self))%nat.
Proof.
  intros Hshape w r w' E.
  pose proof (retry_read_cases T self register count pre post body marker
                Hshape w) as H.
  cbv zeta in H. rewrite E in H.
  destruct r as [v | e].
  - destruct H as [(k & w1 & Hk & Hc & Ha & _) | (_ & _ & Hc & _)].
    + destruct (chain_read_rejected_gained T self _ _ _ _ _ _ _ Hc)
        as (e1 & G1 & W1 & R1).
      destruct (read_accepted_gained T self _ _ _ _ _ _ _ Ha)
        as (read & b & G2 & _).
      eexists. split; [eapply gained_trans; eassumption |].
      rewrite writes_of_app, reads_of_app, length_app, W1, R1.
      split; [reflexivity | cbn; lia].
    + destruct (chain_read_rejected_gained T self _ _ _ _ _ _ _ Hc)
        as (e1 & G1 & W1 & R1).
      exists e1. repeat split; try assumption. lia.
  - destruct H as [(_ & _ & ->) | (k & w1 & Hk & Hc & He)].
    + exists []. repeat split; [apply gained_refl | cbn; lia].
    + destruct (chain_read_rejected_gained T self _ _ _ _ _ _ _ Hc)
        as (e1 & G1 & W1 & R1).
      pose proof (open_failed_gained T self _ _ _ He) as G2.
      eexists. split; [eapply gained_trans; eassumption |].
      rewrite writes_of_app, reads_of_app, length_app, W1, R1.
      split; [reflexivity | cbn; lia].
Qed.

Section WriteCounting.

Variable get : Z -> M D Z.
Variable N : nat.
Hypothesis get_bounded : forall register w r w',
  get register w = (r, w') ->
  exists evs, gained w w' evs /\ writes_of evs = [] /\
    (length (reads_of evs) <= N)%nat.

Variables register value : Z.
Variable arg_list : list Z.

Lemma write_sent_counts (w w1 w' : world D) r :
  write_sent T self register arg_list w w1 ->
  get register w1 = (r, w') ->
  exists evs, gained w w' evs /\
    length (writes_of evs) = 1%nat /\ (length (reads_of evs) <= N)%nat.
Proof.
  intros Hs Hg.
  pose proof (write_sent_gained T self _ _ _ _ Hs) as G1.
  destruct (get_bounded _ _ _ _ Hg) as (e2 & G2 & W2 & R2).
  eexists. split; [eapply gained_trans; eassumption |].
  rewrite writes_of_app, reads_of_app, !length_app, W2.
  split; [reflexivity | cbn; lia].
Qed.

Lemma write_rejected_counts (w w' : world D) :
  write_rejected T self get register value arg_list w w' ->
  exists evs, gained w w' evs /\
    length (writes_of evs) = 1%nat /\ (length (reads_of evs) <= N)%nat.
Proof.
  intros [(u & d1 & e & d2 & _ & _ & ->) | (w1 & r & Hs & Hg & _)].
  - eexists. split; [reflexivity |]. split; [reflexivity | cbn; lia].
  - apply (write_sent_counts _ _ _ _ Hs Hg).
Qed.

Lemma chain_write_rejected_counts (k : nat) (w w' : world D) :
  chain (write_rejected T self get register value arg_list) k w w' ->
  exists evs, gained w w' evs /\
    length (writes_of evs) = k /\ (length (reads_of evs) <= k * N)%nat.
Proof.
  intros Hc. induction Hc as [w | k w w1 w2 Hr Hc IH].
  - exists []. repeat split; [apply gained_refl | cbn; lia].
  - destruct (write_rejected_counts _ _ Hr) as (e1 & G1 & W1 & R1).
    destruct IH as (e2 & G2 & W2 & R2).
    exists (e1 ++ e2). split; [eapply gained_trans; eassumption |].
    rewrite writes_of_app, reads_of_app, !length_app, W1, W2.
    split; [reflexivity | cbn; lia].
Qed.

(** A write function makes at most [num_retries] block writes and at most
    [num_retries] times [N] block reads. *)
Lemma write_loop_bounded (w : world D) r w' :
  write_loop T self get register value arg_list w = (r, w') ->
  exists evs, gained w w' evs /\
    (length (writes_of evs) <= Z.to_nat (num_retries self))%nat /\
    (length (reads_of evs) <= Z.to_nat (num_retries self) * N)%nat.
Proof.
  intros E.
  pose proof (write_loop_cases T self get register value arg_list w) as H.
  cbv zeta in H. rewrite E in H.
  destruct r as [b | e].
  - destruct H as [(k & w1 & Hk & Hc & _ & (wa & Hs & Hg)) | (_ & _ & Hc)].
    + destruct (chain_write_rejected_counts _ _ _ Hc) as (e1 & G1 & W1 & R1).
      destruct (write_sent_counts _ _ _ _ Hs Hg) as (e2 & G2 & W2 & R2).
      exists (e1 ++ e2). split; [eapply gained_trans; eassumption |].
      rewrite writes_of_app, reads_of_app, !length_app, W1, W2.
      split; [lia | nia].
    + destruct (chain_write_rejected_counts _ _ _ Hc) as (e1 & G1 & W1 & R1).
      exists e1. repeat split; try assumption; lia.
  - destruct H as [(_ & _ & ->) | (k & w1 & Hk & Hc & He)].
    + exists []. repeat split; [apply gained_refl | cbn; lia | cbn; lia].
    + destruct (chain_write_rejected_counts _ _ _ Hc) as (e1 & G1 & W1 & R1).
      pose proof (open_failed_gained T self _ _ _ He) as G2.
      eexists. split; [eapply gained_trans; eassumption |].
      rewrite writes_of_app, reads_of_app, !length_app, W1.
      split; [cbn; lia | cbn; nia].
Qed.

End WriteCounting.

Lemma get_8bit_value_bounded (register : Z) (w : world D) r w' :
  get_8bit_value T self register w = (r, w') ->
  exists evs, gained w w' evs /\ writes_of evs = [] /\
    (length (reads_of evs) <= Z.to_nat (num_retries self))%nat.
Proof.
  apply (retry_read_bounded register 2 pre_8bit (post_8bit register)).
  apply get_8bit_attempt_shape.
Qed.

Lemma get_16bit_value_bounded (register : Z) (w : world D) r w' :
  get_16bit_value T self register w = (r, w') ->
  exists evs, gained w w' evs /\ writes_of evs = [] /\
    (length (reads_of evs) <= Z.to_nat (num_retries self))%nat.
Proof.
  apply (retry_read_bounded register 3 pre_16bit (post_16bit register)).
  apply get_16bit_attempt_shape.
Qed.

(** X9. Bounds on the bus traffic of one call, whatever the bus does: a
    read function makes at most [num_retries] block reads and never writes;
    a write function makes at most [num_retries] block writes and, its
    read-back retrying on its own inside every pass, at most
    [num_retries * num_retries] block reads. *)
Theorem bus_traffic_bounds (register value : Z) (w : world D) :
  let n := Z.to_nat (num_retries self) in
  (exists evs, gained w (snd (get_8bit_value T self register w)) evs /\
     writes_of evs = [] /\ (length (reads_of evs) <= n)%nat) /\
  (exists evs, gained w (snd (get_16bit_value T self register w)) evs /\
     writes_of evs = [] /\ (length (reads_of evs) <= n)%nat) /\
  (exists evs, gained w (snd (get_version T self w)) evs /\
     writes_of evs = [] /\ (length (reads_of evs) <= n)%nat) /\
  (exists evs, gained w (snd (get_uptime T self w)) evs /\
     writes_of evs = [] /\ (length (reads_of evs) <= n)%nat) /\
  (exists evs, gained w (snd (set_8bit_value T self register value w)) evs /\
     (length (writes_of evs) <= n)%nat /\
     (length (reads_of evs) <= n * n)%nat) /\
  (exists evs, gained w (snd (set_16bit_value T self register value w)) evs /\
     (length (writes_of evs) <= n)%nat /\
     (length (reads_of evs) <= n * n)%nat).
Proof.
  cbv zeta. repeat apply conj.
  - destruct (get_8bit_value T self register w) as [r w'] eqn:E.
    apply (get_8bit_value_bounded _ _ _ _ E).
  - destruct (get_16bit_value T self register w) as [r w'] eqn:E.
    apply (get_16bit_value_bounded _ _ _ _ E).
  - destruct (get_version T self w) as [r w'] eqn:E.
    apply (retry_read_bounded REG_VERSION 5 pre_none post_version _ _
             (get_version_attempt_shape T self) _ _ _ E).
  - destruct (get_uptime T self w) as [r w'] eqn:E.
    apply (retry_read_bounded REG_UPTIME 5 pre_none post_uptime _ _
             (get_uptime_attempt_shape T self) _ _ _ E).
  - destruct (set_8bit_value T self register value w) as [r w'] eqn:E.
    rewrite set_8bit_value_shape in E.
    apply (write_loop_bounded _ _ get_8bit_value_bounded _ _ _ _ _ _ E).
  - destruct (set_16bit_value T self register value w) as [r w'] eqn:E.
    rewrite set_16bit_value_shape in E.
    destruct (frame_16bit register value) as [arg_list | e].
    + apply (write_loop_bounded _ _ get_16bit_value_bounded _ _ _ _ _ _ E).
    + injection E as _ <-. exists [].
      repeat split; [apply gained_refl | cbn; lia | cbn; lia].
Qed.

End Counting.

Section Exhaustion.

Context {D : Type}.
Variable T : transport D.
Variable self : ATTiny.

Import Crc Codec.

(** When no pass can accept, a read function uses up its passes: exactly
    [num_retries] block reads, then the marker. *)
Lemma retry_read_exhausted {A B : Type} (register count : Z)
    (pre : list Z -> result B) (post : list Z -> B -> result (option A))
    (body : M D (option A)) (marker : A) :
  (forall w, body w = read_attempt T self register count pre post w) ->
  1 <= num_retries self ->
  (forall d, exists u d', t_open T (bus_number self) d = (Ret u, d')) ->
  (forall d read d' b v,
      t_read T (address self) register count d = (Ret read, d') ->
      pre read = Ret b -> post read b <> Ret (Some v)) ->
  forall w, exists w' evs,
    bind (for_range (Z.to_nat (num_retries self)) body)
      (fun r => match r with
                | Some v => ret v
                | None => bind (warn_retries (num_retries self))
                            (fun _ => ret marker)
                end) w = (Ret marker, w') /\
    gained w w' evs /\
    length (reads_of evs) = Z.to_nat (num_retries self) /\
    writes_of evs = [].
Proof.
  intros Hshape Hn Hopen Hrej w.
  pose proof (retry_read_cases T self register count pre post body marker
                Hshape w) as H.
  cbv zeta in H.
  destruct (bind _ _ w) as [[v | e] w'].
  - destruct H as [(k & w1 & _ & _ & Ha & _) | (-> & _ & Hc & _)].
    + exfalso.
      destruct Ha as (u & d1 & read & d2 & b & _ & Hr & Hp & Hq & _).
      apply (Hrej _ _ _ _ _ Hr Hp Hq).
    + destruct (chain_read_rejected_gained T self _ _ _ _ _ _ _ Hc)
        as (evs & G & W & R).
      exists w', evs. repeat split; assumption.
  - exfalso.
    destruct H as [(_ & Hle & _) | (k & w1 & _ & _ & (d & Hd & _))]; [lia |].
    destruct (Hopen (dev w1)) as (u & d' & Ho). congruence.
Qed.

(** X10. When every block read raises, each read function makes exactly
    [num_retries] block reads and then returns its failure marker: 0xFFFF,
    0xFFFFFFFF, the triple of 0xFFFF, 0xFFFFFFFFFFFF. *)
Theorem read_exhaustion_on_transport_errors (register : Z) (w : world D) :
  1 <= num_retries self ->
  (forall d, exists u d', t_open T (bus_number self) d = (Ret u, d')) ->
  (forall a r c d, exists e d', t_read T a r c d = (Raise e, d')) ->
  let n := Z.to_nat (num_retries self) in
  (exists w' evs,
     get_8bit_value T self register w = (Ret 0xFFFF, w') /\
     gained w w' evs /\ length (reads_of evs) = n /\ writes_of evs = []) /\
  (exists w' evs,
     get_16bit_value T self register w = (Ret 0xFFFFFFFF, w') /\
     gained w w' evs /\ length (reads_of evs) = n /\ writes_of evs = []) /\
  (exists w' evs,
     get_version T self w = (Ret (0xFFFF, 0xFFFF, 0xFFFF), w') /\
     gained w w' evs /\ length (reads_of evs) = n /\ writes_of evs = []) /\
  (exists w' evs,
     get_uptime T self w = (Ret 0xFFFFFFFFFFFF, w') /\
     gained w w' evs /\ length (reads_of evs) = n /\ writes_of evs = []).
Proof.
  intros Hn Hopen Hread n.
  assert (Hrej : forall (A B : Type) register count
                   (pre : list Z -> result B)
                   (post : list Z -> B -> result (option A)) d read d' b v,
             t_read T (address self) register count d = (Ret read, d') ->
             pre read = Ret b -> post read b <> Ret (Some v)).
  { intros A B rg count pre post d read d' b v Hr _.
    destruct (Hread (address self) rg count d) as (e & d'' & He). congruence. }
  repeat apply conj.
  - apply (retry_read_exhausted register 2 pre_8bit (post_8bit register) _ _
             (get_8bit_attempt_shape T self register) Hn Hopen
             (Hrej _ _ _ _ _ _) w).
  - apply (retry_read_exhausted register 3 pre_16bit (post_16bit register) _ _
             (get_16bit_attempt_shape T self register) Hn Hopen
             (Hrej _ _ _ _ _ _) w).
  - apply (retry_read_exhausted REG_VERSION 5 pre_none post_version _ _
             (get_version_attempt_shape T self) Hn Hopen
             (Hrej _ _ _ _ _ _) w).
  - apply (retry_read_exhausted REG_UPTIME 5 pre_none post_uptime _ _
             (get_uptime_attempt_shape T self) Hn Hopen
             (Hrej _ _ _ _ _ _) w).
Qed.

Section WriteWorstCase.

Variable get : Z -> M D Z.
Variable marker : Z.
Variable N : nat.
Hypothesis get_exhausted : forall register w, exists w' evs,
  get register w = (Ret marker, w') /\
  gained w w' evs /\ length (reads_of evs) = N /\ writes_of evs = [].

Variables register value : Z.
Variable arg_list : list Z.
Hypothesis value_not_marker : value <> marker.
Hypothesis writes_succeed : forall d, exists d',
  t_write T (address self) register arg_list d = (Ret tt, d').

Lemma write_rejected_worst (w w' : world D) :
  write_rejected T self get register value arg_list w w' ->
  exists evs, gained w w' evs /\
    length (writes_of evs) = 1%nat /\ length (reads_of evs) = N.
Proof.
  intros [(u & d1 & e & d2 & _ & Hw & _) | (w1 & r & Hs & Hg & _)].
  - destruct (writes_succeed d1) as (d' & Hw'). congruence.
  - pose proof (write_sent_gained T self _ _ _ _ Hs) as G1.
    destruct (get_exhausted register w1) as (w2 & e2 & Hg' & G2 & R2 & W2).
    rewrite Hg in Hg'. injection Hg' as _ <-.
    eexists. split; [eapply gained_trans; eassumption |].
    rewrite writes_of_app, reads_of_app, !length_app, W2, R2.
    split; reflexivity.
Qed.

Lemma chain_write_rejected_worst (k : nat) (w w' : world D) :
  chain (write_rejected T self get register value arg_list) k w w' ->
  exists evs, gained w w' evs /\
    length (writes_of evs) = k /\ length (reads_of evs) = (k * N)%nat.
Proof.
  intros Hc. induction Hc as [w | k w w1 w2 Hr Hc IH].
  - exists []. repeat split. apply gained_refl.
  - destruct (write_rejected_worst _ _ Hr) as (e1 & G1 & W1 & R1).
    destruct IH as (e2 & G2 & W2 & R2).
    exists (e1 ++ e2). split; [eapply gained_trans; eassumption |].
    rewrite writes_of_app, reads_of_app, !length_app, W1, W2, R1, R2.
    split; [reflexivity | cbn; lia].
Qed.

Lemma write_loop_worst (w : world D) :
  1 <= num_retries self ->
  (forall d, exists u d', t_open T (bus_number self) d = (Ret u, d')) ->
  exists w' evs,
    write_loop T self get register value arg_list w = (Ret false, w') /\
    gained w w' evs /\
    length (writes_of evs) = Z.to_nat (num_retries self) /\
    length (reads_of evs) = (Z.to_nat (num_retries self) * N)%nat.
Proof.
  intros Hn Hopen.
  pose proof (write_loop_cases T self get register value arg_list w) as H.
  cbv zeta in H.
  destruct (write_loop T self get register value arg_list w) as [[b | e] w'].
  - destruct H as [(k & w1 & _ & _ & _ & (wa & _ & Hg)) | (-> & _ & Hc)].
    + exfalso. destruct (get_exhausted register wa) as (w2 & e2 & Hg' & _).
      rewrite Hg in Hg'. injection Hg' as Hv _. contradiction.
    + destruct (chain_write_rejected_worst _ _ _ Hc) as (evs & G & W & R).
      exists w', evs. repeat split; assumption.
  - exfalso.
    destruct H as [(_ & Hle & _) | (k & w1 & _ & _ & (d & Hd & _))]; [lia |].
    destruct (Hopen (dev w1)) as (u & d' & Ho). congruence.
Qed.

End WriteWorstCase.

(** X11. The worst case of a write: when every block write is taken and
    every block read raises, [set_8bit_value] (for a value other than
    0xFFFF) and [set_16bit_value] (for a value it can encode) return [False]
    after exactly [num_retries] block writes and
    [num_retries * num_retries] block reads. *)
Theorem write_worst_case_traffic (register value : Z) (w : world D) :
  1 <= num_retries self ->
  (forall d, exists u d', t_open T (bus_number self) d = (Ret u, d')) ->
  (forall a r data d, exists d', t_write T a r data d = (Ret tt, d')) ->
  (forall a r c d, exists e d', t_read T a r c d = (Raise e, d')) ->
  let n := Z.to_nat (num_retries self) in
  (value <> 0xFFFF ->
   exists w' evs,
     set_8bit_value T self register value w = (Ret false, w') /\
     gained w w' evs /\
     length (writes_of evs) = n /\ length (reads_of evs) = (n * n)%nat) /\
  (-32768 <= value <= 32767 ->
   exists w' evs,
     set_16bit_value T self register value w = (Ret false, w') /\
     gained w w' evs /\
     length (writes_of evs) = n /\ length (reads_of evs) = (n * n)%nat).
Proof.
  intros Hn Hopen Hwrite Hread n.
  assert (Hrej : forall (A B : Type) register count
                   (pre : list Z -> result B)
                   (post : list Z -> B -> result (option A)) d read d' b v,
             t_read T (address self) register count d = (Ret read, d') ->
             pre read = Ret b -> post read b <> Ret (Some v)).
  { intros A B rg count pre post d read d' b v Hr _.
    destruct (Hread (address self) rg count d) as (e & d'' & He). congruence. }
  split.
  - intros Hv. rewrite set_8bit_value_shape.
    apply (write_loop_worst (get_8bit_value T self) 0xFFFF n); try assumption.
    + intros rg w0.
      apply (retry_read_exhausted rg 2 pre_8bit (post_8bit rg) _ _
               (get_8bit_attempt_shape T self rg) Hn Hopen
               (Hrej _ _ _ _ _ _) w0).
    + intros d. apply Hwrite.
  - intros Hv. rewrite set_16bit_value_shape.
    unfold frame_16bit. rewrite (to_bytes_16_signed value Hv).
    cbn [index nth_error]. cbv beta iota.
    apply (write_loop_worst (get_16bit_value T self) 0xFFFFFFFF n);
      try assumption.
    + intros rg w0.
      apply (retry_read_exhausted rg 3 pre_16bit (post_16bit rg) _ _
               (get_16bit_attempt_shape T self rg) Hn Hopen
               (Hrej _ _ _ _ _ _) w0).
    + lia.
    + intros d. apply Hwrite.
Qed.

End Exhaustion.

(** ** Sessions *)

Section Sessions.

Context {D : Type}.
Variable T : transport D.
Variable self : ATTiny.

Import Crc Codec.

Lemma open_sessions_from_app (a b : list event) : forall acc,
  open_sessions_from acc (a ++ b) =
  open_sessions_from (open_sessions_from acc a) b.
Proof.
  induction a as [| e a IH]; intros acc; [reflexivity |].
  destruct e; cbn [app open_sessions_from]; apply IH.
Qed.

Lemma max_open_from_ge (evs : list event) : forall acc,
  (length acc <= max_open_from acc evs)%nat.
Proof.
  destruct evs as [| e evs]; intros acc; cbn [max_open_from]; lia.
Qed.

Lemma max_open_from_app (a b : list event) : forall acc,
  max_open_from acc (a ++ b) =
  Nat.max (max_open_from acc a)
          (max_open_from (open_sessions_from acc a) b).
Proof.
  induction a as [| e a IH]; intros acc.
  - cbn [app max_open_from open_sessions_from].
    pose proof (max_open_from_ge b acc). lia.
  - cbn [app max_open_from]. rewrite IH.
    rewrite <- (open_sessions_from_app [e] a acc). cbn [app]. lia.
Qed.

Lemma sessions_balanced_nil : sessions_balanced [].
Proof.
  split; [reflexivity | cbn; lia].
Qed.

Lemma sessions_balanced_app (a b : list event) :
  sessions_balanced a -> sessions_balanced b -> sessions_balanced (a ++ b).
Proof.
  unfold sessions_balanced, open_sessions, max_open.
  intros [Ha Ma] [Hb Mb]. split.
  - rewrite open_sessions_from_app, Ha. exact Hb.
  - rewrite max_open_from_app, Ha. lia.
Qed.

Lemma sessions_balanced_concat (evss : list (list event)) :
  Forall sessions_balanced evss -> sessions_balanced (concat evss).
Proof.
  induction 1 as [| evs evss H _ IH]; [apply sessions_balanced_nil |].
  cbn [concat]. apply sessions_balanced_app; assumption.
Qed.

(** A pass that opens a session, transfers and closes is balanced. *)
Lemma sessions_balanced_pass (s : nat) (e : event) :
  (forall s', e <> EvOpen s') -> (forall s', e <> EvClose s') ->
  sessions_balanced [EvOpen s; EvSleep; e; EvClose s].
Proof.
  intros Ho Hc. unfold sessions_balanced, open_sessions, max_open.
  destruct e; try (exfalso; eapply Ho; reflexivity);
    try (exfalso; eapply Hc; reflexivity);
    cbn; rewrite Nat.eqb_refl; cbn; split; (reflexivity || lia).
Qed.

Lemma sessions_balanced_open_failed : sessions_balanced [EvOpenFailed].
Proof.
  split; [reflexivity | cbn; lia].
Qed.

Section ReadSessions.

Context {A B : Type}.
Variables register count : Z.
Variable pre : list Z -> result B.
Variable post : list Z -> B -> result (option A).
Hypothesis reads_succeed : forall d r d',
  t_read T (address self) register count d = (r, d') ->
  exists read b, r = Ret read /\ pre read = Ret b.

Lemma read_rejected_balanced (w w' : world D) :
  read_rejected T self register count pre post w w' ->
  exists evs, gained w w' evs /\ sessions_balanced evs.
Proof.
  intros (u & d1 & r & d2 & tail & _ & Hr & -> & Ht).
  destruct (reads_succeed _ _ _ Hr) as (read & b & -> & Hp).
  rewrite Hp in Ht. destruct Ht as [-> _].
  eexists. split; [reflexivity |].
  apply sessions_balanced_pass; discriminate.
Qed.

Lemma retry_read_balanced (body : M D (option A)) (marker : A) :
  (forall w, body w = read_attempt T self register count pre post w) ->
  forall w r w',
    bind (for_range (Z.to_nat (num_retries self)) body)
      (fun r => match r with
                | Some v => ret v
                | None => bind (warn_retries (num_retries self))
                            (fun _ => ret marker)
                end) w = (r, w') ->
    exists evs, gained w w' evs /\ sessions_balanced evs.
Proof.
  intros Hshape w r w' E.
  pose proof (retry_read_cases T self register count pre post body marker
                Hshape w) as H.
  cbv zeta in H. rewrite E in H.
  assert (Hchain : forall k wa wb,
    chain (read_rejected T self register count pre post) k wa wb ->
    exists evs, gained wa wb evs /\ sessions_balanced evs).
  { intros k wa wb Hc.
    destruct (chain_gained _ _ read_rejected_balanced k wa wb Hc)
      as (evss & G & F & _).
    exists (concat evss). split; [exact G |].
    apply sessions_balanced_concat. exact F. }
  destruct r as [v | e].
  - destruct H as [(k & w1 & _ & Hc & Ha & _) | (_ & _ & Hc & _)].
    + destruct (Hchain _ _ _ Hc) as (e1 & G1 & B1).
      destruct (read_accepted_gained T self _ _ _ _ _ _ _ Ha)
        as (read & b & G2 & _).
      eexists. split; [eapply gained_trans; eassumption |].
      apply sessions_balanced_app; [exact B1 |].
      apply sessions_balanced_pass; discriminate.
    + apply (Hchain _ _ _ Hc).
  - destruct H as [(_ & _ & ->) | (k & w1 & _ & Hc & He)].
    + exists []. split; [apply gained_refl | apply sessions_balanced_nil].
    + destruct (Hchain _ _ _ Hc) as (e1 & G1 & B1).
      pose proof (open_failed_gained T self _ _ _ He) as G2.
      eexists. split; [eapply gained_trans; eassumption |].
      apply sessions_balanced_app; [exact B1 |].
      apply sessions_balanced_open_failed.
Qed.

End ReadSessions.

Section WriteSessions.

Variable get : Z -> M D Z.
Hypothesis get_balanced : forall register w r w',
  get register w = (r, w') ->
  exists evs, gained w w' evs /\ sessions_balanced evs.

Variables register value : Z.
Variable arg_list : list Z.
Hypothesis writes_succeed : forall d r d',
  t_write T (address self) register arg_list d = (r, d') -> r = Ret tt.

Lemma write_sent_balanced (w w1 w' : world D) r :
  write_sent T self register arg_list w w1 ->
  get register w1 = (r, w') ->
  exists evs, gained w w' evs /\ sessions_balanced evs.
Proof.
  intros Hs Hg.
  pose proof (write_sent_gained T self _ _ _ _ Hs) as G1.
  destruct (get_balanced _ _ _ _ Hg) as (e2 & G2 & B2).
  eexists. split; [eapply gained_trans; eassumption |].
  apply sessions_balanced_app; [| exact B2].
  apply sessions_balanced_pass; discriminate.
Qed.

Lemma write_rejected_balanced (w w' : world D) :
  write_rejected T self get register value arg_list w w' ->
  exists evs, gained w w' evs /\ sessions_balanced evs.
Proof.
  intros [(u & d1 & e & d2 & _ & Hw & _) | (w1 & r & Hs & Hg & _)].
  - apply writes_succeed in Hw. discriminate.
  - apply (write_sent_balanced _ _ _ _ Hs Hg).
Qed.

Lemma write_loop_balanced (w : world D) r w' :
  write_loop T self get register value arg_list w = (r, w') ->
  exists evs, gained w w' evs /\ sessions_balanced evs.
Proof.
  intros E.
  pose proof (write_loop_cases T self get register value arg_list w) as H.
  cbv zeta in H. rewrite E in H.
  assert (Hchain : forall k wa wb,
    chain (write_rejected T self get register value arg_list) k wa wb ->
    exists evs, gained wa wb evs /\ sessions_balanced evs).
  { intros k wa wb Hc.
    destruct (chain_gained _ _ write_rejected_balanced k wa wb Hc)
      as (evss & G & F & _).
    exists (concat evss). split; [exact G |].
    apply sessions_balanced_concat. exact F. }
  destruct r as [b | e].
  - destruct H as [(k & w1 & _ & Hc & _ & (wa & Hs & Hg)) | (_ & _ & Hc)].
    + destruct (Hchain _ _ _ Hc) as (e1 & G1 & B1).
      destruct (write_sent_balanced _ _ _ _ Hs Hg) as (e2 & G2 & B2).
      exists (e1 ++ e2). split; [eapply gained_trans; eassumption |].
      apply sessions_balanced_app; assumption.
    + apply (Hchain _ _ _ Hc).
  - destruct H as [(_ & _ & ->) | (k & w1 & _ & Hc & He)].
    + exists []. split; [apply gained_refl | apply sessions_balanced_nil].
    + destruct (Hchain _ _ _ Hc) as (e1 & G1 & B1).
      pose proof (open_failed_gained T self _ _ _ He) as G2.
      eexists. split; [eapply gained_trans; eassumption |].
      apply sessions_balanced_app; [exact B1 |].
      apply sessions_balanced_open_failed.
Qed.

End WriteSessions.

End Sessions.

Section MoreEngine.

Context {D : Type}.
Variable T : transport D.
Variable self : ATTiny.

Import Crc Codec.

Lemma forallb_firstn {A : Type} (f : A -> bool) (n : nat) : forall l,
  forallb f l = true -> forallb f (firstn n l) = true.
Proof.
  induction n as [| n IH]; intros [| x l] H; try reflexivity.
  cbn [forallb firstn] in *. apply andb_prop in H. destruct H as [Hx Hl].
  rewrite Hx, (IH l Hl). reflexivity.
Qed.

Lemma from_bytes_of_bytes (bs : list Z) (signed : bool) :
  forallb is_byte bs = true -> exists v, from_bytes bs signed = Ret v.
Proof.
  intros H. unfold from_bytes. rewrite H. eexists. reflexivity.
Qed.

(** Without the delay: on a bus whose block transfers never raise and whose
    reads deliver at least one element, all of them bytes, the events of a
    call are balanced. *)
Lemma untimed_sessions_closed (register value : Z)
    (w : world D) :
  (forall a r data d res d', t_write T a r data d = (res, d') -> res = Ret tt) ->
  (forall a r c d res d',
      t_read T a r c d = (res, d') ->
      exists read, res = Ret read /\ read <> [] /\
                   forallb is_byte read = true) ->
  (exists evs, gained w (snd (get_8bit_value T self register w)) evs /\
     sessions_balanced evs) /\
  (exists evs, gained w (snd (get_16bit_value T self register w)) evs /\
     sessions_balanced evs) /\
  (exists evs, gained w (snd (get_version T self w)) evs /\
     sessions_balanced evs) /\
  (exists evs, gained w (snd (get_uptime T self w)) evs /\
     sessions_balanced evs) /\
  (exists evs, gained w (snd (set_8bit_value T self register value w)) evs /\
     sessions_balanced evs) /\
  (exists evs, gained w (snd (set_16bit_value T self register value w)) evs /\
     sessions_balanced evs).
Proof.
  intros Hwrite Hread.
  assert (H8 : forall rg d r d',
    t_read T (address self) rg 2 d = (r, d') ->
    exists read b, r = Ret read /\ pre_8bit read = Ret b).
  { intros rg d r d' Hr.
    destruct (Hread _ _ _ _ _ _ Hr) as (read & -> & Hne & _).
    destruct read as [| b read]; [contradiction |].
    exists (b :: read), b. split; reflexivity. }
  assert (H16 : forall rg d r d',
    t_read T (address self) rg 3 d = (r, d') ->
    exists read b, r = Ret read /\ pre_16bit read = Ret b).
  { intros rg d r d' Hr.
    destruct (Hread _ _ _ _ _ _ Hr) as (read & -> & _ & Hb).
    destruct (from_bytes_of_bytes (firstn 2 read) true
                (forallb_firstn _ 2 _ Hb)) as (v & Hv).
    exists read, v. split; [reflexivity | exact Hv]. }
  assert (Hnone : forall rg c d r d',
    t_read T (address self) rg c d = (r, d') ->
    exists read b, r = Ret read /\ pre_none read = Ret b).
  { intros rg c d r d' Hr.
    destruct (Hread _ _ _ _ _ _ Hr) as (read & -> & _).
    exists read, tt. split; reflexivity. }
  assert (G8 : forall rg w0 r w',
    get_8bit_value T self rg w0 = (r, w') ->
    exists evs, gained w0 w' evs /\ sessions_balanced evs).
  { intros rg w0 r w'.
    apply (retry_read_balanced T self rg 2 pre_8bit (post_8bit rg) (H8 rg)
             _ _ (get_8bit_attempt_shape T self rg)). }
  assert (G16 : forall rg w0 r w',
    get_16bit_value T self rg w0 = (r, w') ->
    exists evs, gained w0 w' evs /\ sessions_balanced evs).
  { intros rg w0 r w'.
    apply (retry_read_balanced T self rg 3 pre_16bit (post_16bit rg) (H16 rg)
             _ _ (get_16bit_attempt_shape T self rg)). }
  repeat apply conj.
  - destruct (get_8bit_value T self register w) as [r w'] eqn:E.
    apply (G8 _ _ _ _ E).
  - destruct (get_16bit_value T self register w) as [r w'] eqn:E.
    apply (G16 _ _ _ _ E).
  - destruct (get_version T self w) as [r w'] eqn:E.
    apply (retry_read_balanced T self REG_VERSION 5 pre_none post_version
             (Hnone _ _) _ _ (get_version_attempt_shape T self) _ _ _ E).
  - destruct (get_uptime T self w) as [r w'] eqn:E.
    apply (retry_read_balanced T self REG_UPTIME 5 pre_none post_uptime
             (Hnone _ _) _ _ (get_uptime_attempt_shape T self) _ _ _ E).
  - destruct (set_8bit_value T self register value w) as [r w'] eqn:E.
    rewrite set_8bit_value_shape in E.
    apply (write_loop_balanced T self _ G8 _ _ _ (Hwrite _ _ _) _ _ _ E).
  - destruct (set_16bit_value T self register value w) as [r w'] eqn:E.
    rewrite set_16bit_value_shape in E.
    destruct (frame_16bit register value) as [arg_list | e].
    + apply (write_loop_balanced T self _ G16 _ _ _ (Hwrite _ _ _) _ _ _ E).
    + injection E as _ <-. exists [].
      split; [apply gained_refl | apply sessions_balanced_nil].
Qed.

(** X13. When the block read of the uptime register returns
    [[b0, b1, b2, b3, c]] with bytes [b0, b1, b2], the pass of [get_uptime]
    accepts exactly when [c] is the checksum over 0x85 and all four bytes,
    and [get_uptime] then returns [b0 + 256 * b1 + 65536 * b2]: the counter
    is 24 bits, little-endian, and [b3] only enters the checksum. *)
Theorem get_uptime_little_endian (w : world D) (u : unit) (d1 d2 : D)
    (b0 b1 b2 b3 c : Z) :
  1 <= num_retries self ->
  0 <= b0 < 256 -> 0 <= b1 < 256 -> 0 <= b2 < 256 ->
  t_open T (bus_number self) (dev w) = (Ret u, d1) ->
  t_read T (address self) REG_UPTIME 5 d1 = (Ret [b0; b1; b2; b3; c], d2) ->
  let w1 :=
    {| dev := d2;
       next_session := S (next_session w);
       trace := trace w ++
         [EvOpen (next_session w); EvSleep;
          EvRead (next_session w) REG_UPTIME 5 (Ret [b0; b1; b2; b3; c]);
          EvClose (next_session w)] |} in
  (c = spec_checksum_over 0x85 [b0; b1; b2; b3] ->
   get_uptime T self w = (Ret (b0 + 256 * b1 + 65536 * b2), w1)) /\
  (c <> spec_checksum_over 0x85 [b0; b1; b2; b3] ->
   get_uptime_attempt T self w = (Ret None, w1)).
Proof.
  intros Hn H0 H1 H2 Ho Hr w1.
  assert (Hcrc : calcCRC REG_UPTIME [b0; b1; b2; b3; c] 4 =
                 Ret (spec_checksum_over 0x85 [b0; b1; b2; b3])).
  { change (calcCRC REG_UPTIME [b0; b1; b2; b3; c] 4)
      with (calcCRC 0x85 [b0; b1; b2; b3]
              (Z.of_nat (length [b0; b1; b2; b3]))).
    apply calcCRC_whole. }
  assert (Hdec : from_bytes [b0; b1; b2] false =
                 Ret (b0 + 256 * b1 + 65536 * b2)).
  { unfold from_bytes. cbn [forallb length le_unsigned].
    rewrite !is_byte_true by assumption. cbn [andb]. f_equal. lia. }
  assert (Hpass : get_uptime_attempt T self w =
                  (if c =? spec_checksum_over 0x85 [b0; b1; b2; b3]
                   then Ret (Some (b0 + 256 * b1 + 65536 * b2))
                   else Ret None, w1)).
  { unfold get_uptime_attempt. unfold_monad.
    rewrite Ho. cbn [dev next_session trace].
    rewrite Hr. cbn [dev next_session trace].
    change (index [b0; b1; b2; b3; c] 4) with (Ret c).
    cbv beta iota. rewrite Hcrc. cbv beta iota.
    change (firstn 3 [b0; b1; b2; b3; c]) with [b0; b1; b2].
    subst w1. repeat rewrite <- app_assoc. cbn [app].
    destruct (c =? spec_checksum_over 0x85 [b0; b1; b2; b3]);
      [rewrite Hdec |]; reflexivity. }
  split.
  - intros Hc. rewrite <- Hc, Z.eqb_refl in Hpass.
    unfold get_uptime.
    destruct (Z.to_nat (num_retries self)) as [| m] eqn:En; [lia |].
    cbn [for_range]. unfold bind at 1 2. rewrite Hpass. reflexivity.
  - intros Hc. apply Z.eqb_neq in Hc. rewrite Hc in Hpass. exact Hpass.
Qed.

(** On a bus that delivers bytes, the 8-bit read returns a byte or its
    failure marker. *)
Lemma get_8bit_value_byte_or_marker (register v : Z) (w w' : world D) :
  (forall a r c d l d',
      t_read T a r c d = (Ret l, d') -> forallb is_byte l = true) ->
  get_8bit_value T self register w = (Ret v, w') ->
  0 <= v <= 255 \/ v = 0xFFFF.
Proof.
  intros Hbytes E. unfold get_8bit_value in E.
  pose proof (retry_read_cases T self register 2 pre_8bit
                (post_8bit register) _ 0xFFFF
                (get_8bit_attempt_shape T self register) w) as H.
  cbv zeta in H. rewrite E in H.
  destruct H as [(k & w1 & _ & _ & Ha & _) | (-> & _)]; [left | right; reflexivity].
  destruct Ha as (u & d1 & read & d2 & b & _ & Hr & Hp & Hq & _).
  destruct (post_8bit_accepts _ _ _ _ Hp Hq) as (H0 & _).
  pose proof (Hbytes _ _ _ _ _ _ Hr) as Hb.
  rewrite forallb_forall in Hb.
  apply is_byte_range. apply Hb. apply (nth_error_In read 0 H0).
Qed.

(** X14. [set_8bit_value] cannot confirm a value that is no byte: on a bus
    that delivers bytes it never returns [True] for a value outside
    [0, 255] other than 0xFFFF, so a negative (signed) 8-bit value can
    never be written with success. *)
Theorem set_8bit_value_needs_a_byte (register value : Z) (w : world D) :
  (forall a r c d l d',
      t_read T a r c d = (Ret l, d') -> forallb is_byte l = true) ->
  ~ (0 <= value <= 255) -> value <> 0xFFFF ->
  fst (set_8bit_value T self register value w) <> Ret true.
Proof.
  intros Hbytes Hrange Hmarker E.
  destruct (set_8bit_value T self register value w) as [r w'] eqn:Er.
  cbn [fst] in E. subst r. rewrite set_8bit_value_shape in Er.
  destruct (write_loop_true T self _ (get_8bit_value_no_writes T self)
              _ _ _ _ _ Er) as (before & w0 & w1 & _ & _ & _ & Hg).
  destruct (get_8bit_value_byte_or_marker _ _ _ _ Hbytes Hg); contradiction.
Qed.

(** X15. Write and read-back on a bus that keeps what it is sent: when the
    bus takes the frame and the read-back returns that frame, each element
    cut to a byte, [set_8bit_value] returns [True] in its first pass for
    every value in [0, 255] and [set_16bit_value] does for every value in
    [-32768, 32767], after one block write and one block read. *)
Theorem write_then_read_back (register value : Z) (w : world D)
    (u1 u2 : unit) (d1 d2 d3 d4 : D) (arg_list : list Z) :
  1 <= num_retries self ->
  t_open T (bus_number self) (dev w) = (Ret u1, d1) ->
  t_write T (address self) register arg_list d1 = (Ret tt, d2) ->
  t_open T (bus_number self) d2 = (Ret u2, d3) ->
  t_read T (address self) register (Z.of_nat (length arg_list)) d3 =
    (Ret (map (fun x => x mod 256) arg_list), d4) ->
  let w' :=
    {| dev := d4;
       next_session := S (S (next_session w));
       trace := trace w ++
         [EvOpen (next_session w); EvSleep;
          EvWrite (next_session w) register arg_list (Ret tt);
          EvClose (next_session w);
          EvOpen (S (next_session w)); EvSleep;
          EvRead (S (next_session w)) register (Z.of_nat (length arg_list))
            (Ret (map (fun x => x mod 256) arg_list));
          EvClose (S (next_session w))] |} in
  (0 <= value <= 255 -> arg_list = frame_8bit register value ->
   set_8bit_value T self register value w = (Ret true, w')) /\
  (-32768 <= value <= 32767 -> frame_16bit register value = Ret arg_list ->
   set_16bit_value T self register value w = (Ret true, w')).
Proof.
  intros Hn Ho1 Hw Ho2 Hr w'.
  destruct (Z.to_nat (num_retries self)) as [| m] eqn:En; [lia |].
  split.
  - intros Hv ->. subst w'.
    assert (Hmap : map (fun x => x mod 256) (frame_8bit register value) =
                   frame_8bit register value).
    { unfold frame_8bit. cbn [map].
      rewrite (Z.mod_small value) by lia.
      rewrite (Z.mod_small (addCrc _ _)) by apply addCrc_range.
      reflexivity. }
    rewrite Hmap in *.
    unfold set_8bit_value, set_8bit_attempt, get_8bit_value, get_8bit_attempt.
    rewrite En. cbn [for_range]. unfold_monad.
    rewrite Ho1. cbn [dev next_session trace].
    rewrite Hw. cbn [dev next_session trace].
    rewrite Ho2. cbn [dev next_session trace].
    change (Z.of_nat (length (frame_8bit register value))) with 2 in Hr.
    rewrite Hr. cbn [dev next_session trace].
    change (index (frame_8bit register value) 0) with (Ret value).
    change (index (frame_8bit register value) 1)
      with (Ret (addCrc (addCrc 0 register) value)).
    change (calcCRC register (frame_8bit register value) 1)
      with (Ret (addCrc (addCrc 0 register) value)).
    cbv beta iota. rewrite !Z.eqb_refl. cbv beta iota.
    cbn [dev next_session trace].
    repeat rewrite <- app_assoc. reflexivity.
  - intros Hv Hf. subst w'.
    pose proof Hf as Hf'. unfold frame_16bit in Hf'.
    rewrite (to_bytes_16_signed value Hv) in Hf'.
    set (lo := value mod 65536 mod 256) in *.
    set (hi := value mod 65536 / 256 mod 256) in *.
    change (calcCRC register [lo; hi] 2)
      with (Ret (A:=Z) (addCrc (addCrc (addCrc 0 register) lo) hi)) in Hf'.
    cbn in Hf'. apply Ret_inj in Hf'. subst arg_list.
    set (crc := addCrc (addCrc (addCrc 0 register) lo) hi) in *.
    assert (Hmap : map (fun x => x mod 256) [lo; hi; crc] = [lo; hi; crc]).
    { cbn [map]. subst lo hi crc.
      rewrite !Z.mod_mod by lia.
      rewrite (Z.mod_small (addCrc _ _)) by apply addCrc_range.
      reflexivity. }
    rewrite Hmap in *.
    unfold set_16bit_value, bind at 1, lift. rewrite Hf.
    unfold set_16bit_attempt, get_16bit_value, get_16bit_attempt.
    rewrite En. cbn [for_range]. unfold_monad.
    rewrite Ho1. cbn [dev next_session trace].
    rewrite Hw. cbn [dev next_session trace].
    rewrite Ho2. cbn [dev next_session trace].
    change (Z.of_nat (length [lo; hi; crc])) with 3 in Hr.
    rewrite Hr. cbn [dev next_session trace].
    change (firstn 2 [lo; hi; crc]) with [lo; hi].
    assert (Hfb : from_bytes [lo; hi] true = Ret value)
      by apply (from_bytes_16_signed value Hv).
    rewrite Hfb.
    change (index [lo; hi; crc] 2) with (Ret crc).
    change (calcCRC register [lo; hi; crc] 2) with (Ret crc).
    cbv beta iota. rewrite !Z.eqb_refl. cbv beta iota.
    cbn [dev next_session trace].
    repeat rewrite <- app_assoc. reflexivity.
Qed.

End MoreEngine.

(** ** Instances of the further properties *)

Lemma calcCRC_detects_single_byte_error_witness :
  Crc.calcCRC REG_BAT_VOLTAGE [0x34; 0x12] 2 <>
  Crc.calcCRC REG_BAT_VOLTAGE [0x34; 0x13] 2 /\
  Crc.calcCRC 0x11 [0x34; 0x12] 2 <> Crc.calcCRC 0x12 [0x34; 0x12] 2.
Proof.
  split.
  - apply (proj1 (calcCRC_detects_single_byte_error REG_BAT_VOLTAGE 0
                    0x12 0x13 [0x34] [])); lia.
  - apply (proj2 (calcCRC_detects_single_byte_error 0x11 0x12
                    0 0 [] [0x34; 0x12])); lia.
Defined.

Lemma calcCRC_length_behaviour_witness :
  Crc.calcCRC REG_BAT_VOLTAGE [0x34; 0x12; 242] 2 =
    Ret (Crc.spec_checksum_over REG_BAT_VOLTAGE [0x34; 0x12]) /\
  Crc.calcCRC REG_BAT_VOLTAGE [0x34] 2 = Raise IndexError /\
  Crc.calcCRC REG_BAT_VOLTAGE [] (-3) = Ret (Crc.addCrc 0 REG_BAT_VOLTAGE).
Proof.
  repeat apply conj.
  - apply (proj1 (calcCRC_length_behaviour REG_BAT_VOLTAGE 2
                    [0x34; 0x12; 242])).
    cbn. lia.
  - apply (proj1 (proj2 (calcCRC_length_behaviour REG_BAT_VOLTAGE 2 [0x34]))).
    cbn. lia.
  - apply (proj2 (proj2 (calcCRC_length_behaviour REG_BAT_VOLTAGE (-3) []))).
    lia.
Defined.

Lemma decode_then_encode_16_witness :
  Codec.from_bytes [46; 251] true = Ret (-1234) /\
  -32768 <= -1234 <= 32767 /\
  Codec.to_bytes (-1234) 2 true = Ret [46; 251].
Proof.
  apply (decode_then_encode_16 46 251); lia.
Defined.

Lemma retry_recovery_witness :
  let T := flaky_transport 2 [0x34; 0x12; 242] in
  get_16bit_value T (handle 3) REG_BAT_VOLTAGE (init_world O) =
    (Ret 4660,
     snd (get_16bit_value T (handle 3) REG_BAT_VOLTAGE (init_world O))).
Proof.
  intros T.
  pose (w0 := init_world O : world nat).
  pose (w1 := snd (get_16bit_attempt T (handle 3) REG_BAT_VOLTAGE w0)).
  pose (w2 := snd (get_16bit_attempt T (handle 3) REG_BAT_VOLTAGE w1)).
  apply (proj1 (proj2 (retry_recovery T (handle 3) REG_BAT_VOLTAGE 0 2
                         w0 w2 _ ltac:(cbn; lia))) 4660).
  - apply (chain_cons _ _ w0 w1 w2); [reflexivity |].
    apply (chain_cons _ _ w1 w2 w2); [reflexivity |].
    apply chain_nil.
  - reflexivity.
Defined.

Lemma open_failure_is_not_retried_witness :
  let T := closed_transport OSError in
  let w := init_world tt in
  let w' := {| dev := tt; next_session := O; trace := [EvOpenFailed] |} in
  get_8bit_value T (handle 3) REG_TIMEOUT w = (Raise OSError, w') /\
  get_16bit_value T (handle 3) REG_TIMEOUT w = (Raise OSError, w') /\
  get_version T (handle 3) w = (Raise OSError, w') /\
  get_uptime T (handle 3) w = (Raise OSError, w') /\
  set_8bit_value T (handle 3) REG_TIMEOUT 30 w = (Raise OSError, w') /\
  (-32768 <= 30 <= 32767 ->
   set_16bit_value T (handle 3) REG_TIMEOUT 30 w = (Raise OSError, w')).
Proof.
  intros T w w'.
  apply (open_failure_is_not_retried T (handle 3) REG_TIMEOUT 30 w OSError tt).
  - cbn. lia.
  - reflexivity.
Defined.

Lemma no_retries_raise_unbound_local_witness :
  let w := init_world ([] : regfile) in
  get_8bit_value regfile_transport (handle 0) REG_TIMEOUT w =
    (Raise UnboundLocalError, w) /\
  get_16bit_value regfile_transport (handle 0) REG_TIMEOUT w =
    (Raise UnboundLocalError, w) /\
  get_version regfile_transport (handle 0) w = (Raise UnboundLocalError, w) /\
  get_uptime regfile_transport (handle 0) w = (Raise UnboundLocalError, w) /\
  set_8bit_value regfile_transport (handle 0) REG_TIMEOUT 40000 w =
    (Raise UnboundLocalError, w) /\
  set_16bit_value regfile_transport (handle 0) REG_TIMEOUT 40000 w =
    (Raise OverflowError, w).
Proof.
  intros w.
  apply (no_retries_raise_unbound_local regfile_transport (handle 0)
           REG_TIMEOUT 40000 w).
  cbn. lia.
Defined.

Lemma read_exhaustion_on_transport_errors_witness :
  let T := const_transport (Ret tt) (Raise OSError) in
  let w := init_world tt in
  (exists w' evs,
     get_8bit_value T (handle 3) REG_TIMEOUT w = (Ret 0xFFFF, w') /\
     gained w w' evs /\ length (reads_of evs) = 3%nat /\
     writes_of evs = []) /\
  (exists w' evs,
     get_16bit_value T (handle 3) REG_TIMEOUT w = (Ret 0xFFFFFFFF, w') /\
     gained w w' evs /\ length (reads_of evs) = 3%nat /\
     writes_of evs = []) /\
  (exists w' evs,
     get_version T (handle 3) w = (Ret (0xFFFF, 0xFFFF, 0xFFFF), w') /\
     gained w w' evs /\ length (reads_of evs) = 3%nat /\
     writes_of evs = []) /\
  (exists w' evs,
     get_uptime T (handle 3) w = (Ret 0xFFFFFFFFFFFF, w') /\
     gained w w' evs /\ length (reads_of evs) = 3%nat /\
     writes_of evs = []).
Proof.
  intros T w.
  apply (read_exhaustion_on_transport_errors T (handle 3) REG_TIMEOUT w).
  - cbn. lia.
  - intros d. exists tt, d. reflexivity.
  - intros a r c d. exists OSError, d. reflexivity.
Defined.

Lemma write_worst_case_traffic_witness :
  let T := const_transport (Ret tt) (Raise OSError) in
  let w := init_world tt in
  (exists w' evs,
     set_8bit_value T (handle 3) REG_TIMEOUT 30 w = (Ret false, w') /\
     gained w w' evs /\
     length (writes_of evs) = 3%nat /\ length (reads_of evs) = 9%nat) /\
  (exists w' evs,
     set_16bit_value T (handle 3) 0x31 (-1234) w = (Ret false, w') /\
     gained w w' evs /\
     length (writes_of evs) = 3%nat /\ length (reads_of evs) = 9%nat).
Proof.
  intros T w.
  pose proof (fun r v => write_worst_case_traffic T (handle 3) r v w
    ltac:(cbn; lia)
    (fun d => ex_intro _ tt (ex_intro _ d eq_refl))
    (fun a r data d => ex_intro _ d eq_refl)
    (fun a r c d => ex_intro _ OSError (ex_intro _ d eq_refl))) as H.
  split.
  - apply (proj1 (H REG_TIMEOUT 30)). lia.
  - apply (proj2 (H 0x31 (-1234))). lia.
Defined.

Lemma get_uptime_little_endian_witness :
  let T := const_transport (Ret tt) (Ret [1; 2; 3; 0; 69]) in
  get_uptime T (handle 3) (init_world tt) =
    (Ret 197121,
     {| dev := tt;
        next_session := 1;
        trace := [EvOpen 0; EvSleep;
                  EvRead 0 REG_UPTIME 5 (Ret [1; 2; 3; 0; 69]);
                  EvClose 0] |}).
Proof.
  intros T.
  apply (proj1 (get_uptime_little_endian T (handle 3) (init_world tt)
                  tt tt tt 1 2 3 0 69
                  ltac:(cbn; lia) ltac:(lia) ltac:(lia) ltac:(lia)
                  eq_refl eq_refl)).
  reflexivity.
Defined.

Lemma set_8bit_value_needs_a_byte_witness :
  fst (set_8bit_value (const_transport (Ret tt) (Ret [255; 172])) (handle 3)
         REG_TIMEOUT (-1) (init_world tt)) <> Ret true.
Proof.
  apply (set_8bit_value_needs_a_byte
           (const_transport (Ret tt) (Ret [255; 172])) (handle 3)
           REG_TIMEOUT (-1) (init_world tt)).
  - intros a r c d l d' H. injection H as <- _. reflexivity.
  - lia.
  - lia.
Defined.

Lemma write_then_read_back_witness :
  let w := init_world ([] : regfile) in
  set_8bit_value regfile_transport (handle 3) REG_TIMEOUT 30 w =
    (Ret true,
     snd (set_8bit_value regfile_transport (handle 3) REG_TIMEOUT 30 w)) /\
  set_16bit_value regfile_transport (handle 3) 0x31 (-1234) w =
    (Ret true,
     snd (set_16bit_value regfile_transport (handle 3) 0x31 (-1234) w)).
Proof.
  intros w. split.
  - apply (proj1 (write_then_read_back regfile_transport (handle 3)
                    REG_TIMEOUT 30 w tt tt
                    [] [(REG_TIMEOUT, [30; 116])]
                    [(REG_TIMEOUT, [30; 116])] [(REG_TIMEOUT, [30; 116])]
                    [30; 116]
                    ltac:(cbn; lia) eq_refl eq_refl eq_refl eq_refl)).
    + lia.
    + reflexivity.
  - apply (proj2 (write_then_read_back regfile_transport (handle 3)
                    0x31 (-1234) w tt tt
                    [] [(0x31, [46; 251; 66])]
                    [(0x31, [46; 251; 66])] [(0x31, [46; 251; 66])]
                    [46; 251; 66]
                    ltac:(cbn; lia) eq_refl eq_refl eq_refl eq_refl)).
    + lia.
    + reflexivity.
Defined.

(** ** The version triple and its failure value *)

Section VersionMarker.

Context {D : Type}.
Variable T : transport D.
Variable self : ATTiny.

Import Crc Codec.

(** X16. On a bus that delivers bytes, [get_version] returns either three
    bytes taken from an accepted frame or the triple
    [(0xFFFF, 0xFFFF, 0xFFFF)], and the latter exactly when the loop ended
    without an accepting pass: the failure triple is no version a frame can
    carry. *)
Theorem get_version_bytes_or_failure_triple (major minor patch : Z)
    (w w' : world D) :
  (forall a r c d l d',
      t_read T a r c d = (Ret l, d') -> forallb is_byte l = true) ->
  get_version T self w = (Ret (major, minor, patch), w') ->
  let n := Z.to_nat (num_retries self) in
  (0 <= major <= 255 /\ 0 <= minor <= 255 /\ 0 <= patch <= 255 /\
   for_range n (get_version_attempt T self) w =
     (Ret (Some (major, minor, patch)), w')) \/
  ((major, minor, patch) = (0xFFFF, 0xFFFF, 0xFFFF) /\
   for_range n (get_version_attempt T self) w = (Ret None, w')).
Proof.
  intros Hbytes E n. unfold get_version in E.
  pose proof (retry_read_cases T self REG_VERSION 5 pre_none post_version
                _ (0xFFFF, 0xFFFF, 0xFFFF)
                (get_version_attempt_shape T self) w) as H.
  cbv zeta in H. rewrite E in H.
  destruct H as [(k & w1 & _ & _ & Ha & Hf) | (Hm & _ & _ & Hf)];
    [left | right; split; assumption].
  destruct Ha as (u & d1 & read & d2 & b & _ & Hr & _ & Hq & _).
  destruct (post_version_accepts _ _ _ Hq)
    as ((mj & mn & pt & Hv & H2 & H1 & H0) & _).
  injection Hv as -> -> ->.
  pose proof (Hbytes _ _ _ _ _ _ Hr) as Hb.
  rewrite forallb_forall in Hb.
  pose proof (is_byte_range _ (Hb _ (nth_error_In read 2 H2))).
  pose proof (is_byte_range _ (Hb _ (nth_error_In read 1 H1))).
  pose proof (is_byte_range _ (Hb _ (nth_error_In read 0 H0))).
  repeat split; try lia. exact Hf.
Qed.

End VersionMarker.

Lemma get_version_bytes_or_failure_triple_witness :
  let T := const_transport (Ret tt) (Ret [3; 2; 1; 0; 87]) in
  let w := init_world tt in
  (0 <= 1 <= 255 /\ 0 <= 2 <= 255 /\ 0 <= 3 <= 255 /\
   for_range 3 (get_version_attempt T (handle 3)) w =
     (Ret (Some (1, 2, 3)), snd (get_version T (handle 3) w))) \/
  ((1, 2, 3) = (0xFFFF, 0xFFFF, 0xFFFF) /\
   for_range 3 (get_version_attempt T (handle 3)) w =
     (Ret None, snd (get_version T (handle 3) w))).
Proof.
  intros T w.
  apply (get_version_bytes_or_failure_triple T (handle 3) 1 2 3 w).
  - intros a r c d l d' H. injection H as <- _. reflexivity.
  - reflexivity.
Defined.

(** ** The delay *)

Section TimedFacts.

Context {D : Type}.
Variable T : transport D.
Variable self : TimedATTiny.

Import Crc Codec.

Lemma for_range_ext {A : Type} (body body' : M D (option A)) :
  (forall w, body w = body' w) ->
  forall n w, for_range n body w = for_range n body' w.
Proof.
  intros H. induction n as [| n IH]; intros w; [reflexivity |].
  cbn [for_range]. unfold bind. rewrite H.
  destruct (body' w) as [[[v |] | e] w1]; try reflexivity. apply IH.
Qed.

(** Two retry functions over passes that agree, agree. *)
Lemma retry_ext {A : Type} (body body' : M D (option A)) (marker : A)
    (n : Z) (w : world D) :
  (forall w, body w = body' w) ->
  bind (for_range (Z.to_nat n) body)
    (fun r => match r with
              | Some v => ret v
              | None => bind (warn_retries n) (fun _ => ret marker)
              end) w =
  bind (for_range (Z.to_nat n) body')
    (fun r => match r with
              | Some v => ret v
              | None => bind (warn_retries n) (fun _ => ret marker)
              end) w.
Proof.
  intros H. unfold bind at 1 3.
  rewrite (for_range_ext body body' H). reflexivity.
Qed.

Section NonNegativeDelay.

Hypothesis delay_ok :
  QArith_base.Qle_bool (QArith_base.Qmake 0 1) (time_const self) = true.

(** At a delay [time.sleep] accepts, the functions with the delay are the
    functions without it. *)
Lemma timed_get_8bit_attempt (register : Z) (w : world D) :
  Timed.get_8bit_attempt T self register w =
  get_8bit_attempt T (untimed self) register w.
Proof.
  unfold Timed.get_8bit_attempt, get_8bit_attempt, Timed.sleep.
  rewrite delay_ok. reflexivity.
Qed.

Lemma timed_get_16bit_attempt (register : Z) (w : world D) :
  Timed.get_16bit_attempt T self register w =
  get_16bit_attempt T (untimed self) register w.
Proof.
  unfold Timed.get_16bit_attempt, get_16bit_attempt, Timed.sleep.
  rewrite delay_ok. reflexivity.
Qed.

Lemma timed_get_version_attempt (w : world D) :
  Timed.get_version_attempt T self w = get_version_attempt T (untimed self) w.
Proof.
  unfold Timed.get_version_attempt, get_version_attempt, Timed.sleep.
  rewrite delay_ok. reflexivity.
Qed.

Lemma timed_get_uptime_attempt (w : world D) :
  Timed.get_uptime_attempt T self w = get_uptime_attempt T (untimed self) w.
Proof.
  unfold Timed.get_uptime_attempt, get_uptime_attempt, Timed.sleep.
  rewrite delay_ok. reflexivity.
Qed.

Lemma timed_get_8bit_value (register : Z) (w : world D) :
  Timed.get_8bit_value T self register w =
  get_8bit_value T (untimed self) register w.
Proof.
  apply retry_ext, timed_get_8bit_attempt.
Qed.

Lemma timed_get_16bit_value (register : Z) (w : world D) :
  Timed.get_16bit_value T self register w =
  get_16bit_value T (untimed self) register w.
Proof.
  apply retry_ext, timed_get_16bit_attempt.
Qed.

Lemma timed_get_version (w : world D) :
  Timed.get_version T self w = get_version T (untimed self) w.
Proof.
  apply retry_ext, timed_get_version_attempt.
Qed.

Lemma timed_get_uptime (w : world D) :
  Timed.get_uptime T self w = get_uptime T (untimed self) w.
Proof.
  apply retry_ext, timed_get_uptime_attempt.
Qed.

Lemma timed_set_8bit_attempt (register value : Z) (arg_list : list Z)
    (w : world D) :
  Timed.set_8bit_attempt T self register value arg_list w =
  set_8bit_attempt T (untimed self) register value arg_list w.
Proof.
  unfold Timed.set_8bit_attempt, set_8bit_attempt, Timed.sleep.
  rewrite delay_ok. unfold bind, try_except.
  destruct (SMBus T (bus_number (untimed self)) w) as [[bus | e] w1];
    [| reflexivity].
  destruct (sleep w1) as [[u | e] w2]; [| reflexivity].
  destruct (write_i2c_block_data T bus (address (untimed self)) register
              arg_list w2) as [[u' | e] w3]; [| reflexivity].
  destruct (close bus w3) as [[u'' | e] w4]; [| reflexivity].
  rewrite timed_get_8bit_value. reflexivity.
Qed.

Lemma timed_set_16bit_attempt (register value : Z) (arg_list : list Z)
    (w : world D) :
  Timed.set_16bit_attempt T self register value arg_list w =
  set_16bit_attempt T (untimed self) register value arg_list w.
Proof.
  unfold Timed.set_16bit_attempt, set_16bit_attempt, Timed.sleep.
  rewrite delay_ok. unfold bind, try_except.
  destruct (SMBus T (bus_number (untimed self)) w) as [[bus | e] w1];
    [| reflexivity].
  destruct (sleep w1) as [[u | e] w2]; [| reflexivity].
  destruct (write_i2c_block_data T bus (address (untimed self)) register
              arg_list w2) as [[u' | e] w3]; [| reflexivity].
  destruct (close bus w3) as [[u'' | e] w4]; [| reflexivity].
  rewrite timed_get_16bit_value. reflexivity.
Qed.

Lemma timed_set_8bit_value (register value : Z) (w : world D) :
  Timed.set_8bit_value T self register value w =
  set_8bit_value T (untimed self) register value w.
Proof.
  apply retry_ext. intros w0. apply timed_set_8bit_attempt.
Qed.

Lemma timed_set_16bit_value (register value : Z) (w : world D) :
  Timed.set_16bit_value T self register value w =
  set_16bit_value T (untimed self) register value w.
Proof.
  unfold Timed.set_16bit_value, set_16bit_value, bind at 1 3, lift.
  destruct (frame_16bit register value) as [arg_list | e]; [| reflexivity].
  apply retry_ext. intros w0. apply timed_set_16bit_attempt.
Qed.

End NonNegativeDelay.

Section NegativeDelay.

Hypothesis delay_negative :
  QArith_base.Qle_bool (QArith_base.Qmake 0 1) (time_const self) = false.
Hypothesis some_retry : 1 <= num_retries (untimed self).

Variable w : world D.
Variable u : unit.
Variable d1 : D.
Hypothesis session_opens :
  t_open T (bus_number (untimed self)) (dev w) = (Ret u, d1).

(** A pass whose second statement is [time.sleep] of a negative delay
    raises [ValueError] with its session open. *)
Lemma negative_delay_pass {A : Type} (rest : nat -> M D (option A)) :
  bind (SMBus T (bus_number (untimed self)))
    (fun bus => bind (Timed.sleep self) (fun _ => rest bus)) w =
  (Raise ValueError,
   {| dev := d1; next_session := S (next_session w);
      trace := trace w ++ [EvOpen (next_session w)] |}).
Proof.
  unfold bind at 1, SMBus. rewrite session_opens.
  unfold bind, Timed.sleep. rewrite delay_negative. reflexivity.
Qed.

Lemma negative_delay_retry {A : Type} (rest : nat -> M D (option A))
    (marker : A) :
  bind (for_range (Z.to_nat (num_retries (untimed self)))
          (bind (SMBus T (bus_number (untimed self)))
             (fun bus => bind (Timed.sleep self) (fun _ => rest bus))))
    (fun r => match r with
              | Some v => ret v
              | None => bind (warn_retries (num_retries (untimed self)))
                          (fun _ => ret marker)
              end) w =
  (Raise ValueError,
   {| dev := d1; next_session := S (next_session w);
      trace := trace w ++ [EvOpen (next_session w)] |}).
Proof.
  destruct (Z.to_nat (num_retries (untimed self))) as [| m] eqn:En; [lia |].
  cbn [for_range]. unfold bind at 1 2.
  rewrite negative_delay_pass. reflexivity.
Qed.

End NegativeDelay.

End TimedFacts.

Section TimedClaims.

Context {D : Type}.
Variable T : transport D.
Variable self : TimedATTiny.

Import Crc Codec.



End TimedClaims.


